(** * A GRU encoder/decoder pair (module/rnn_base.py), shallowly embedded

    The two classes of [module/rnn_base.py], [GruEncoder] and [GruDecoder],
    are translated method by method.  Tensors are nested lists, Python
    exceptions are an explicit [result] type, and the floating-point scalar
    type is kept abstract: no algebraic law is assumed of its arithmetic, so
    every statement below holds for IEEE floats as for any other carrier.
    The one contract taken from the library is that of [topk]: the index it
    returns lies within the row, and no entry of the row is larger than the
    one at that index; which of several largest entries it picks is left
    open.

    The [torch] operations the source calls ([nn.Embedding], [nn.GRU],
    [nn.Linear], [log_softmax], [topk], [pack_padded_sequence],
    [pad_packed_sequence]) are modelled from their documented contract in
    the modules [Embedding], [GRU], [Linear] and [Rnn_utils]. *)

From Stdlib Require Import List ZArith Lia Bool Arith.
From Stdlib Require String.
Import ListNotations.

(** ** Python exceptions *)

Inductive exn : Type :=
| IndexError
| RuntimeError
| AssertionError
| ValueError.

Inductive result (A : Type) : Type :=
| Ok (a : A)
| Raise (e : exn).

Arguments Ok {A} a.
Arguments Raise {A} e.

Definition bind {A B : Type} (m : result A) (k : A -> result B) : result B :=
  match m with
  | Ok a => k a
  | Raise e => Raise e
  end.

Notation "x <- m ;; k" := (bind m (fun x => k))
  (at level 61, m at next level, right associativity).
Notation "' pat <- m ;; k" := (bind m (fun x => match x with pat => k end))
  (at level 61, pat pattern, m at next level, right associativity).

Definition guard (b : bool) (e : exn) : result unit :=
  if b then Ok tt else Raise e.

Fixpoint mapM {A B : Type} (f : A -> result B) (l : list A) : result (list B) :=
  match l with
  | [] => Ok []
  | a :: l' => b <- f a ;; bs <- mapM f l' ;; Ok (b :: bs)
  end.

(** ** Picking a largest entry

    One way to pick, for any comparison: the lowest index of a largest
    entry.  It is what the integer instance at the end of the definitions
    uses for [topk]. *)

Section Argmax.
Context {A : Type} (lt : A -> A -> bool).

Fixpoint argmax_from (best_i : nat) (best : A) (i : nat) (xs : list A) : nat :=
  match xs with
  | [] => best_i
  | x :: xs' => if lt best x
                then argmax_from i x (S i) xs'
                else argmax_from best_i best (S i) xs'
  end.

Definition argmax (row : list A) : nat :=
  match row with
  | [] => 0
  | x :: xs => argmax_from 0 x 1 xs
  end.

Lemma argmax_from_bound (xs : list A) (best_i : nat) (best : A) (i : nat) :
  best_i < i -> argmax_from best_i best i xs < i + length xs.
Proof.
  revert best_i best i; induction xs as [|x xs IH]; simpl; intros bi b i Hlt; [lia|].
  destruct (lt b x).
  - specialize (IH i x (S i)). lia.
  - specialize (IH bi b (S i)). lia.
Qed.

Lemma argmax_bound (row : list A) : 1 <= length row -> argmax row < length row.
Proof.
  destruct row as [|x xs]; simpl; [lia|]. intros _.
  pose proof (argmax_from_bound xs 0 x 1). lia.
Qed.

(** With a transitive, irreflexive comparison no entry of the row is larger
    than the one [argmax] picks. *)
Lemma argmax_from_max (d : A) :
  (forall a, lt a a = false) ->
  (forall a b c, lt a b = true -> lt b c = true -> lt a c = true) ->
  forall (xs pre : list A) (best_i : nat),
    best_i < length pre ->
    (forall j, j < length pre -> lt (nth best_i pre d) (nth j pre d) = false) ->
    forall j, j < length (pre ++ xs) ->
      lt (nth (argmax_from best_i (nth best_i pre d) (length pre) xs) (pre ++ xs) d)
         (nth j (pre ++ xs) d) = false.
Proof.
  intros Hirr Htr. induction xs as [|x xs IH]; intros pre bi Hbi Hpre j Hj.
  - simpl. rewrite app_nil_r in *. auto.
  - cbn [argmax_from].
    replace (pre ++ x :: xs) with ((pre ++ [x]) ++ xs) in * by now rewrite <- app_assoc.
    replace (S (length pre)) with (length (pre ++ [x])) by (rewrite length_app; simpl; lia).
    destruct (lt (nth bi pre d) x) eqn:E.
    + replace x with (nth (length pre) (pre ++ [x]) d) at 1
        by (rewrite app_nth2, Nat.sub_diag; auto).
      apply IH; auto.
      * rewrite length_app; simpl; lia.
      * intros k Hk. rewrite length_app in Hk; simpl in Hk.
        rewrite (app_nth2 pre [x] d (n := length pre)), Nat.sub_diag by lia. simpl.
        destruct (Nat.eq_dec k (length pre)) as [->|Hne].
        -- rewrite app_nth2, Nat.sub_diag by lia. apply Hirr.
        -- rewrite app_nth1 by lia.
           destruct (lt x (nth k pre d)) eqn:E'; auto.
           rewrite <- (Hpre k) by lia. symmetry. eapply Htr; eauto.
    + replace (nth bi pre d) with (nth bi (pre ++ [x]) d) by (rewrite app_nth1; auto).
      apply IH; auto.
      * rewrite length_app; simpl; lia.
      * intros k Hk. rewrite length_app in Hk; simpl in Hk.
        rewrite (app_nth1 pre [x] d (n := bi)) by lia.
        destruct (Nat.eq_dec k (length pre)) as [->|Hne].
        -- rewrite app_nth2, Nat.sub_diag by lia. exact E.
        -- rewrite app_nth1 by lia. apply Hpre; lia.
Qed.

Lemma argmax_max (d : A) (row : list A) :
  (forall a, lt a a = false) ->
  (forall a b c, lt a b = true -> lt b c = true -> lt a c = true) ->
  forall j, j < length row -> lt (nth (argmax row) row d) (nth j row d) = false.
Proof.
  intros Hirr Htr j Hj. destruct row as [|x xs]; [simpl in Hj; lia|].
  unfold argmax.
  apply (argmax_from_max d Hirr Htr xs [x] 0); simpl; auto.
  intros k Hk. replace k with 0 by lia. apply Hirr.
Qed.
End Argmax.

(** ** Scalars

    [F] stands for the tensor element type ([torch.float32]).  [affine row b x]
    is one output unit of a linear layer (the product of [row] with [x] plus
    [b]), [log_softmax_at row x] is the log-softmax of the entry [x] of [row];
    [of_int] is the conversion of a Python integer to a tensor element, and
    [flt] and [fle] are the comparisons [<] and [<=]. *)

Class Float (F : Type) : Type := {
  fzero : F;
  fadd : F -> F -> F;
  fmul : F -> F -> F;
  flt : F -> F -> bool;
  fle : F -> F -> bool;
  of_int : Z -> F;
  affine : list F -> F -> list F -> F;
  log_softmax_at : list F -> F -> F;
  (** [row.topk(1)]: the index the library returns on a row that is not
      empty.  It is an index of the row, and no entry is larger than the
      entry it points at; ties are the library's to break. *)
  topk_index : list F -> nat;
  topk_index_lt : forall row, 1 <= length row -> topk_index row < length row;
  topk_index_max :
    forall row j d, j < length row ->
                    flt (nth (topk_index row) row d) (nth j row d) = false
}.

(** The reserved token ids of [util.tokens], which is not part of the
    sources at hand: they are parameters of the development. *)

Class Tokens : Type := {
  PAD_TOKEN_ID : Z;
  SOS_TOKEN_ID : Z
}.

(** ** Tensor helpers *)

Section Lists.
Context {A : Type}.

Fixpoint map2 {B C : Type} (f : A -> B -> C) (l : list A) (l' : list B) : list C :=
  match l, l' with
  | a :: t, b :: t' => f a b :: map2 f t t'
  | _, _ => []
  end.

Fixpoint imap_from {B : Type} (i : nat) (f : nat -> A -> B) (l : list A) : list B :=
  match l with
  | [] => []
  | a :: t => f i a :: imap_from (S i) f t
  end.

Definition imap {B : Type} (f : nat -> A -> B) (l : list A) : list B :=
  imap_from 0 f l.

(** [x[:, j]] of a list of rows; rows too short contribute nothing. *)
Definition column (j : nat) (x : list (list A)) : list A :=
  flat_map (fun row => match nth_error row j with
                       | Some a => [a]
                       | None => []
                       end) x.

(** [x.transpose(0, 1)] for [x] of shape [(n0, n1, ...)]; the size [n1] of
    the second axis is passed along, since a list of rows does not record
    it when [n0 = 0]. *)
Definition transpose01 (n1 : nat) (x : list (list A)) : list (list A) :=
  map (fun j => column j x) (seq 0 n1).

(** [x[i] = v] on the first axis. *)
Fixpoint setitem (i : nat) (v : A) (x : list A) : list A :=
  match x, i with
  | [], _ => []
  | _ :: t, 0 => v :: t
  | a :: t, S i' => a :: setitem i' v t
  end.

(** [x.unsqueeze(-1)] of a one-dimensional tensor. *)
Definition unsqueeze_last (x : list A) : list (list A) :=
  map (fun a => [a]) x.

Definition list_max (l : list nat) : nat := fold_right Nat.max 0 l.

Fixpoint descending (l : list nat) : bool :=
  match l with
  | a :: (b :: _) as t => (b <=? a) && descending t
  | _ => true
  end.
End Lists.

Section Tensors.
Context {F : Type} `{Float F}.

(** Elementwise [a + b] on tensors of equal shape, at ranks 1 to 3. *)
Definition add1 (a b : list F) : list F := map2 fadd a b.
Definition add2 (a b : list (list F)) : list (list F) := map2 add1 a b.
Definition add3 (a b : list (list (list F))) : list (list (list F)) := map2 add2 a b.

Definition zeros1 (n : nat) : list F := repeat fzero n.
Definition zeros2 (n m : nat) : list (list F) := repeat (zeros1 m) n.
Definition zeros3 (n m k : nat) : list (list (list F)) := repeat (zeros2 m k) n.

Definition has_width (n : nat) (v : list F) : bool := length v =? n.

(** [nn.functional.log_softmax(x, dim=-1)] on one row. *)
Definition log_softmax (row : list F) : list F := map (log_softmax_at row) row.

(** [x.topk(1)] on one row, as a token id: the index the library picks; an
    empty row has no entry to pick and raises. *)
Definition topk1 (row : list F) : result Z :=
  match row with
  | [] => Raise RuntimeError
  | _ :: _ => Ok (Z.of_nat (topk_index row))
  end.
End Tensors.

(** ** [torch.nn.Embedding] *)

Module Embedding.
Section Defs.
Context {F : Type} `{Float F}.

(** [nn.Parameter]: a tensor and its [requires_grad] flag. *)
Record param : Type := {
  data : list (list F);
  requires_grad : bool
}.

Record t : Type := {
  weight : param;
  padding_idx : Z
}.

(** [nn.Embedding(num_embeddings, embedding_dim, padding_idx)], with [init]
    the freshly drawn table of [num_embeddings] rows.  The constructor
    asserts that a positive [padding_idx] lies below [num_embeddings] and
    that a negative one, which counts from the end, does not reach before
    the first row; it keeps the index counted from the start and fills that
    row with zeros, which fails on a table without that row.  The table is
    trainable. *)
Definition make (num_embeddings embedding_dim : nat) (padding_idx : Z)
  (init : list (list F)) : result t :=
  let n := Z.of_nat num_embeddings in
  padding_idx <-
    (if (0 <? padding_idx)%Z then
       _ <- guard (padding_idx <? n)%Z AssertionError ;; Ok padding_idx
     else if (padding_idx <? 0)%Z then
       _ <- guard (- n <=? padding_idx)%Z AssertionError ;; Ok (n + padding_idx)%Z
     else Ok padding_idx) ;;
  _ <- guard (Z.to_nat padding_idx <? length init) IndexError ;;
  Ok {| weight := {| data := setitem (Z.to_nat padding_idx) (zeros1 embedding_dim) init;
                     requires_grad := true |};
        padding_idx := padding_idx |}.

(** Lookup of one token id.  An id outside [0, num_embeddings) raises. *)
Definition lookup (e : t) (i : Z) : result (list F) :=
  if ((0 <=? i) && (i <? Z.of_nat (length (data (weight e)))))%Z
  then Ok (nth (Z.to_nat i) (data (weight e)) [])
  else Raise IndexError.

(** The module applied to a two-dimensional tensor of ids. *)
Definition forward (e : t) (x : list (list Z)) : result (list (list (list F))) :=
  mapM (mapM (lookup e)) x.
End Defs.
Arguments param F : clear implicits.
Arguments t F : clear implicits.
End Embedding.

(** ** [torch.nn.Linear] *)

Module Linear.
Section Defs.
Context {F : Type} `{Float F}.

Record t : Type := {
  in_features : nat;
  out_features : nat;
  weight : list (list F);
  bias : list F
}.

Definition apply (l : t) (x : list F) : list F :=
  map2 (fun row b => affine row b x) (weight l) (bias l).

(** The module applied to a batch of rows; a row whose width is not
    [in_features] raises. *)
Definition forward (l : t) (x : list (list F)) : result (list (list F)) :=
  _ <- guard (forallb (has_width (in_features l)) x) RuntimeError ;;
  Ok (map (apply l) x).
End Defs.
Arguments t F : clear implicits.
End Linear.

(** ** Dropout noise

    Dropout multiplies every element by a freshly drawn factor (zero, or the
    rescaling constant).  The factors drawn during one call are given as a
    function of the element's coordinates, so that the randomness a call
    consumes is an explicit argument of it. *)

Definition noise (F : Type) : Type := list nat -> F.

Definition sub {F : Type} (k : nat) (m : noise F) : noise F :=
  fun ks => m (k :: ks).

Definition dropout_vec {F : Type} `{Float F} (m : noise F) (x : list F) : list F :=
  imap (fun j xj => fmul (m [j]) xj) x.

Definition dropout_seq {F : Type} `{Float F} (m : noise F) (xs : list (list F))
  : list (list F) :=
  imap (fun t v => dropout_vec (sub t m) v) xs.

(** ** [torch.nn.GRU], batch first

    The arithmetic of one cell is the field [cell]: [cell g l d x h] is the
    new state of layer [l], direction [d], from input [x] and state [h]
    (it stands for the layer's weights).  What is modelled in full is the
    wiring around it: the unrolling over time in both directions, the
    stacking of layers with dropout in between, and the layout of the
    returned tensors.  [output] carries, at every time step, the forward
    state followed by the backward state of the last layer; [h_n] stacks the
    final states layer by layer, and within a layer forward before backward,
    so that it reads as [h_n.view(num_layers, num_directions, batch,
    hidden_size)]. *)

Module GRU.

Inductive direction : Type :=
| Forward
| Backward.

Section Defs.
Context {F : Type} `{Float F}.

Record t : Type := {
  input_size : nat;
  hidden_size : nat;
  num_layers : nat;
  bidirectional : bool;
  dropout : F;
  cell : nat -> direction -> list F -> list F -> list F
}.

(** [nn.GRU(input_size, hidden_size, num_layers, batch_first=True,
    bidirectional, dropout)], with [cell] standing for the freshly drawn
    weights.  The constructor rejects a dropout probability outside
    [[0, 1]], a hidden size below one and a number of layers below one. *)
Definition make (input_size hidden_size num_layers : nat) (bidirectional : bool)
  (dropout : F) (cell : nat -> direction -> list F -> list F -> list F) : result t :=
  _ <- guard (fle fzero dropout && fle dropout (of_int 1)) ValueError ;;
  _ <- guard (1 <=? hidden_size) ValueError ;;
  _ <- guard (1 <=? num_layers) ValueError ;;
  Ok {| input_size := input_size;
        hidden_size := hidden_size;
        num_layers := num_layers;
        bidirectional := bidirectional;
        dropout := dropout;
        cell := cell |}.

Definition num_directions (g : t) : nat :=
  if bidirectional g then 2 else 1.

(** The states a cell goes through along a sequence. *)
Fixpoint scan (f : list F -> list F -> list F) (h : list F) (xs : list (list F))
  : list (list F) :=
  match xs with
  | [] => []
  | x :: xs' => let h' := f x h in h' :: scan f h' xs'
  end.

(** Outputs of one direction of layer [l], aligned with the input steps. *)
Definition run (g : t) (l : nat) (d : direction) (h0 : list F) (xs : list (list F))
  : list (list F) :=
  match d with
  | Forward => scan (cell g l Forward) h0 xs
  | Backward => rev (scan (cell g l Backward) h0 (rev xs))
  end.

(** Final state of one direction of layer [l]: the state after the last
    step read, which for the backward direction is the first of the input. *)
Definition final (g : t) (l : nat) (d : direction) (h0 : list F) (xs : list (list F))
  : list F :=
  match d with
  | Forward => last (scan (cell g l Forward) h0 xs) h0
  | Backward => last (scan (cell g l Backward) h0 (rev xs)) h0
  end.

(** One layer on one sequence; [h0] holds the initial states of the layer's
    directions.  Returns the layer's outputs and its final states. *)
Definition layer (g : t) (l : nat) (h0 : list (list F)) (xs : list (list F))
  : list (list F) * list (list F) :=
  let hf := nth 0 h0 [] in
  if bidirectional g then
    let hb := nth 1 h0 [] in
    (map2 (@app F) (run g l Forward hf xs) (run g l Backward hb xs),
     [final g l Forward hf xs; final g l Backward hb xs])
  else
    (run g l Forward hf xs, [final g l Forward hf xs]).

Definition dropout_active (g : t) (training : bool) : bool :=
  training && flt fzero (dropout g).

(** [n] stacked layers starting at layer [l], on one sequence.  Dropout
    applies to the outputs of every layer but the last. *)
Fixpoint layers (g : t) (drop : bool) (m : noise F) (n l : nat)
  (h0 : list (list F)) (xs : list (list F)) : list (list F) * list (list F) :=
  match n with
  | 0 => (xs, [])
  | S n' =>
      let '(out, fin) := layer g l (firstn (num_directions g) h0) xs in
      let out := if drop && negb (n' =? 0) then dropout_seq (sub l m) out else out in
      let '(o, fs) := layers g drop m n' (S l) (skipn (num_directions g) h0) out in
      (o, fin ++ fs)
  end.

(** The whole stack on a batch of sequences, which need not have the same
    length; [h0] has shape [(num_directions * num_layers, batch, hidden_size)]
    and so has the second component of the result. *)
Definition run_batch (g : t) (training : bool) (m : noise F)
  (input : list (list (list F))) (h0 : list (list (list F)))
  : list (list (list F)) * list (list (list F)) :=
  let per_seq :=
    imap (fun b xs => layers g (dropout_active g training) (sub b m)
                        (num_layers g) 0 (map (fun hl => nth b hl []) h0) xs)
         input in
  (map fst per_seq,
   map (fun k => map (fun r => nth k (snd r) []) per_seq)
       (seq 0 (num_directions g * num_layers g))).

(** The sequence layer [l] reads, from zero initial states: the input itself
    for the first layer, the output of the layer below (after dropout)
    for the others. *)
Fixpoint layer_input (g : t) (drop : bool) (m : noise F) (l : nat) (xs : list (list F))
  : list (list F) :=
  match l with
  | 0 => xs
  | S l' =>
      let out := fst (layer g l' (repeat (zeros1 (hidden_size g)) (num_directions g))
                            (layer_input g drop m l' xs)) in
      if drop then dropout_seq (sub l' m) out else out
  end.

(** The final hidden state of layer [l] in direction [d], for every sequence
    of the batch, computed on its own: it does not go through the layout of
    [h_n]. *)
Definition final_state (g : t) (training : bool) (m : noise F)
  (input : list (list (list F))) (l : nat) (d : direction) : list (list F) :=
  imap (fun b xs => final g l d (zeros1 (hidden_size g))
                      (layer_input g (dropout_active g training) (sub b m) l xs))
       input.

Definition check_input (g : t) (input : list (list (list F))) : bool :=
  forallb (forallb (has_width (input_size g))) input.

Definition check_hidden (g : t) (batch : nat) (h : list (list (list F))) : bool :=
  (length h =? num_directions g * num_layers g)
  && forallb (fun hl => (length hl =? batch) && forallb (has_width (hidden_size g)) hl) h.

(** The module applied to a padded batch [(batch, seq, input_size)] and an
    optional initial state (zeros when absent). *)
Definition forward (g : t) (training : bool) (m : noise F)
  (input : list (list (list F))) (hx : option (list (list (list F))))
  : result (list (list (list F)) * list (list (list F))) :=
  _ <- guard (check_input g input) RuntimeError ;;
  h0 <- match hx with
        | None => Ok (zeros3 (num_directions g * num_layers g) (length input)
                             (hidden_size g))
        | Some h => _ <- guard (check_hidden g (length input) h) RuntimeError ;; Ok h
        end ;;
  Ok (run_batch g training m input h0).
End Defs.
Arguments t F : clear implicits.
End GRU.

(** ** [torch.nn.utils.rnn]

    A packed sequence is kept as what it denotes: the batch of sequences,
    each cut to its true length, in batch order. *)

Module Rnn_utils.
Section Defs.
Context {F : Type} `{Float F}.

Record PackedSequence : Type := {
  sequences : list (list (list F))
}.

(** [pack_padded_sequence(input, lengths, batch_first=True)].  It raises on
    an empty tensor, on a count of lengths other than the batch size, on a
    length that is not positive and on lengths that are not in decreasing
    order; lengths beyond the padded width are outside this model and
    rejected as well. *)
Definition pack_padded_sequence (input : list (list (list F))) (lengths : list nat)
  : result PackedSequence :=
  _ <- guard (negb (length input =? 0)
              && forallb (fun row => negb (length row =? 0)
                                     && forallb (fun v => negb (length v =? 0)) row)
                         input) RuntimeError ;;
  _ <- guard (length lengths =? length input) RuntimeError ;;
  _ <- guard (forallb (fun n => 0 <? n) lengths) RuntimeError ;;
  _ <- guard (descending lengths) RuntimeError ;;
  _ <- guard (forallb (fun b => b) (map2 (fun n row => n <=? length row) lengths input))
         RuntimeError ;;
  Ok {| sequences := map2 (fun n row => firstn n row) lengths input |}.

(** The recurrent module applied to a packed sequence. *)
Definition gru_packed (g : GRU.t F) (training : bool) (m : noise F) (p : PackedSequence)
  : result (PackedSequence * list (list (list F))) :=
  '(out, h_n) <- GRU.forward g training m (sequences p) None ;;
  Ok ({| sequences := out |}, h_n).

(** [pad_packed_sequence(p, batch_first=True, padding_value)]: every
    sequence is extended to the longest length with vectors filled with
    [padding_value], as wide as the packed data. *)
Definition pad_packed_sequence (p : PackedSequence) (padding_value : F)
  : list (list (list F)) * list nat :=
  let lengths := map (@length _) (sequences p) in
  let width := length (hd [] (concat (sequences p))) in
  (map (fun s => s ++ repeat (repeat padding_value width) (list_max lengths - length s))
       (sequences p),
   lengths).
End Defs.
Arguments PackedSequence F : clear implicits.
End Rnn_utils.

(** ** [AttributeDict.get] with a default *)

Definition get {A : Type} (o : option A) (default : A) : A :=
  match o with
  | Some a => a
  | None => default
  end.

(** ** Device names *)

Module Device.
Import String.
Local Open Scope string_scope.

Definition t : Type := string.
Definition cpu : t := "cpu".
End Device.

(** ** class GruEncoder *)

Module GruEncoder.
Section Defs.
Context {F : Type} `{Float F} `{Tokens}.

(** The configuration bundle: three required keys and four optional ones. *)
Record params : Type := {
  p_vocab_size : nat;
  p_embedding_dim : nat;
  p_hidden_size : nat;
  p_bidirectional : option bool;
  p_num_layers : option nat;
  p_dropout_prob : option F;
  p_device : option Device.t
}.

Record t : Type := {
  vocab_size : nat;
  embedding_dim : nat;
  hidden_size : nat;
  bidirectional : bool;
  num_layers : nat;
  dropout_prob : F;
  device : Device.t;
  embedding_lookup : Embedding.t F;
  rnn : GRU.t F;
  training : bool
}.

(** [__init__]; [init_table] and [cell] are the freshly initialised weights
    of the two submodules, built in the order of the source, so that what
    either constructor raises leaves [__init__] as it is.  A new module is
    in training mode. *)
Definition init (p : params) (init_table : list (list F))
  (cell : nat -> GRU.direction -> list F -> list F -> list F) : result t :=
  let vocab_size := p_vocab_size p in
  let embedding_dim := p_embedding_dim p in
  let hidden_size := p_hidden_size p in
  let bidirectional := get (p_bidirectional p) false in
  let num_layers := get (p_num_layers p) 1 in
  let dropout_prob := get (p_dropout_prob p) fzero in
  let device := get (p_device p) Device.cpu in
  embedding_lookup <- Embedding.make vocab_size embedding_dim PAD_TOKEN_ID init_table ;;
  rnn <- GRU.make embedding_dim hidden_size num_layers bidirectional dropout_prob cell ;;
  Ok {| vocab_size := vocab_size;
        embedding_dim := embedding_dim;
        hidden_size := hidden_size;
        bidirectional := bidirectional;
        num_layers := num_layers;
        dropout_prob := dropout_prob;
        device := device;
        embedding_lookup := embedding_lookup;
        rnn := rnn;
        training := true |}.

(** The first half of [forward], up to [pad_packed_sequence]: the padded
    output and the final hidden state before the directions are merged. *)
Definition unmerged (self : t) (m : noise F) (x : list (list Z)) (seq_lengths : list nat)
  : result (list (list (list F)) * list (list (list F))) :=
  embedding <- Embedding.forward (embedding_lookup self) x ;;
  packed_input <- Rnn_utils.pack_padded_sequence embedding seq_lengths ;;
  '(output, hidden_state) <-
     Rnn_utils.gru_packed (rnn self) (training self) m packed_input ;;
  let '(output, _) := Rnn_utils.pad_packed_sequence output (of_int PAD_TOKEN_ID) in
  Ok (output, hidden_state).

(** [output[:, :, :hidden_size] + output[:, :, hidden_size:]] *)
Definition merge_output (self : t) (output : list (list (list F)))
  : list (list (list F)) :=
  map (map (fun v => add1 (firstn (hidden_size self) v) (skipn (hidden_size self) v)))
      output.

(** [hidden_state[:num_layers] + hidden_state[num_layers:]] *)
Definition merge_hidden (self : t) (hidden_state : list (list (list F)))
  : list (list (list F)) :=
  add3 (firstn (num_layers self) hidden_state) (skipn (num_layers self) hidden_state).

Definition forward (self : t) (m : noise F) (x : list (list Z)) (seq_lengths : list nat)
  : result (list (list (list F)) * list (list (list F))) :=
  embedding <- Embedding.forward (embedding_lookup self) x ;;
  packed_input <- Rnn_utils.pack_padded_sequence embedding seq_lengths ;;
  '(output, hidden_state) <-
     Rnn_utils.gru_packed (rnn self) (training self) m packed_input ;;
  let '(output, _) := Rnn_utils.pad_packed_sequence output (of_int PAD_TOKEN_ID) in
  if bidirectional self
  then Ok (merge_output self output, merge_hidden self hidden_state)
  else Ok (output, hidden_state).

(** [nn.Module.train(mode)], which [GruEncoder] inherits; [eval()] is
    [train false]. *)
Definition train (mode : bool) (self : t) : t :=
  {| vocab_size := vocab_size self;
     embedding_dim := embedding_dim self;
     hidden_size := hidden_size self;
     bidirectional := bidirectional self;
     num_layers := num_layers self;
     dropout_prob := dropout_prob self;
     device := device self;
     embedding_lookup := embedding_lookup self;
     rnn := rnn self;
     training := mode |}.

(** [init_embedding_weight]: the table is replaced as it comes, unchecked,
    and frozen.  [weight] is an array of the element type [F] of the module:
    [torch.from_numpy] keeps the element type of the array it is given, and
    an array of another element type is outside what is modelled here. *)
Definition init_embedding_weight (self : t) (weight : list (list F)) : t :=
  {| vocab_size := vocab_size self;
     embedding_dim := embedding_dim self;
     hidden_size := hidden_size self;
     bidirectional := bidirectional self;
     num_layers := num_layers self;
     dropout_prob := dropout_prob self;
     device := device self;
     embedding_lookup :=
       {| Embedding.weight := {| Embedding.data := weight;
                                 Embedding.requires_grad := false |};
          Embedding.padding_idx := Embedding.padding_idx (embedding_lookup self) |};
     rnn := rnn self;
     training := training self |}.
End Defs.
Arguments params F : clear implicits.
Arguments t F : clear implicits.
End GruEncoder.

(** ** Target sequences

    A two-dimensional tensor of token ids [(batch, size1)]; the size of the
    second axis is part of the tensor, whatever the number of rows. *)

Record LongTensor2 : Type := {
  size1 : nat;
  rows : list (list Z)
}.

(** [x[:, t]]: indexing past the second axis raises. *)
Definition select_column (x : LongTensor2) (t : nat) : result (list Z) :=
  if t <? size1 x
  then Ok (map (fun r => nth t r 0%Z) (rows x))
  else Raise IndexError.

(** ** class GruDecoder *)

Module GruDecoder.
Section Defs.
Context {F : Type} `{Float F} `{Tokens}.

Record params : Type := {
  p_vocab_size : nat;
  p_embedding_dim : nat;
  p_hidden_size : nat;
  p_max_seq_len : nat;
  p_num_layers : option nat;
  p_dropout_prob : option F;
  p_device : option Device.t;
  p_beam_size : option nat
}.

Record t : Type := {
  vocab_size : nat;
  embedding_dim : nat;
  hidden_size : nat;
  max_seq_len : nat;
  num_layers : nat;
  dropout_prob : F;
  device : Device.t;
  beam_size : nat;
  embedding_lookup : Embedding.t F;
  rnn : GRU.t F;
  linear_transform : Linear.t F;
  decoder_output_func : option (list F -> list F);
  training : bool
}.

(** [__init__]; [init_table], [cell], [lin_weight] and [lin_bias] are the
    freshly initialised weights of the submodules, built in the order of the
    source; [nn.Linear] accepts any sizes. *)
Definition init (p : params) (init_table : list (list F))
  (cell : nat -> GRU.direction -> list F -> list F -> list F)
  (lin_weight : list (list F)) (lin_bias : list F) : result t :=
  let vocab_size := p_vocab_size p in
  let embedding_dim := p_embedding_dim p in
  let hidden_size := p_hidden_size p in
  let max_seq_len := p_max_seq_len p in
  let num_layers := get (p_num_layers p) 1 in
  let dropout_prob := get (p_dropout_prob p) fzero in
  let device := get (p_device p) Device.cpu in
  let beam_size := get (p_beam_size p) 1 in
  embedding_lookup <- Embedding.make vocab_size embedding_dim PAD_TOKEN_ID init_table ;;
  rnn <- GRU.make embedding_dim hidden_size num_layers false dropout_prob cell ;;
  let linear_transform := {| Linear.in_features := hidden_size;
                             Linear.out_features := vocab_size;
                             Linear.weight := lin_weight;
                             Linear.bias := lin_bias |} in
  Ok {| vocab_size := vocab_size;
        embedding_dim := embedding_dim;
        hidden_size := hidden_size;
        max_seq_len := max_seq_len;
        num_layers := num_layers;
        dropout_prob := dropout_prob;
        device := device;
        beam_size := beam_size;
        embedding_lookup := embedding_lookup;
        rnn := rnn;
        linear_transform := linear_transform;
        decoder_output_func := Some log_softmax;
        training := true |}.

(** [step].  [inputs] is the [(batch, 1)] tensor of current ids, given by its
    only column; the embedding restores the time axis of length one, which
    [transpose(0, 1).squeeze(0)] removes again after the recurrent step. *)
Definition step (self : t) (m : noise F) (t : nat) (inputs : list Z)
  (prev_hidden_state : list (list (list F)))
  : result (list (list F) * list (list (list F))) :=
  embedding <- Embedding.forward (embedding_lookup self) (unsqueeze_last inputs) ;;
  '(outputs, hidden_state) <-
     GRU.forward (rnn self) (training self) m embedding (Some prev_hidden_state) ;;
  outputs <- Linear.forward (linear_transform self) (hd [] (transpose01 1 outputs)) ;;
  let outputs := match decoder_output_func self with
                 | Some f => map f outputs
                 | None => outputs
                 end in
  Ok (outputs, hidden_state).

(** The variables of the loop of [forward]. *)
Record state : Type := {
  decoder_input : list Z;
  prev_hidden_state : list (list (list F));
  logits : list (list (list F));
  predictions : list (list Z)
}.

Definition initial (self : t) (encoder_output : list (list (list F)))
  (encoder_hidden_state : list (list (list F))) : state :=
  let batch_size := length encoder_output in
  {| decoder_input := repeat SOS_TOKEN_ID batch_size;
     prev_hidden_state := encoder_hidden_state;
     logits := zeros3 (max_seq_len self) batch_size (vocab_size self);
     predictions := [] |}.

(** One iteration of the loop, at time step [t]; the dropout noise of the
    step is the slice [sub t m] of the noise of the call. *)
Definition body (self : t) (m : noise F) (tgt_seqs : LongTensor2) (t : nat) (s : state)
  : result state :=
  '(decoder_output, hidden_state) <-
     step self (sub t m) t (decoder_input s) (prev_hidden_state s) ;;
  let logits := setitem t decoder_output (logits s) in
  '(decoder_input, predictions) <-
     (if training self
      then (* teacher forcing *)
        decoder_input <- select_column tgt_seqs t ;;
        Ok (decoder_input, predictions s)
      else (* greedy search *)
        top_index <- mapM topk1 decoder_output ;;
        Ok (top_index, predictions s ++ [top_index])) ;;
  Ok {| decoder_input := decoder_input;
        prev_hidden_state := hidden_state;
        logits := logits;
        predictions := predictions |}.

(** [for t in range(n)]: the state after [n] iterations. *)
Fixpoint loop (self : t) (m : noise F) (tgt_seqs : LongTensor2) (n : nat) (s0 : state)
  : result state :=
  match n with
  | 0 => Ok s0
  | S n' => s <- loop self m tgt_seqs n' s0 ;; body self m tgt_seqs n' s
  end.

Definition forward (self : t) (m : noise F) (encoder_output : list (list (list F)))
  (encoder_hidden_state : list (list (list F)))
  (tgt_seqs : LongTensor2) (tgt_seq_lengths : list nat)
  : result (list (list (list F)) * list (list Z)) :=
  s <- loop self m tgt_seqs (max_seq_len self)
         (initial self encoder_output encoder_hidden_state) ;;
  Ok (transpose01 (length encoder_output) (logits s), predictions s).

(** What [step] is handed at time step [t]: the current input ids and the
    previous hidden state, when the loop gets that far. *)
Definition consumed (self : t) (m : noise F) (encoder_output : list (list (list F)))
  (encoder_hidden_state : list (list (list F))) (tgt_seqs : LongTensor2) (t : nat)
  : result (list Z * list (list (list F))) :=
  s <- loop self m tgt_seqs t (initial self encoder_output encoder_hidden_state) ;;
  Ok (decoder_input s, prev_hidden_state s).

(** [nn.Module.train(mode)], which [GruDecoder] inherits; [eval()] is
    [train false]. *)
Definition train (mode : bool) (self : t) : t :=
  {| vocab_size := vocab_size self;
     embedding_dim := embedding_dim self;
     hidden_size := hidden_size self;
     max_seq_len := max_seq_len self;
     num_layers := num_layers self;
     dropout_prob := dropout_prob self;
     device := device self;
     beam_size := beam_size self;
     embedding_lookup := embedding_lookup self;
     rnn := rnn self;
     linear_transform := linear_transform self;
     decoder_output_func := decoder_output_func self;
     training := mode |}.

(** [init_embedding_weight], as on the encoder: [weight] is an array of the
    element type [F] of the module. *)
Definition init_embedding_weight (self : t) (weight : list (list F)) : t :=
  {| vocab_size := vocab_size self;
     embedding_dim := embedding_dim self;
     hidden_size := hidden_size self;
     max_seq_len := max_seq_len self;
     num_layers := num_layers self;
     dropout_prob := dropout_prob self;
     device := device self;
     beam_size := beam_size self;
     embedding_lookup :=
       {| Embedding.weight := {| Embedding.data := weight;
                                 Embedding.requires_grad := false |};
          Embedding.padding_idx := Embedding.padding_idx (embedding_lookup self) |};
     rnn := rnn self;
     linear_transform := linear_transform self;
     decoder_output_func := decoder_output_func self;
     training := training self |}.

(** The same decoder with another value of [beam_size]. *)
Definition with_beam_size (self : t) (k : nat) : t :=
  {| vocab_size := vocab_size self;
     embedding_dim := embedding_dim self;
     hidden_size := hidden_size self;
     max_seq_len := max_seq_len self;
     num_layers := num_layers self;
     dropout_prob := dropout_prob self;
     device := device self;
     beam_size := k;
     embedding_lookup := embedding_lookup self;
     rnn := rnn self;
     linear_transform := linear_transform self;
     decoder_output_func := decoder_output_func self;
     training := training self |}.
End Defs.
Arguments params F : clear implicits.
Arguments t F : clear implicits.
Arguments state F : clear implicits.
End GruDecoder.

(** ** Shapes *)

Definition shape2 {A : Type} (n0 n1 : nat) (x : list (list A)) : Prop :=
  length x = n0 /\ Forall (fun r => length r = n1) x.

Definition shape3 {A : Type} (n0 n1 n2 : nat) (x : list (list (list A))) : Prop :=
  length x = n0 /\ Forall (shape2 n1 n2) x.

(** ** Well-formed modules and inputs

    What [__init__] establishes and the optimizer keeps: the submodules
    agree with the configuration, and the weights have their shapes. *)

(** The cells of [g] keep the state at its width, as GRU cells do. *)
Definition cell_ok {F : Type} (g : GRU.t F) : Prop :=
  forall l d x h, length h = GRU.hidden_size g ->
                  length (GRU.cell g l d x h) = GRU.hidden_size g.

Definition valid_id (vocab_size : nat) (i : Z) : Prop :=
  (0 <= i < Z.of_nat vocab_size)%Z.

Module EncoderWf.
Section Defs.
Context {F : Type} `{Float F} `{Tokens}.
Import GruEncoder.

Record wf (self : GruEncoder.t F) : Prop := {
  wf_input_size : GRU.input_size (rnn self) = embedding_dim self;
  wf_hidden_size : GRU.hidden_size (rnn self) = hidden_size self;
  wf_num_layers : GRU.num_layers (rnn self) = num_layers self;
  wf_bidirectional : GRU.bidirectional (rnn self) = bidirectional self;
  wf_layers_pos : 1 <= num_layers self;
  wf_dim_pos : 1 <= embedding_dim self;
  wf_cell : cell_ok (rnn self);
  wf_table : shape2 (vocab_size self) (embedding_dim self)
               (Embedding.data (Embedding.weight (embedding_lookup self)))
}.

Definition directions (self : GruEncoder.t F) : nat :=
  if bidirectional self then 2 else 1.

(** The value [pad_packed_sequence] fills with: the padding id as a tensor
    element. *)
Definition pad_value : F := of_int PAD_TOKEN_ID.

(** What the recurrent module is run on: the embedded rows, each cut to its
    true length. *)
Definition packed_input (self : GruEncoder.t F) (x : list (list Z)) (seq_lengths : list nat)
  : list (list (list F)) :=
  let table := Embedding.data (Embedding.weight (embedding_lookup self)) in
  map2 (fun n (row : list (list F)) => firstn n row) seq_lengths
       (map (map (fun i => nth (Z.to_nat i) table [])) x).

(** The merged hidden state as the claim words it: for every layer, the
    layer's forward final state plus the layer's backward final state. *)
Definition layerwise_sum (self : GruEncoder.t F) (m : noise F) (x : list (list Z))
  (seq_lengths : list nat) : list (list (list F)) :=
  map (fun l => add2 (GRU.final_state (rnn self) (training self) m
                        (packed_input self x seq_lengths) l GRU.Forward)
                     (GRU.final_state (rnn self) (training self) m
                        (packed_input self x seq_lengths) l GRU.Backward))
      (seq 0 (num_layers self)).

(** The direction a state of a bidirectional stack belongs to, by its
    position within the layer. *)
Definition direction_at (k : nat) : GRU.direction :=
  match k with
  | 0 => GRU.Forward
  | _ => GRU.Backward
  end.

(** Entry [k] of the stacked final states of a bidirectional encoder, read
    through the layout of [h_n]: layer [k / 2], forward for even [k]. *)
Definition stacked_final (self : GruEncoder.t F) (m : noise F) (x : list (list Z))
  (seq_lengths : list nat) (k : nat) : list (list F) :=
  GRU.final_state (rnn self) (training self) m (packed_input self x seq_lengths)
    (k / 2) (direction_at (k mod 2)).

(** A batch the encoder accepts: token ids of the vocabulary, one true
    length per row, positive, in decreasing order and within the row. *)
Record valid_batch (self : GruEncoder.t F) (x : list (list Z)) (seq_lengths : list nat)
  : Prop := {
  vb_nonempty : 1 <= length x;
  vb_ids : Forall (Forall (valid_id (vocab_size self))) x;
  vb_count : length seq_lengths = length x;
  vb_positive : Forall (fun n => 1 <= n) seq_lengths;
  vb_sorted : descending seq_lengths = true;
  vb_within : forall b, b < length x -> nth b seq_lengths 0 <= length (nth b x [])
}.
End Defs.
End EncoderWf.

Module DecoderWf.
Section Defs.
Context {F : Type} `{Float F} `{Tokens}.
Import GruDecoder.

Record wf (self : GruDecoder.t F) : Prop := {
  wf_input_size : GRU.input_size (rnn self) = embedding_dim self;
  wf_hidden_size : GRU.hidden_size (rnn self) = hidden_size self;
  wf_num_layers : GRU.num_layers (rnn self) = num_layers self;
  wf_unidirectional : GRU.bidirectional (rnn self) = false;
  wf_layers_pos : 1 <= num_layers self;
  wf_cell : cell_ok (rnn self);
  wf_table : shape2 (vocab_size self) (embedding_dim self)
               (Embedding.data (Embedding.weight (embedding_lookup self)));
  wf_in_features : Linear.in_features (linear_transform self) = hidden_size self;
  wf_weight : length (Linear.weight (linear_transform self)) = vocab_size self;
  wf_bias : length (Linear.bias (linear_transform self)) = vocab_size self;
  wf_output_func : decoder_output_func self = Some log_softmax;
  wf_sos : valid_id (vocab_size self) SOS_TOKEN_ID
}.

(** A target tensor for a batch of [batch] sequences: ids of the vocabulary
    in [batch] rows as long as the second axis says. *)
Record valid_target (self : GruDecoder.t F) (batch : nat) (tgt_seqs : LongTensor2)
  : Prop := {
  vt_rows : shape2 batch (size1 tgt_seqs) (rows tgt_seqs);
  vt_ids : Forall (Forall (valid_id (vocab_size self))) (rows tgt_seqs)
}.

(** The step as the specification words it: embed the current ids, advance
    the recurrent stack by one step, project to the vocabulary, normalise. *)
Definition step_spec (self : GruDecoder.t F) (m : noise F) (inputs : list Z)
  (prev_hidden_state : list (list (list F)))
  : list (list F) * list (list (list F)) :=
  let table := Embedding.data (Embedding.weight (embedding_lookup self)) in
  let embedded := map (fun i => nth (Z.to_nat i) table []) inputs in
  let advanced := GRU.run_batch (rnn self) (training self) m
                    (map (fun e => [e]) embedded) prev_hidden_state in
  (map (fun o => log_softmax (Linear.apply (linear_transform self) (nth 0 o [])))
       (fst advanced),
   snd advanced).

(** One step of the recurrent stack on one sequence, as the specification
    words it: starting at layer [l], every layer makes its new state from
    its input and its previous state with its cell, and hands that state on
    as the input of the layer above, through dropout unless it is the top
    layer.  [hs] holds the previous states, bottom layer first; the result
    holds the new ones. *)
Fixpoint advance (g : GRU.t F) (drop : bool) (m : noise F) (l : nat) (x : list F)
  (hs : list (list F)) : list (list F) :=
  match hs with
  | [] => []
  | h :: hs' =>
      let h' := GRU.cell g l GRU.Forward x h in
      h' :: advance g drop m (S l)
              (if drop && negb (length hs' =? 0)
               then dropout_vec (sub 0 (sub l m)) h'
               else h')
              hs'
  end.

(** The teacher-forcing input of time step [t], as the loop computes it. *)
Definition teacher_input (batch : nat) (tgt_seqs : LongTensor2) (t : nat) : list Z :=
  match t with
  | 0 => repeat SOS_TOKEN_ID batch
  | S t' => map (fun r => nth t' r 0%Z) (rows tgt_seqs)
  end.

(** Two decoders that agree on everything but [beam_size]. *)
Definition same_but_beam_size (d1 d2 : GruDecoder.t F) : Prop :=
  vocab_size d1 = vocab_size d2
  /\ embedding_dim d1 = embedding_dim d2
  /\ hidden_size d1 = hidden_size d2
  /\ max_seq_len d1 = max_seq_len d2
  /\ num_layers d1 = num_layers d2
  /\ dropout_prob d1 = dropout_prob d2
  /\ device d1 = device d2
  /\ embedding_lookup d1 = embedding_lookup d2
  /\ rnn d1 = rnn d2
  /\ linear_transform d1 = linear_transform d2
  /\ decoder_output_func d1 = decoder_output_func d2
  /\ training d1 = training d2.

(** The input of time step [t] under greedy search, read off the
    predictions made so far. *)
Definition greedy_input (batch : nat) (preds : list (list Z)) (t : nat) : list Z :=
  match t with
  | 0 => repeat SOS_TOKEN_ID batch
  | S t' => nth t' preds []
  end.
End Defs.
End DecoderWf.

(** ** A small instance

    Integers as scalars and a toy cell, to run the definitions on. *)

Module Example.

Definition sum (l : list Z) : Z := fold_right Z.add 0%Z l.

Lemma ltb_irrefl (a : Z) : (a <? a)%Z = false.
Proof. apply Z.ltb_irrefl. Qed.

Lemma ltb_trans (a b c : Z) : (a <? b)%Z = true -> (b <? c)%Z = true -> (a <? c)%Z = true.
Proof. rewrite !Z.ltb_lt. lia. Qed.

Definition FloatZ : Float Z :=
  {| fzero := 0%Z;
     fadd := Z.add;
     fmul := Z.mul;
     flt := Z.ltb;
     fle := Z.leb;
     of_int := fun z => z;
     affine := fun row b x => (sum (map2 Z.mul row x) + b)%Z;
     log_softmax_at := fun row x => (x - fold_right Z.max x row)%Z;
     topk_index := argmax Z.ltb;
     topk_index_lt := argmax_bound Z.ltb;
     topk_index_max := fun row j d => argmax_max Z.ltb d row ltb_irrefl ltb_trans j |}.

Definition tokens : Tokens := {| PAD_TOKEN_ID := 0%Z; SOS_TOKEN_ID := 1%Z |}.

(** Another choice of the reserved ids, with a padding id that is not zero. *)
Definition other_tokens : Tokens := {| PAD_TOKEN_ID := 3%Z; SOS_TOKEN_ID := 1%Z |}.

(** A cell that keeps the width of the state and tells layers and
    directions apart. *)
Definition toy_cell (l : nat) (d : GRU.direction) (x h : list Z) : list Z :=
  map (fun hj => (2 * hj + sum x + Z.of_nat (3 * l)
                  + match d with GRU.Forward => 1 | GRU.Backward => 2 end)%Z) h.

Definition table : list (list Z) := [[9; 9]; [1; 0]; [0; 1]; [1; 1]; [2; 0]; [0; 2]]%Z.

Definition no_noise : noise Z := fun _ => 1%Z.

Definition encoder_params (bidirectional : bool) (num_layers : nat) : GruEncoder.params Z :=
  {| GruEncoder.p_vocab_size := 6;
     GruEncoder.p_embedding_dim := 2;
     GruEncoder.p_hidden_size := 2;
     GruEncoder.p_bidirectional := Some bidirectional;
     GruEncoder.p_num_layers := Some num_layers;
     GruEncoder.p_dropout_prob := None;
     GruEncoder.p_device := None |}.

(** Two bidirectional layers with dropout switched on. *)
Definition dropout_encoder_params : GruEncoder.params Z :=
  {| GruEncoder.p_vocab_size := 6;
     GruEncoder.p_embedding_dim := 2;
     GruEncoder.p_hidden_size := 2;
     GruEncoder.p_bidirectional := Some true;
     GruEncoder.p_num_layers := Some 2;
     GruEncoder.p_dropout_prob := Some 1%Z;
     GruEncoder.p_device := None |}.

(** The modules the constructors build from these configurations and
    weights (lemmas [encoder_built], [dropout_encoder_built] and
    [decoder_built]): the row of the padding id, row 0, is zero. *)
Definition embedding : Embedding.t Z :=
  {| Embedding.weight :=
       {| Embedding.data := [[0; 0]; [1; 0]; [0; 1]; [1; 1]; [2; 0]; [0; 2]]%Z;
          Embedding.requires_grad := true |};
     Embedding.padding_idx := 0 |}.

Definition gru (num_layers : nat) (bidirectional : bool) (dropout : Z) : GRU.t Z :=
  {| GRU.input_size := 2;
     GRU.hidden_size := 2;
     GRU.num_layers := num_layers;
     GRU.bidirectional := bidirectional;
     GRU.dropout := dropout;
     GRU.cell := toy_cell |}.

Definition encoder_with (dropout : Z) (bidirectional : bool) (num_layers : nat)
  : GruEncoder.t Z :=
  {| GruEncoder.vocab_size := 6;
     GruEncoder.embedding_dim := 2;
     GruEncoder.hidden_size := 2;
     GruEncoder.bidirectional := bidirectional;
     GruEncoder.num_layers := num_layers;
     GruEncoder.dropout_prob := dropout;
     GruEncoder.device := Device.cpu;
     GruEncoder.embedding_lookup := embedding;
     GruEncoder.rnn := gru num_layers bidirectional dropout;
     GruEncoder.training := true |}.

Definition dropout_encoder : GruEncoder.t Z := encoder_with 1 true 2.

Definition encoder (bidirectional : bool) (num_layers : nat) : GruEncoder.t Z :=
  encoder_with 0 bidirectional num_layers.

Definition decoder_params (beam_size : option nat) : GruDecoder.params Z :=
  {| GruDecoder.p_vocab_size := 6;
     GruDecoder.p_embedding_dim := 2;
     GruDecoder.p_hidden_size := 2;
     GruDecoder.p_max_seq_len := 3;
     GruDecoder.p_num_layers := None;
     GruDecoder.p_dropout_prob := None;
     GruDecoder.p_device := None;
     GruDecoder.p_beam_size := beam_size |}.

Definition lin_weight : list (list Z) := [[1; 0]; [0; 1]; [1; 1]; [2; 1]; [1; 2]; [0; 0]]%Z.
Definition lin_bias : list Z := [0; 1; 0; 2; 0; 1]%Z.

(** A decoder fresh from [__init__] is in training mode. *)
Definition decoder : GruDecoder.t Z :=
  {| GruDecoder.vocab_size := 6;
     GruDecoder.embedding_dim := 2;
     GruDecoder.hidden_size := 2;
     GruDecoder.max_seq_len := 3;
     GruDecoder.num_layers := 1;
     GruDecoder.dropout_prob := 0%Z;
     GruDecoder.device := Device.cpu;
     GruDecoder.beam_size := 1;
     GruDecoder.embedding_lookup := embedding;
     GruDecoder.rnn := gru 1 false 0;
     GruDecoder.linear_transform := {| Linear.in_features := 2;
                                       Linear.out_features := 6;
                                       Linear.weight := lin_weight;
                                       Linear.bias := lin_bias |};
     GruDecoder.decoder_output_func := Some (@log_softmax Z FloatZ);
     GruDecoder.training := true |}.

Definition encoder_output : list (list (list Z)) := [[[0; 0]]; [[0; 0]]]%Z.
Definition encoder_hidden_state : list (list (list Z)) := [[[1; 2]; [3; 4]]]%Z.

(** A batch of two rows with true lengths 3 and 2. *)
Definition x : list (list Z) := [[2; 3; 4]; [5; 1; 0]]%Z.
Definition seq_lengths : list nat := [3; 2].

(** The same two sequences in a tensor padded to width 5. *)
Definition x_wide : list (list Z) := [[2; 3; 4; 0; 0]; [5; 1; 0; 0; 0]]%Z.

(** The same batch with another id in the padded position, a batch with an
    id outside the vocabulary there, lengths out of order, and a table whose
    rows are too narrow. *)
Definition x_other : list (list Z) := [[2; 3; 4]; [5; 1; 3]]%Z.
Definition x_outside : list (list Z) := [[2; 3; 4]; [5; 1; 7]]%Z.
Definition unsorted_lengths : list nat := [2; 3].
Definition narrow_table : list (list Z) := [[1]; [1]; [1]; [1]; [1]; [1]]%Z.

(** Targets: one that differs from [tgt 3] in the last column only, and one
    with an id outside the vocabulary in its second column. *)
Definition tgt_other : LongTensor2 :=
  {| size1 := 4; rows := [[5; 2; 1; 1]; [2; 4; 1; 1]]%Z |}.
Definition tgt_outside : LongTensor2 :=
  {| size1 := 3; rows := [[5; 9; 3]; [2; 4; 0]]%Z |}.

(** A hidden state for a batch of one. *)
Definition short_hidden_state : list (list (list Z)) := [[[1; 2]]]%Z.

Definition tgt (width : nat) : LongTensor2 :=
  {| size1 := width; rows := [firstn width [5; 2; 3; 4]; firstn width [2; 4; 0; 0]]%Z |}.
End Example.

(** * Facts about the helpers *)

Ltac splits := repeat match goal with |- _ /\ _ => split end.

Section ListFacts.
Context {A : Type}.

Lemma bind_ok {X Y : Type} (m : result X) (k : X -> result Y) (y : Y) :
  bind m k = Ok y -> exists x, m = Ok x /\ k x = Ok y.
Proof.
  destruct m as [x|e]; simpl; intros E; [exists x; auto | discriminate].
Qed.

Lemma guard_ok (b : bool) (e : exn) : b = true -> guard b e = Ok tt.
Proof. intros ->; reflexivity. Qed.

Lemma map2_length {B C : Type} (f : A -> B -> C) (l : list A) (l' : list B) :
  length (map2 f l l') = Nat.min (length l) (length l').
Proof.
  revert l'; induction l as [|a l IH]; intros [|b l']; simpl; auto.
Qed.

Lemma map2_nth {B C : Type} (f : A -> B -> C) (l : list A) (l' : list B)
  (i : nat) (da : A) (db : B) (dc : C) :
  i < length l -> i < length l' ->
  nth i (map2 f l l') dc = f (nth i l da) (nth i l' db).
Proof.
  revert l' i; induction l as [|a l IH]; intros [|b l'] [|i]; simpl; intros; try lia; auto.
  apply IH; lia.
Qed.

Lemma map2_Forall {B C : Type} (f : A -> B -> C) (P : C -> Prop) (l : list A) (l' : list B) :
  (forall a b, In a l -> In b l' -> P (f a b)) -> Forall P (map2 f l l').
Proof.
  revert l'; induction l as [|a l IH]; intros [|b l'] Hf; simpl; constructor.
  - apply Hf; simpl; auto.
  - apply IH; intros; apply Hf; simpl; auto.
Qed.

Lemma Forall_firstn (P : A -> Prop) (n : nat) (l : list A) :
  Forall P l -> Forall P (firstn n l).
Proof.
  intros Hl; revert n; induction Hl; intros [|n]; simpl; auto.
Qed.

Lemma Forall_skipn (P : A -> Prop) (n : nat) (l : list A) :
  Forall P l -> Forall P (skipn n l).
Proof.
  intros Hl; revert n; induction Hl; intros [|n]; simpl; auto.
Qed.

Lemma imap_from_length {B : Type} (f : nat -> A -> B) (l : list A) (i : nat) :
  length (imap_from i f l) = length l.
Proof. revert i; induction l; simpl; auto. Qed.

Lemma imap_length {B : Type} (f : nat -> A -> B) (l : list A) :
  length (imap f l) = length l.
Proof. apply imap_from_length. Qed.

Lemma imap_from_nth {B : Type} (f : nat -> A -> B) (l : list A) (i k : nat) (da : A) (db : B) :
  k < length l -> nth k (imap_from i f l) db = f (i + k) (nth k l da).
Proof.
  revert i k; induction l as [|a l IH]; intros i [|k]; simpl; intros; try lia.
  - now rewrite Nat.add_0_r.
  - rewrite (IH (S i) k) by lia. f_equal; lia.
Qed.

Lemma imap_nth {B : Type} (f : nat -> A -> B) (l : list A) (k : nat) (da : A) (db : B) :
  k < length l -> nth k (imap f l) db = f k (nth k l da).
Proof. intros; unfold imap; now rewrite (imap_from_nth f l 0 k da db). Qed.

Lemma imap_from_Forall {B : Type} (f : nat -> A -> B) (P : B -> Prop) (l : list A) (i : nat) :
  (forall k a, In a l -> P (f k a)) -> Forall P (imap_from i f l).
Proof.
  revert i; induction l as [|a l IH]; intros i Hf; simpl; constructor.
  - apply Hf; simpl; auto.
  - apply IH; intros; apply Hf; simpl; auto.
Qed.

Lemma imap_Forall {B : Type} (f : nat -> A -> B) (P : B -> Prop) (l : list A) :
  (forall k a, In a l -> P (f k a)) -> Forall P (imap f l).
Proof. apply imap_from_Forall. Qed.

Lemma setitem_length (i : nat) (v : A) (x : list A) : length (setitem i v x) = length x.
Proof. revert i; induction x as [|a x IH]; intros [|i]; simpl; auto. Qed.

Lemma setitem_nth_same (i : nat) (v d : A) (x : list A) :
  i < length x -> nth i (setitem i v x) d = v.
Proof.
  revert i; induction x as [|a x IH]; intros [|i]; simpl; intros; try lia; auto.
  apply IH; lia.
Qed.

Lemma setitem_nth_other (i j : nat) (v d : A) (x : list A) :
  i <> j -> nth j (setitem i v x) d = nth j x d.
Proof.
  revert i j; induction x as [|a x IH]; intros [|i] [|j]; simpl; intros; try lia; auto.
Qed.

Lemma column_rect (j n : nat) (x : list (list A)) (d : A) :
  Forall (fun r => length r = n) x -> j < n ->
  column j x = map (fun r => nth j r d) x.
Proof.
  intros Hx Hj; induction Hx as [|r x Hr _ IH]; simpl; auto.
  unfold column in *; simpl. rewrite IH.
  destruct (nth_error r j) as [a|] eqn:E.
  - simpl. f_equal. symmetry. now apply nth_error_nth.
  - apply nth_error_None in E; lia.
Qed.

Lemma transpose01_length (n1 : nat) (x : list (list A)) :
  length (transpose01 n1 x) = n1.
Proof. unfold transpose01; now rewrite length_map, length_seq. Qed.

Lemma transpose01_nth (n1 j : nat) (x : list (list A)) :
  j < n1 -> nth j (transpose01 n1 x) [] = column j x.
Proof.
  intros Hj; unfold transpose01.
  rewrite (nth_indep _ [] (column 0 x)) by now rewrite length_map, length_seq.
  rewrite (map_nth (fun j => column j x) (seq 0 n1) 0 j).
  now rewrite seq_nth.
Qed.

Lemma mapM_ok {B : Type} (f : A -> result B) (g : A -> B) (l : list A) :
  Forall (fun a => f a = Ok (g a)) l -> mapM f l = Ok (map g l).
Proof.
  induction 1 as [|a l Ha _ IH]; simpl; auto.
  now rewrite Ha, IH.
Qed.

Lemma mapM_inv {B : Type} (f : A -> result B) (l : list A) (r : list B) :
  mapM f l = Ok r ->
  length r = length l /\
  forall i a, nth_error l i = Some a -> exists b, nth_error r i = Some b /\ f a = Ok b.
Proof.
  revert r; induction l as [|a l IH]; simpl; intros r E.
  - injection E as <-; split; auto. intros [|i] ?; discriminate.
  - apply bind_ok in E as (b & Eb & E). apply bind_ok in E as (bs & Ebs & E).
    injection E as <-. destruct (IH _ Ebs) as [Hl Hn]. split; [simpl; lia|].
    intros [|i] a' Hi; simpl in *.
    + injection Hi as <-. eauto.
    + eauto.
Qed.
End ListFacts.

Section ImapFacts.
Context {A B : Type}.

Lemma imap_from_Forall_nth (f : nat -> A -> B) (P : B -> Prop) (l : list A) (i : nat) :
  (forall k a, nth_error l k = Some a -> P (f (i + k) a)) -> Forall P (imap_from i f l).
Proof.
  revert i; induction l as [|a l IH]; intros i Hf; simpl; constructor.
  - specialize (Hf 0 a eq_refl). now rewrite Nat.add_0_r in Hf.
  - apply IH; intros k a' Hk. specialize (Hf (S k) a' Hk).
    now replace (S i + k) with (i + S k) by lia.
Qed.

Lemma imap_Forall_nth (f : nat -> A -> B) (P : B -> Prop) (l : list A) :
  (forall k a, nth_error l k = Some a -> P (f k a)) -> Forall P (imap f l).
Proof. intros Hf; apply imap_from_Forall_nth; exact Hf. Qed.
End ImapFacts.

(** * Facts about the recurrent module *)

Section GRUFacts.
Context {F : Type} `{Float F}.

Lemma dropout_vec_length (m : noise F) (x : list F) :
  length (dropout_vec m x) = length x.
Proof. apply imap_length. Qed.

Lemma dropout_seq_length (m : noise F) (xs : list (list F)) :
  length (dropout_seq m xs) = length xs.
Proof. apply imap_length. Qed.

Lemma dropout_seq_width (m : noise F) (xs : list (list F)) (n : nat) :
  Forall (fun v => length v = n) xs -> Forall (fun v => length v = n) (dropout_seq m xs).
Proof.
  intros Hxs. apply imap_Forall. intros k a Ha.
  rewrite dropout_vec_length. rewrite Forall_forall in Hxs. auto.
Qed.

Lemma scan_length (f : list F -> list F -> list F) (h : list F) (xs : list (list F)) :
  length (GRU.scan f h xs) = length xs.
Proof. revert h; induction xs; simpl; auto. Qed.

Lemma scan_width (f : list F -> list F -> list F) (n : nat) (h : list F) (xs : list (list F)) :
  (forall x h, length h = n -> length (f x h) = n) -> length h = n ->
  Forall (fun v => length v = n) (GRU.scan f h xs).
Proof.
  intros Hf; revert h; induction xs as [|x xs IH]; simpl; intros h Hh; constructor; auto.
Qed.

Lemma last_width (n : nat) (l : list (list F)) (d : list F) :
  Forall (fun v => length v = n) l -> length d = n -> length (last l d) = n.
Proof.
  induction 1 as [|a l Ha Hl IH]; simpl; auto.
  intros Hd. destruct l; auto.
Qed.

Lemma run_length (g : GRU.t F) (l : nat) (d : GRU.direction) (h0 : list F) (xs : list (list F)) :
  length (GRU.run g l d h0 xs) = length xs.
Proof.
  destruct d; simpl; [apply scan_length|].
  now rewrite length_rev, scan_length, length_rev.
Qed.

Lemma run_width (g : GRU.t F) (l : nat) (d : GRU.direction) (h0 : list F) (xs : list (list F)) :
  cell_ok g -> length h0 = GRU.hidden_size g ->
  Forall (fun v => length v = GRU.hidden_size g) (GRU.run g l d h0 xs).
Proof.
  intros Hc Hh; destruct d; simpl.
  - apply scan_width; auto.
  - apply Forall_rev. apply scan_width; auto.
Qed.

Lemma final_width (g : GRU.t F) (l : nat) (d : GRU.direction) (h0 : list F) (xs : list (list F)) :
  cell_ok g -> length h0 = GRU.hidden_size g ->
  length (GRU.final g l d h0 xs) = GRU.hidden_size g.
Proof.
  intros Hc Hh; destruct d; simpl; apply last_width; auto; apply scan_width; auto.
Qed.

Lemma num_directions_pos (g : GRU.t F) : 1 <= GRU.num_directions g.
Proof. unfold GRU.num_directions; destruct (GRU.bidirectional g); lia. Qed.

Lemma nth_width (n k : nat) (l : list (list F)) :
  Forall (fun v => length v = n) l -> k < length l -> length (nth k l []) = n.
Proof.
  intros Hl Hk. rewrite Forall_forall in Hl. apply Hl. now apply nth_In.
Qed.

Lemma layer_spec (g : GRU.t F) (l : nat) (h0 : list (list F)) (xs : list (list F)) :
  cell_ok g -> length h0 = GRU.num_directions g ->
  Forall (fun v => length v = GRU.hidden_size g) h0 ->
  length (fst (GRU.layer g l h0 xs)) = length xs
  /\ Forall (fun v => length v = GRU.num_directions g * GRU.hidden_size g)
            (fst (GRU.layer g l h0 xs))
  /\ length (snd (GRU.layer g l h0 xs)) = GRU.num_directions g
  /\ Forall (fun v => length v = GRU.hidden_size g) (snd (GRU.layer g l h0 xs)).
Proof.
  intros Hc Hl Hw. unfold GRU.layer, GRU.num_directions in *.
  destruct (GRU.bidirectional g); cbn [fst snd].
  - assert (H0 : length (nth 0 h0 []) = GRU.hidden_size g) by (apply nth_width; auto; lia).
    assert (H1 : length (nth 1 h0 []) = GRU.hidden_size g) by (apply nth_width; auto; lia).
    repeat split.
    + now rewrite map2_length, !run_length, Nat.min_id.
    + apply map2_Forall. intros a b Ha Hb. rewrite length_app.
      pose proof (run_width g l GRU.Forward _ xs Hc H0) as Hf.
      pose proof (run_width g l GRU.Backward _ xs Hc H1) as Hb'.
      rewrite Forall_forall in Hf, Hb'. rewrite (Hf a Ha), (Hb' b Hb). lia.
    + repeat constructor; apply final_width; auto.
  - assert (H0 : length (nth 0 h0 []) = GRU.hidden_size g) by (apply nth_width; auto; lia).
    repeat split.
    + apply run_length.
    + rewrite Nat.mul_1_l. apply run_width; auto.
    + repeat constructor; apply final_width; auto.
Qed.

Lemma layers_spec (g : GRU.t F) (drop : bool) (n : nat) :
  cell_ok g ->
  forall (m : noise F) (l : nat) (h0 : list (list F)) (xs : list (list F)),
  length h0 = GRU.num_directions g * n ->
  Forall (fun v => length v = GRU.hidden_size g) h0 ->
  length (fst (GRU.layers g drop m n l h0 xs)) = length xs
  /\ (1 <= n -> Forall (fun v => length v = GRU.num_directions g * GRU.hidden_size g)
                       (fst (GRU.layers g drop m n l h0 xs)))
  /\ length (snd (GRU.layers g drop m n l h0 xs)) = GRU.num_directions g * n
  /\ Forall (fun v => length v = GRU.hidden_size g) (snd (GRU.layers g drop m n l h0 xs)).
Proof.
  intros Hc. induction n as [|n IH]; intros m l h0 xs Hl Hw.
  - simpl. repeat split; auto; try lia.
  - pose proof (num_directions_pos g) as HD.
    cbn [GRU.layers].
    destruct (layer_spec g l (firstn (GRU.num_directions g) h0) xs Hc) as (L1 & L2 & L3 & L4).
    { rewrite length_firstn. nia. }
    { now apply Forall_firstn. }
    destruct (GRU.layer g l (firstn (GRU.num_directions g) h0) xs) as [out fin] eqn:EL.
    simpl in L1, L2, L3, L4.
    set (out' := if drop && negb (n =? 0) then dropout_seq (sub l m) out else out).
    assert (O1 : length out' = length xs).
    { subst out'. destruct (drop && negb (n =? 0)); [rewrite dropout_seq_length|]; auto. }
    assert (O2 : Forall (fun v => length v = GRU.num_directions g * GRU.hidden_size g) out').
    { subst out'. destruct (drop && negb (n =? 0)); [apply dropout_seq_width|]; auto. }
    destruct (IH m (S l) (skipn (GRU.num_directions g) h0) out') as (I1 & I2 & I3 & I4).
    { rewrite length_skipn. nia. }
    { now apply Forall_skipn. }
    destruct (GRU.layers g drop m n (S l) (skipn (GRU.num_directions g) h0) out')
      as [o fs] eqn:ER.
    simpl in *. repeat split.
    + lia.
    + intros _. destruct n as [|n'].
      * simpl in ER. injection ER as <- <-. exact O2.
      * apply I2; lia.
    + rewrite length_app. nia.
    + apply Forall_app; auto.
Qed.
End GRUFacts.

Section GRUBatchFacts.
Context {F : Type} `{Float F}.

Lemma forallb_Forall {A : Type} (p : A -> bool) (l : list A) :
  forallb p l = true <-> Forall (fun a => p a = true) l.
Proof. rewrite forallb_forall, Forall_forall; tauto. Qed.

Lemma has_width_iff (n : nat) (v : list F) : has_width n v = true <-> length v = n.
Proof. unfold has_width; apply Nat.eqb_eq. Qed.

Lemma check_hidden_iff (g : GRU.t F) (B : nat) (h : list (list (list F))) :
  GRU.check_hidden g B h = true
  <-> shape3 (GRU.num_directions g * GRU.num_layers g) B (GRU.hidden_size g) h.
Proof.
  unfold GRU.check_hidden, shape3, shape2.
  rewrite andb_true_iff, Nat.eqb_eq, forallb_Forall.
  split; intros [Hl Hf]; split; auto; eapply Forall_impl; try exact Hf; cbv beta; intros hl.
  - rewrite andb_true_iff, Nat.eqb_eq, forallb_Forall. intros [? Hw]; split; auto.
    eapply Forall_impl; [|exact Hw]. intros v; apply has_width_iff.
  - rewrite andb_true_iff, Nat.eqb_eq, forallb_Forall. intros [? Hw]; split; auto.
    eapply Forall_impl; [|exact Hw]. intros v; apply has_width_iff.
Qed.

Lemma zeros3_shape (n m k : nat) : shape3 n m k (@zeros3 F _ n m k).
Proof.
  unfold shape3, shape2, zeros3, zeros2, zeros1. split; [apply repeat_length|].
  apply Forall_forall; intros r Hr. apply repeat_spec in Hr; subst r.
  split; [apply repeat_length|].
  apply Forall_forall; intros v Hv. apply repeat_spec in Hv; subst v. apply repeat_length.
Qed.

Lemma run_batch_spec (g : GRU.t F) (training : bool) (m : noise F)
  (input : list (list (list F))) (h0 : list (list (list F))) :
  cell_ok g ->
  shape3 (GRU.num_directions g * GRU.num_layers g) (length input) (GRU.hidden_size g) h0 ->
  length (fst (GRU.run_batch g training m input h0)) = length input
  /\ (forall b, b < length input ->
        length (nth b (fst (GRU.run_batch g training m input h0)) []) = length (nth b input []))
  /\ (1 <= GRU.num_layers g ->
      Forall (Forall (fun v => length v = GRU.num_directions g * GRU.hidden_size g))
             (fst (GRU.run_batch g training m input h0)))
  /\ shape3 (GRU.num_directions g * GRU.num_layers g) (length input) (GRU.hidden_size g)
            (snd (GRU.run_batch g training m input h0)).
Proof.
  intros Hc [Hl Hs]. unfold GRU.run_batch. cbn [fst snd].
  set (f := fun (b : nat) (xs : list (list F)) =>
              GRU.layers g (GRU.dropout_active g training) (sub b m) (GRU.num_layers g) 0
                (map (fun hl => nth b hl []) h0) xs).
  assert (Hb : forall b xs, b < length input ->
             length (fst (f b xs)) = length xs
             /\ (1 <= GRU.num_layers g ->
                 Forall (fun v => length v = GRU.num_directions g * GRU.hidden_size g)
                        (fst (f b xs)))
             /\ length (snd (f b xs)) = GRU.num_directions g * GRU.num_layers g
             /\ Forall (fun v => length v = GRU.hidden_size g) (snd (f b xs))).
  { intros b xs Hlt. subst f. cbv beta. apply layers_spec; auto.
    - now rewrite length_map.
    - apply Forall_map. eapply Forall_impl; [|exact Hs]. cbv beta.
      intros hl [Hhl Hw]. apply nth_width; auto. lia. }
  assert (Hp : Forall (fun r : list (list F) * list (list F) =>
                 (1 <= GRU.num_layers g ->
                  Forall (fun v => length v = GRU.num_directions g * GRU.hidden_size g) (fst r))
                 /\ length (snd r) = GRU.num_directions g * GRU.num_layers g
                 /\ Forall (fun v => length v = GRU.hidden_size g) (snd r))
               (imap f input)).
  { apply imap_Forall_nth. intros k a Hk.
    assert (k < length input) by (apply nth_error_Some; congruence).
    destruct (Hb k a) as (_ & ? & ? & ?); auto. }
  repeat split.
  - now rewrite length_map, imap_length.
  - intros b Hlt.
    change (@nil (list F)) with (fst (@nil (list F), @nil (list F))) at 1.
    rewrite map_nth. rewrite (imap_nth f input b [] ([], [])) by exact Hlt.
    now destruct (Hb b (nth b input []) Hlt).
  - intros HL. apply Forall_map. eapply Forall_impl; [|exact Hp]. cbv beta. tauto.
  - now rewrite length_map, length_seq.
  - apply Forall_forall. intros r Hr. apply in_map_iff in Hr as (k & <- & Hk).
    apply in_seq in Hk. split.
    + now rewrite length_map, imap_length.
    + apply Forall_map. eapply Forall_impl; [|exact Hp]. cbv beta.
      intros r (_ & Hn & Hw). apply nth_width; auto. lia.
Qed.

Lemma GRU_forward_some (g : GRU.t F) (training : bool) (m : noise F)
  (input : list (list (list F))) (h : list (list (list F))) :
  GRU.check_input g input = true ->
  GRU.check_hidden g (length input) h = true ->
  GRU.forward g training m input (Some h) = Ok (GRU.run_batch g training m input h).
Proof. intros Hi Hh; unfold GRU.forward. now rewrite Hi, Hh. Qed.

Lemma GRU_forward_none (g : GRU.t F) (training : bool) (m : noise F)
  (input : list (list (list F))) :
  GRU.check_input g input = true ->
  GRU.forward g training m input None
  = Ok (GRU.run_batch g training m input
          (zeros3 (GRU.num_directions g * GRU.num_layers g) (length input)
                  (GRU.hidden_size g))).
Proof. intros Hi; unfold GRU.forward. now rewrite Hi. Qed.
End GRUBatchFacts.

(** * Facts about the embedding and the linear layer *)

Section LayerFacts.
Context {F : Type} `{Float F}.

Lemma lookup_ok (e : Embedding.t F) (i : Z) :
  valid_id (length (Embedding.data (Embedding.weight e))) i ->
  Embedding.lookup e i = Ok (nth (Z.to_nat i) (Embedding.data (Embedding.weight e)) []).
Proof.
  intros [H0 H1]. unfold Embedding.lookup.
  apply Z.leb_le in H0. apply Z.ltb_lt in H1. now rewrite H0, H1.
Qed.

Lemma lookup_invalid (e : Embedding.t F) (i : Z) :
  ~ valid_id (length (Embedding.data (Embedding.weight e))) i ->
  Embedding.lookup e i = Raise IndexError.
Proof.
  intros Hn. unfold Embedding.lookup, valid_id in *.
  destruct (0 <=? i)%Z eqn:E0; destruct (i <? _)%Z eqn:E1; simpl; auto.
  apply Z.leb_le in E0. apply Z.ltb_lt in E1. lia.
Qed.

Lemma Embedding_forward_ok (e : Embedding.t F) (x : list (list Z)) :
  Forall (Forall (valid_id (length (Embedding.data (Embedding.weight e))))) x ->
  Embedding.forward e x
  = Ok (map (map (fun i => nth (Z.to_nat i) (Embedding.data (Embedding.weight e)) [])) x).
Proof.
  intros Hx. unfold Embedding.forward. apply mapM_ok.
  eapply Forall_impl; [|exact Hx]. cbv beta. intros row Hrow. apply mapM_ok.
  eapply Forall_impl; [|exact Hrow]. intros i; apply lookup_ok.
Qed.

Lemma table_row_width (n dim : nat) (table : list (list F)) (i : Z) :
  shape2 n dim table -> valid_id n i -> length (nth (Z.to_nat i) table []) = dim.
Proof.
  intros [Hn Hw] [H0 H1]. apply nth_width; auto. lia.
Qed.

Lemma Linear_apply_length (l : Linear.t F) (x : list F) :
  length (Linear.apply l x) = Nat.min (length (Linear.weight l)) (length (Linear.bias l)).
Proof. apply map2_length. Qed.

Lemma Linear_forward_ok (l : Linear.t F) (x : list (list F)) :
  Forall (fun v => length v = Linear.in_features l) x ->
  Linear.forward l x = Ok (map (Linear.apply l) x).
Proof.
  intros Hx. unfold Linear.forward. rewrite guard_ok; auto.
  apply forallb_Forall. eapply Forall_impl; [|exact Hx]. intros v; apply has_width_iff.
Qed.

Lemma log_softmax_length (row : list F) : length (log_softmax row) = length row.
Proof. apply length_map. Qed.

Lemma topk1_ok (row : list F) :
  1 <= length row -> topk1 row = Ok (Z.of_nat (topk_index row)).
Proof. destruct row; simpl; [lia|reflexivity]. Qed.
End LayerFacts.

(** * Facts about the decoder *)

Section DecoderFacts.
Context {F : Type} `{Float F} `{Tokens}.
Import GruDecoder DecoderWf.

Lemma Forall_length_nth {A : Type} (n : nat) (l : list (list A)) :
  (forall b, b < length l -> length (nth b l []) = n) -> Forall (fun r => length r = n) l.
Proof.
  intros Hn. apply Forall_forall. intros r Hr.
  destruct (In_nth l r [] Hr) as (b & Hb & <-). auto.
Qed.

(** On well-formed data [step] returns, and returns what [step_spec]
    describes: a row of [vocab_size] log-probabilities per sequence and a
    hidden state of the shape it was given. *)
Lemma step_ok (self : GruDecoder.t F) (m : noise F) (t : nat) (inputs : list Z)
  (h : list (list (list F))) :
  wf self ->
  Forall (valid_id (vocab_size self)) inputs ->
  shape3 (num_layers self) (length inputs) (hidden_size self) h ->
  step self m t inputs h = Ok (step_spec self m inputs h)
  /\ shape2 (length inputs) (vocab_size self) (fst (step_spec self m inputs h))
  /\ shape3 (num_layers self) (length inputs) (hidden_size self)
            (snd (step_spec self m inputs h)).
Proof.
  intros W Hin Hh.
  pose proof (wf_table self W) as [Htl Htw].
  set (table := Embedding.data (Embedding.weight (embedding_lookup self))) in *.
  set (look := fun i : Z => nth (Z.to_nat i) table []).
  set (input := map (fun e => [e]) (map look inputs)).
  assert (Hlen : length input = length inputs) by (subst input; now rewrite !length_map).
  assert (HD : GRU.num_directions (rnn self) = 1)
    by (unfold GRU.num_directions; now rewrite (wf_unidirectional self W)).
  assert (Hh' : shape3 (GRU.num_directions (rnn self) * GRU.num_layers (rnn self))
                       (length input) (GRU.hidden_size (rnn self)) h).
  { rewrite HD, (wf_num_layers self W), (wf_hidden_size self W), Hlen, Nat.mul_1_l.
    exact Hh. }
  destruct (run_batch_spec (rnn self) (training self) m input h (wf_cell self W) Hh')
    as (R1 & R2 & R3 & R4).
  assert (Hemb : Embedding.forward (embedding_lookup self) (unsqueeze_last inputs)
                 = Ok input).
  { rewrite Embedding_forward_ok.
    - subst input. unfold unsqueeze_last. now rewrite !map_map.
    - unfold unsqueeze_last. apply Forall_map. eapply Forall_impl; [|exact Hin].
      cbv beta. intros i Hi. constructor; auto. fold table. now rewrite Htl. }
  assert (Hci : GRU.check_input (rnn self) input = true).
  { unfold GRU.check_input. apply forallb_Forall. subst input.
    apply Forall_map, Forall_map. eapply Forall_impl; [|exact Hin]. cbv beta.
    intros i Hi. simpl. rewrite andb_true_r. apply has_width_iff.
    rewrite (wf_input_size self W). subst look. cbv beta.
    eapply table_row_width; eauto. split; auto. }
  set (R := GRU.run_batch (rnn self) (training self) m input h) in *.
  assert (Hone : Forall (fun r => length r = 1) (fst R)).
  { apply Forall_length_nth. intros b Hb. rewrite R2 by lia.
    subst input. rewrite R1, Hlen in Hb.
    rewrite (nth_indep _ [] [look 0%Z]) by now rewrite !length_map.
    now rewrite (map_nth (fun e => [e])). }
  assert (Hcol : hd [] (transpose01 1 (fst R)) = map (fun o => nth 0 o []) (fst R)).
  { unfold transpose01. simpl. apply (column_rect 0 1); auto. }
  assert (Hw : Forall (fun v => length v = Linear.in_features (linear_transform self))
                      (map (fun o => nth 0 o []) (fst R))).
  { apply Forall_map.
    specialize (R3 ltac:(rewrite (wf_num_layers self W); apply (wf_layers_pos self W))).
    rewrite Forall_forall in R3, Hone. apply Forall_forall. intros o Ho.
    specialize (R3 o Ho). specialize (Hone o Ho).
    rewrite (wf_in_features self W), <- (wf_hidden_size self W).
    rewrite HD, Nat.mul_1_l in R3. apply nth_width; auto. lia. }
  split; [|split].
  - unfold step. rewrite Hemb. cbn [bind].
    rewrite (GRU_forward_some _ _ _ _ _ Hci) by now apply check_hidden_iff.
    cbn [bind]. fold R. rewrite (surjective_pairing R) at 1.
    rewrite Hcol, (Linear_forward_ok _ _ Hw). cbn [bind].
    rewrite (wf_output_func self W). unfold step_spec.
    fold table. fold look. fold input. fold R.
    now rewrite !map_map.
  - unfold step_spec. fold table. fold look. fold input. fold R. cbn [fst].
    split; [rewrite length_map; lia|].
    apply Forall_map, Forall_forall. intros o _.
    rewrite log_softmax_length, Linear_apply_length.
    rewrite (wf_weight self W), (wf_bias self W). apply Nat.min_id.
  - unfold step_spec. fold table. fold look. fold input. fold R. cbn [snd].
    rewrite HD, (wf_num_layers self W), (wf_hidden_size self W), Hlen, Nat.mul_1_l in R4.
    exact R4.
Qed.
End DecoderFacts.

Section LoopFacts.
Context {F : Type} `{Float F} `{Tokens}.
Import GruDecoder DecoderWf.

Variables (self : GruDecoder.t F) (m : noise F) (tgt_seqs : LongTensor2).

Lemma setitem_Forall {A : Type} (P : A -> Prop) (i : nat) (v : A) (x : list A) :
  Forall P x -> P v -> Forall P (setitem i v x).
Proof.
  intros Hx Hv; revert i; induction Hx; intros [|i]; simpl; auto.
Qed.

(** What one successful iteration did. *)
Lemma body_inv (t : nat) (s s' : state F) :
  body self m tgt_seqs t s = Ok s' ->
  exists out h',
    step self (sub t m) t (decoder_input s) (prev_hidden_state s) = Ok (out, h')
    /\ logits s' = setitem t out (logits s)
    /\ prev_hidden_state s' = h'
    /\ (if training self
        then select_column tgt_seqs t = Ok (decoder_input s')
             /\ predictions s' = predictions s
        else mapM topk1 out = Ok (decoder_input s')
             /\ predictions s' = predictions s ++ [decoder_input s']).
Proof.
  unfold body. intros E.
  apply bind_ok in E as ([out h'] & Es & E). exists out, h'. split; auto.
  apply bind_ok in E as ([inp preds] & Em & E). injection E as <-. cbn.
  repeat split; auto.
  destruct (training self).
  - apply bind_ok in Em as (c & Ec & Em). injection Em as <- <-. auto.
  - apply bind_ok in Em as (c & Ec & Em). injection Em as <- <-. auto.
Qed.

Lemma loop_S (n : nat) (s0 : state F) :
  loop self m tgt_seqs (S n) s0
  = bind (loop self m tgt_seqs n s0) (body self m tgt_seqs n).
Proof. reflexivity. Qed.

(** A loop that completes [n] iterations has completed every shorter run. *)
Lemma loop_prefix (n : nat) (s0 s : state F) :
  loop self m tgt_seqs n s0 = Ok s ->
  forall k, k <= n -> exists sk, loop self m tgt_seqs k s0 = Ok sk.
Proof.
  revert s; induction n as [|n IH]; intros s E k Hk.
  - replace k with 0 by lia. eauto.
  - destruct (Nat.eq_dec k (S n)) as [->|Hne]; [eauto|].
    rewrite loop_S in E. apply bind_ok in E as (s' & E' & _).
    apply (IH s' E' k); lia.
Qed.

(** Later iterations neither touch the logits of earlier steps nor drop a
    prediction. *)
Lemma loop_extend (k n : nat) (s0 sk sn : state F) :
  loop self m tgt_seqs k s0 = Ok sk -> k <= n ->
  loop self m tgt_seqs n s0 = Ok sn ->
  length (logits sn) = length (logits sk)
  /\ (forall j, j < k -> nth j (logits sn) [] = nth j (logits sk) [])
  /\ exists more, predictions sn = predictions sk ++ more.
Proof.
  intros Ek Hk. revert sn. induction n as [|n IH]; intros sn En.
  - assert (k = 0) by lia; subst k. simpl in *.
    replace sn with sk by congruence. repeat split; auto. exists []. now rewrite app_nil_r.
  - destruct (Nat.eq_dec k (S n)) as [->|Hne].
    + replace sn with sk by congruence. repeat split; auto. exists []. now rewrite app_nil_r.
    + rewrite loop_S in En. apply bind_ok in En as (s' & E' & Eb).
      destruct (IH ltac:(lia) s' E') as (I1 & I2 & more & I3).
      apply body_inv in Eb as (out & h' & _ & El & _ & Ep).
      rewrite El, setitem_length. repeat split; auto.
      * intros j Hj. rewrite setitem_nth_other by lia. auto.
      * destruct (training self); destruct Ep as [_ ->]; rewrite I3.
        -- eauto.
        -- rewrite <- app_assoc. eauto.
Qed.

Lemma initial_logits_shape (eo eh : list (list (list F))) :
  shape3 (max_seq_len self) (length eo) (vocab_size self) (logits (initial self eo eh)).
Proof. apply zeros3_shape. Qed.
End LoopFacts.

Section TransposeFacts.
Context {A : Type}.

Lemma transpose01_shape (n0 n1 n2 : nat) (x : list (list (list A))) :
  shape3 n0 n1 n2 x -> shape3 n1 n0 n2 (transpose01 n1 x).
Proof.
  intros [Hl Hs]. split; [apply transpose01_length|].
  apply Forall_forall. intros r Hr. unfold transpose01 in Hr.
  apply in_map_iff in Hr as (j & <- & Hj). apply in_seq in Hj.
  assert (Hrect : Forall (fun r => length r = n1) x)
    by (eapply Forall_impl; [|exact Hs]; cbv beta; now intros r [? _]).
  rewrite (column_rect j n1 x [] Hrect) by lia. split.
  - now rewrite length_map.
  - apply Forall_map. eapply Forall_impl; [|exact Hs]. cbv beta.
    intros r [Hr Hw]. rewrite Forall_forall in Hw. apply Hw, nth_In. lia.
Qed.

Lemma transpose01_entry (n0 n1 n2 : nat) (x : list (list (list A))) (i j : nat) :
  shape3 n0 n1 n2 x -> i < n0 -> j < n1 ->
  nth i (nth j (transpose01 n1 x) []) [] = nth j (nth i x []) [].
Proof.
  intros [Hl Hs] Hi Hj.
  assert (Hrect : Forall (fun r => length r = n1) x)
    by (eapply Forall_impl; [|exact Hs]; cbv beta; now intros r [? _]).
  rewrite transpose01_nth by exact Hj.
  rewrite (column_rect j n1 x [] Hrect) by lia.
  rewrite (nth_indep _ [] (nth j [] [])) by (rewrite length_map; lia).
  now rewrite (map_nth (fun r => nth j r [])).
Qed.
End TransposeFacts.

Section TeacherForcing.
Context {F : Type} `{Float F} `{Tokens}.
Import GruDecoder DecoderWf.

Variables (self : GruDecoder.t F) (m : noise F).
Variables (encoder_output encoder_hidden_state : list (list (list F))).
Variable tgt_seqs : LongTensor2.

Hypothesis W : wf self.
Hypothesis Htrain : training self = true.
Hypothesis Hhidden :
  shape3 (num_layers self) (length encoder_output) (hidden_size self) encoder_hidden_state.
Hypothesis Htgt : valid_target self (length encoder_output) tgt_seqs.

Lemma teacher_input_valid (t : nat) :
  t <= size1 tgt_seqs ->
  length (teacher_input (length encoder_output) tgt_seqs t) = length encoder_output
  /\ Forall (valid_id (vocab_size self)) (teacher_input (length encoder_output) tgt_seqs t).
Proof.
  intros Ht. destruct Htgt as [[Hn Hr] Hi]. destruct t as [|t]; simpl.
  - split; [apply repeat_length|].
    apply Forall_forall. intros i Hin. apply repeat_spec in Hin. subst i.
    apply (wf_sos self W).
  - split; [now rewrite length_map|].
    apply Forall_map. rewrite Forall_forall in *. intros r Hin.
    specialize (Hr r Hin). specialize (Hi r Hin). rewrite Forall_forall in Hi.
    apply Hi, nth_In. lia.
Qed.

(** The loop under teacher forcing: every iteration succeeds while the
    target has a column to read, the next input is that column, and no
    prediction is recorded. *)
Lemma training_loop (n : nat) :
  n <= max_seq_len self -> n <= size1 tgt_seqs ->
  exists s,
    loop self m tgt_seqs n (initial self encoder_output encoder_hidden_state) = Ok s
    /\ decoder_input s = teacher_input (length encoder_output) tgt_seqs n
    /\ shape3 (num_layers self) (length encoder_output) (hidden_size self)
              (prev_hidden_state s)
    /\ shape3 (max_seq_len self) (length encoder_output) (vocab_size self) (logits s)
    /\ predictions s = [].
Proof.
  induction n as [|n IH]; intros Hn Hs.
  - eexists; split; [reflexivity|]. splits; auto; apply zeros3_shape.
  - destruct IH as (s & El & Ei & Eh & Eg & Ep); try lia.
    destruct (teacher_input_valid n ltac:(lia)) as [Tl Tv].
    rewrite <- Ei in Tl, Tv. rewrite <- Tl in Eh.
    destruct (step_ok self (sub n m) n (decoder_input s) (prev_hidden_state s) W Tv Eh)
      as (Es & S1 & S2).
    rewrite Tl in S1, S2.
    rewrite loop_S, El. cbn [bind]. unfold body. rewrite Es. cbn [bind].
    rewrite (surjective_pairing (step_spec _ _ _ _)). rewrite Htrain.
    unfold select_column. replace (n <? size1 tgt_seqs) with true
      by (symmetry; apply Nat.ltb_lt; lia).
    cbn [bind]. eexists; split; [reflexivity|]. cbn. splits; auto.
    destruct Eg. split; [now rewrite setitem_length|]. apply setitem_Forall; auto.
Qed.
End TeacherForcing.

Section GreedySearch.
Context {F : Type} `{Float F} `{Tokens}.
Import GruDecoder DecoderWf.

Variables (self : GruDecoder.t F) (m : noise F).
Variables (encoder_output encoder_hidden_state : list (list (list F))).
Variable tgt_seqs : LongTensor2.

Hypothesis W : wf self.
Hypothesis Heval : training self = false.
Hypothesis Hhidden :
  shape3 (num_layers self) (length encoder_output) (hidden_size self) encoder_hidden_state.

Lemma topk_rows (out : list (list F)) (B : nat) :
  shape2 B (vocab_size self) out ->
  mapM topk1 out = Ok (map (fun row => Z.of_nat (topk_index row)) out)
  /\ length (map (fun row => Z.of_nat (topk_index row)) out) = B
  /\ Forall (valid_id (vocab_size self)) (map (fun row => Z.of_nat (topk_index row)) out).
Proof.
  intros [Hl Hw]. pose proof (wf_sos self W) as Hsos.
  assert (HV : 1 <= vocab_size self) by (unfold valid_id in Hsos; lia).
  splits.
  - apply mapM_ok. eapply Forall_impl; [|exact Hw]. cbv beta.
    intros row Hrow. apply topk1_ok. lia.
  - now rewrite length_map.
  - apply Forall_map. eapply Forall_impl; [|exact Hw]. cbv beta.
    intros row Hrow. pose proof (topk_index_lt row ltac:(lia)). unfold valid_id. lia.
Qed.

(** The loop under greedy search: every iteration succeeds, the next input
    is the prediction just appended, and the prediction of step [k] is the
    row-wise [topk] of the logits stored at index [k]. *)
Lemma greedy_loop (n : nat) :
  n <= max_seq_len self ->
  exists s,
    loop self m tgt_seqs n (initial self encoder_output encoder_hidden_state) = Ok s
    /\ decoder_input s = greedy_input (length encoder_output) (predictions s) n
    /\ length (decoder_input s) = length encoder_output
    /\ Forall (valid_id (vocab_size self)) (decoder_input s)
    /\ shape3 (num_layers self) (length encoder_output) (hidden_size self)
              (prev_hidden_state s)
    /\ shape3 (max_seq_len self) (length encoder_output) (vocab_size self) (logits s)
    /\ length (predictions s) = n
    /\ forall k, k < n ->
         nth k (predictions s) []
         = map (fun row => Z.of_nat (topk_index row)) (nth k (logits s) []).
Proof.
  induction n as [|n IH]; intros Hn.
  - eexists; split; [reflexivity|]. cbn. splits; auto.
    + apply repeat_length.
    + apply Forall_forall. intros i Hin. apply repeat_spec in Hin. subst i.
      apply (wf_sos self W).
    + apply zeros3_shape.
    + intros k Hk; lia.
  - destruct IH as (s & El & Ei & Il & Iv & Eh & Eg & Ep & Ea); try lia.
    rewrite <- Il in Eh.
    destruct (step_ok self (sub n m) n (decoder_input s) (prev_hidden_state s) W Iv Eh)
      as (Es & S1 & S2).
    rewrite Il in S1, S2.
    destruct (topk_rows _ _ S1) as (T1 & T2 & T3).
    rewrite loop_S, El. cbn [bind]. unfold body. rewrite Es. cbn [bind].
    rewrite (surjective_pairing (step_spec _ _ _ _)). rewrite Heval, T1.
    cbn [bind]. eexists; split; [reflexivity|]. cbn.
    destruct Eg as [Gl Gs].
    splits; auto.
    + now rewrite app_nth2, Ep, Nat.sub_diag by lia.
    + split; [now rewrite setitem_length|]. apply setitem_Forall; auto.
    + rewrite length_app; simpl; lia.
    + intros k Hk. destruct (Nat.eq_dec k n) as [->|Hne].
      * rewrite app_nth2, Ep, Nat.sub_diag by lia. simpl.
        now rewrite setitem_nth_same by lia.
      * rewrite app_nth1 by lia. rewrite setitem_nth_other by lia. apply Ea. lia.
Qed.
End GreedySearch.

(** * The example instance is well formed *)

Section ExampleFacts.
Import Example.
#[local] Existing Instance FloatZ.
#[local] Existing Instance tokens.

Lemma toy_cell_ok (g : GRU.t Z) : GRU.cell g = toy_cell -> cell_ok g.
Proof. intros E l d x h Hh. rewrite E. unfold toy_cell. now rewrite length_map. Qed.

(** The example modules are the ones their constructors return. *)
Lemma encoder_built (bidirectional : bool) (num_layers : nat) :
  1 <= num_layers ->
  GruEncoder.init (encoder_params bidirectional num_layers) table toy_cell
  = Ok (encoder bidirectional num_layers).
Proof.
  intros Hn. unfold GruEncoder.init. cbn.
  replace (match num_layers with 0 => false | S _ => true end) with true
    by (destruct num_layers; [lia|reflexivity]).
  reflexivity.
Qed.

Lemma dropout_encoder_built :
  GruEncoder.init dropout_encoder_params table toy_cell = Ok dropout_encoder.
Proof. reflexivity. Qed.

Lemma decoder_built :
  GruDecoder.init (decoder_params None) table toy_cell lin_weight lin_bias = Ok decoder.
Proof. reflexivity. Qed.

(** A configuration with no layer, or with a dropout probability above one,
    is turned down. *)
Lemma encoder_without_layers_raises (bidirectional : bool) :
  GruEncoder.init (encoder_params bidirectional 0) table toy_cell = Raise ValueError.
Proof. reflexivity. Qed.

Lemma decoder_dropout_out_of_range_raises :
  GruDecoder.init
    {| GruDecoder.p_vocab_size := 6;
       GruDecoder.p_embedding_dim := 2;
       GruDecoder.p_hidden_size := 2;
       GruDecoder.p_max_seq_len := 3;
       GruDecoder.p_num_layers := None;
       GruDecoder.p_dropout_prob := Some 2%Z;
       GruDecoder.p_device := None;
       GruDecoder.p_beam_size := None |} table toy_cell lin_weight lin_bias
  = Raise ValueError.
Proof. reflexivity. Qed.

Lemma decoder_wf : DecoderWf.wf decoder.
Proof.
  constructor; try reflexivity; try (cbn; lia).
  - now apply toy_cell_ok.
  - split; [reflexivity|]. repeat constructor.
  - cbv; split; [discriminate|reflexivity].
Qed.

Lemma eval_decoder_wf : DecoderWf.wf (GruDecoder.train false decoder).
Proof.
  constructor; try reflexivity; try (cbn; lia).
  - now apply toy_cell_ok.
  - split; [reflexivity|]. repeat constructor.
  - cbv; split; [discriminate|reflexivity].
Qed.

Lemma encoder_hidden_state_shape :
  shape3 (GruDecoder.num_layers decoder) (length encoder_output)
         (GruDecoder.hidden_size decoder) encoder_hidden_state.
Proof. split; [reflexivity|]. repeat constructor. Qed.

Lemma tgt_valid (width : nat) :
  width <= 4 -> DecoderWf.valid_target decoder (length encoder_output) (tgt width).
Proof.
  intros Hw.
  assert (Hc : width = 0 \/ width = 1 \/ width = 2 \/ width = 3 \/ width = 4) by lia.
  destruct Hc as [->|[->|[->|[->| ->]]]];
    (split; [split; [reflexivity|repeat constructor]
            |repeat constructor; cbv; try discriminate; reflexivity]).
Qed.
End ExampleFacts.

(** * Decoder: teacher forcing *)

Section TeacherForcingClaims.
Context {F : Type} `{Float F} `{Tokens}.
Import GruDecoder DecoderWf.


End TeacherForcingClaims.

(** * Decoder: greedy search *)

Section GreedySearchClaims.
Context {F : Type} `{Float F} `{Tokens}.
Import GruDecoder DecoderWf.

End GreedySearchClaims.

Section DecoderExamples.
Import Example GruDecoder.
#[local] Existing Instance FloatZ.
#[local] Existing Instance tokens.



(** C3 as stated fails: with a target of two columns and [max_seq_len = 3]
    the third iteration reads [tgt_seqs[:, 2]] and raises. *)
Lemma training_short_target_raises :
  max_seq_len decoder = 3
  /\ forward decoder no_noise encoder_output encoder_hidden_state (tgt 2) [2; 2]
     = Raise IndexError.
Proof. split; vm_compute; reflexivity. Qed.

End DecoderExamples.

(** * Decoder: what the result depends on *)

Section Determinism.
Context {F : Type} `{Float F} `{Tokens}.
Import GruDecoder DecoderWf.

Lemma imap_from_ext {A B : Type} (f g : nat -> A -> B) (l : list A) (i : nat) :
  (forall k a, f k a = g k a) -> imap_from i f l = imap_from i g l.
Proof.
  intros E; revert i; induction l as [|a l IH]; intros i; simpl; auto.
  now rewrite E, IH.
Qed.

(** Without dropout the stack does not read the noise. *)
Lemma layers_no_dropout (g : GRU.t F) (m m' : noise F) (n : nat) :
  forall l h0 xs, GRU.layers g false m n l h0 xs = GRU.layers g false m' n l h0 xs.
Proof.
  induction n as [|n IH]; intros l h0 xs; simpl; auto.
  destruct (GRU.layer g l (firstn (GRU.num_directions g) h0) xs) as [out fin].
  now rewrite (IH (S l) (skipn (GRU.num_directions g) h0) out).
Qed.

Lemma run_batch_eval (g : GRU.t F) (m m' : noise F) (input h0 : list (list (list F))) :
  GRU.run_batch g false m input h0 = GRU.run_batch g false m' input h0.
Proof.
  unfold GRU.run_batch, GRU.dropout_active, imap. cbn [andb].
  rewrite (imap_from_ext _
             (fun b xs => GRU.layers g false (sub b m') (GRU.num_layers g) 0
                            (map (fun hl => nth b hl []) h0) xs)); auto.
  intros k a. apply layers_no_dropout.
Qed.

Lemma GRU_forward_eval (g : GRU.t F) (m m' : noise F) (input : list (list (list F)))
  (hx : option (list (list (list F)))) :
  GRU.forward g false m input hx = GRU.forward g false m' input hx.
Proof.
  unfold GRU.forward.
  destruct (guard (GRU.check_input g input) RuntimeError); cbn [bind]; auto.
  destruct hx as [h|]; cbn [bind];
    [destruct (guard (GRU.check_hidden g (length input) h) RuntimeError); cbn [bind]; auto|];
    now rewrite (run_batch_eval g m m').
Qed.

Lemma step_eval (self : GruDecoder.t F) (m m' : noise F) (t : nat) (inputs : list Z)
  (h : list (list (list F))) :
  training self = false -> step self m t inputs h = step self m' t inputs h.
Proof.
  intros E. unfold step. rewrite E.
  destruct (Embedding.forward (embedding_lookup self) (unsqueeze_last inputs));
    cbn [bind]; auto.
  now rewrite (GRU_forward_eval _ m m').
Qed.

Lemma loop_eval (self : GruDecoder.t F) (m m' : noise F) (tgt_seqs : LongTensor2)
  (s0 : state F) (n : nat) :
  training self = false -> loop self m tgt_seqs n s0 = loop self m' tgt_seqs n s0.
Proof.
  intros E. induction n as [|n IH]; simpl; auto. rewrite IH.
  destruct (loop self m' tgt_seqs n s0) as [s|e]; cbn [bind]; auto.
  unfold body. now rewrite (step_eval self (sub n m) (sub n m') n _ _ E).
Qed.

(** C7.  In inference mode [forward] is a function of the module (its
    weights and configuration) and of its arguments alone: the randomness
    available to the call, which is all that can differ between two
    invocations on one model and one batch, does not reach the logits or the
    predictions. *)
Theorem inference_deterministic (self : GruDecoder.t F) (m m' : noise F)
  (encoder_output encoder_hidden_state : list (list (list F)))
  (tgt_seqs : LongTensor2) (tgt_seq_lengths : list nat) :
  training self = false ->
  forward self m encoder_output encoder_hidden_state tgt_seqs tgt_seq_lengths
  = forward self m' encoder_output encoder_hidden_state tgt_seqs tgt_seq_lengths.
Proof. intros E. unfold forward. now rewrite (loop_eval self m m' tgt_seqs _ _ E). Qed.

(** C8.  Two decoders that differ in [beam_size] only return the same
    logits and predictions from [forward], and the same result from
    [step], on every input and in both modes. *)
Theorem beam_size_ignored (d1 d2 : GruDecoder.t F) (m : noise F)
  (encoder_output encoder_hidden_state : list (list (list F)))
  (tgt_seqs : LongTensor2) (tgt_seq_lengths : list nat) :
  same_but_beam_size d1 d2 ->
  forward d1 m encoder_output encoder_hidden_state tgt_seqs tgt_seq_lengths
  = forward d2 m encoder_output encoder_hidden_state tgt_seqs tgt_seq_lengths
  /\ forall t inputs h, step d1 m t inputs h = step d2 m t inputs h.
Proof.
  destruct d1, d2. unfold same_but_beam_size. cbn.
  intros (-> & -> & -> & -> & -> & -> & -> & -> & -> & -> & -> & ->).
  split; [|reflexivity].
  unfold forward. cbn [max_seq_len].
  match goal with
  | |- bind (loop ?a m tgt_seqs ?n ?s0) _ = bind (loop ?b m tgt_seqs ?n ?s0') _ =>
      change s0' with s0;
      assert (E : forall k, loop a m tgt_seqs k s0 = loop b m tgt_seqs k s0)
        by (induction k as [|k IH]; [reflexivity|cbn [loop]; now rewrite IH]);
      now rewrite E
  end.
Qed.
End Determinism.

(** * Replacing the embedding table *)

Section EmbeddingWeight.
Context {F : Type} `{Float F} `{Tokens}.

(** A table fresh from the constructor holds zeros at the padding id. *)
Lemma fresh_padding_row (dim : nat) (pad : Z) (init : list (list F)) :
  valid_id (length init) pad ->
  exists e,
    Embedding.make (length init) dim pad init = Ok e
    /\ Embedding.padding_idx e = pad
    /\ Embedding.lookup e pad = Ok (zeros1 dim).
Proof.
  intros [Hlo Hhi].
  assert (E : Embedding.make (length init) dim pad init
              = Ok {| Embedding.weight :=
                        {| Embedding.data := setitem (Z.to_nat pad) (zeros1 dim) init;
                           Embedding.requires_grad := true |};
                      Embedding.padding_idx := pad |}).
  { unfold Embedding.make.
    assert (G : (Z.to_nat pad <? length init) = true) by (apply Nat.ltb_lt; lia).
    destruct (0 <? pad)%Z eqn:E0.
    - replace (pad <? Z.of_nat (length init))%Z with true by (symmetry; now apply Z.ltb_lt).
      cbn [bind guard]. now rewrite G.
    - replace (pad <? 0)%Z with false by (symmetry; apply Z.ltb_ge; lia).
      cbn [bind guard]. now rewrite G. }
  eexists. split; [exact E|]. split; [reflexivity|].
  rewrite lookup_ok.
  - cbn. f_equal. apply setitem_nth_same. lia.
  - cbn. rewrite setitem_length. split; auto.
Qed.

(** A negative padding index counts from the end of the table. *)
Lemma fresh_padding_row_from_end (dim : nat) (pad : Z) (init : list (list F)) :
  (- Z.of_nat (length init) <= pad < 0)%Z ->
  exists e,
    Embedding.make (length init) dim pad init = Ok e
    /\ Embedding.padding_idx e = (Z.of_nat (length init) + pad)%Z
    /\ Embedding.lookup e (Z.of_nat (length init) + pad) = Ok (zeros1 dim).
Proof.
  intros [Hlo Hhi].
  assert (E : Embedding.make (length init) dim pad init
              = Ok {| Embedding.weight :=
                        {| Embedding.data :=
                             setitem (Z.to_nat (Z.of_nat (length init) + pad))
                               (zeros1 dim) init;
                           Embedding.requires_grad := true |};
                      Embedding.padding_idx := (Z.of_nat (length init) + pad)%Z |}).
  { unfold Embedding.make.
    assert (G : (Z.to_nat (Z.of_nat (length init) + pad) <? length init) = true)
      by (apply Nat.ltb_lt; lia).
    replace (0 <? pad)%Z with false by (symmetry; apply Z.ltb_ge; lia).
    replace (pad <? 0)%Z with true by (symmetry; now apply Z.ltb_lt).
    replace (- Z.of_nat (length init) <=? pad)%Z with true
      by (symmetry; now apply Z.leb_le).
    cbn [bind guard]. now rewrite G. }
  eexists. split; [exact E|]. split; [reflexivity|].
  rewrite lookup_ok.
  - cbn. f_equal. apply setitem_nth_same. lia.
  - cbn. rewrite setitem_length. split; lia.
Qed.

(** Outside that range the constructor raises. *)
Lemma padding_index_outside_raises (n dim : nat) (pad : Z) (init : list (list F)) :
  (pad < - Z.of_nat n \/ (0 < pad /\ Z.of_nat n <= pad))%Z ->
  Embedding.make n dim pad init = Raise AssertionError.
Proof.
  intros Hp. unfold Embedding.make.
  destruct (0 <? pad)%Z eqn:E0.
  - apply Z.ltb_lt in E0.
    replace (pad <? Z.of_nat n)%Z with false by (symmetry; apply Z.ltb_ge; lia).
    reflexivity.
  - apply Z.ltb_ge in E0.
    replace (pad <? 0)%Z with true by (symmetry; apply Z.ltb_lt; lia).
    replace (- Z.of_nat n <=? pad)%Z with false by (symmetry; apply Z.leb_gt; lia).
    reflexivity.
Qed.

(** C10.  After [init_embedding_weight W], on the encoder as on the
    decoder, with [W] of shape [(vocab_size, embedding_dim)]: the lookup of
    every token id [i] of the vocabulary returns the row [W[i]], the row at
    [PAD_TOKEN_ID] included, which is the one of [W] and not zeros; and the
    table does not require gradients. *)
Theorem init_embedding_weight_lookup (enc : GruEncoder.t F) (dec : GruDecoder.t F)
  (We Wd : list (list F)) :
  shape2 (GruEncoder.vocab_size enc) (GruEncoder.embedding_dim enc) We ->
  shape2 (GruDecoder.vocab_size dec) (GruDecoder.embedding_dim dec) Wd ->
  let enc' := GruEncoder.init_embedding_weight enc We in
  let dec' := GruDecoder.init_embedding_weight dec Wd in
  (forall i, valid_id (GruEncoder.vocab_size enc) i ->
     Embedding.lookup (GruEncoder.embedding_lookup enc') i = Ok (nth (Z.to_nat i) We []))
  /\ (forall i, valid_id (GruDecoder.vocab_size dec) i ->
        Embedding.lookup (GruDecoder.embedding_lookup dec') i = Ok (nth (Z.to_nat i) Wd []))
  /\ (valid_id (GruEncoder.vocab_size enc) PAD_TOKEN_ID ->
        Embedding.lookup (GruEncoder.embedding_lookup enc') PAD_TOKEN_ID
        = Ok (nth (Z.to_nat PAD_TOKEN_ID) We []))
  /\ (valid_id (GruDecoder.vocab_size dec) PAD_TOKEN_ID ->
        Embedding.lookup (GruDecoder.embedding_lookup dec') PAD_TOKEN_ID
        = Ok (nth (Z.to_nat PAD_TOKEN_ID) Wd []))
  /\ Embedding.requires_grad (Embedding.weight (GruEncoder.embedding_lookup enc')) = false
  /\ Embedding.requires_grad (Embedding.weight (GruDecoder.embedding_lookup dec')) = false.
Proof.
  intros [He _] [Hd _] enc' dec'.
  assert (Le : forall i, valid_id (GruEncoder.vocab_size enc) i ->
             Embedding.lookup (GruEncoder.embedding_lookup enc') i
             = Ok (nth (Z.to_nat i) We [])).
  { intros i Hi. rewrite lookup_ok; [reflexivity|]. cbn. now rewrite He. }
  assert (Ld : forall i, valid_id (GruDecoder.vocab_size dec) i ->
             Embedding.lookup (GruDecoder.embedding_lookup dec') i
             = Ok (nth (Z.to_nat i) Wd [])).
  { intros i Hi. rewrite lookup_ok; [reflexivity|]. cbn. now rewrite Hd. }
  splits; auto.
Qed.
End EmbeddingWeight.

Section MoreDecoderExamples.
Import Example GruDecoder.
#[local] Existing Instance FloatZ.
#[local] Existing Instance tokens.

Lemma table_shape : shape2 6 2 table.
Proof. split; [reflexivity|]. repeat constructor. Qed.

Lemma inference_deterministic_witness :
  forward (train false decoder) no_noise encoder_output encoder_hidden_state (tgt 0) []
  = forward (train false decoder) (fun _ => 0%Z) encoder_output encoder_hidden_state
      (tgt 0) [].
Proof.
  apply (inference_deterministic (train false decoder) no_noise (fun _ => 0%Z)
           encoder_output encoder_hidden_state (tgt 0) [] eq_refl).
Defined.

Lemma beam_size_ignored_witness :
  forward decoder no_noise encoder_output encoder_hidden_state (tgt 3) [3; 2]
  = forward (with_beam_size decoder 5) no_noise encoder_output encoder_hidden_state
      (tgt 3) [3; 2]
  /\ forall t inputs h,
       step decoder no_noise t inputs h = step (with_beam_size decoder 5) no_noise t inputs h.
Proof.
  apply (beam_size_ignored decoder (with_beam_size decoder 5) no_noise encoder_output
           encoder_hidden_state (tgt 3) [3; 2]).
  unfold DecoderWf.same_but_beam_size. splits; reflexivity.
Defined.

Lemma init_embedding_weight_lookup_witness :
  Embedding.lookup
    (GruEncoder.embedding_lookup (GruEncoder.init_embedding_weight (encoder false 1) table))
    PAD_TOKEN_ID = Ok [9; 9]%Z
  /\ Embedding.lookup (embedding_lookup (init_embedding_weight decoder table)) PAD_TOKEN_ID
     = Ok [9; 9]%Z
  /\ Embedding.lookup (embedding_lookup decoder) PAD_TOKEN_ID = Ok [0; 0]%Z.
Proof.
  destruct (init_embedding_weight_lookup (encoder false 1) decoder table table
              table_shape table_shape) as (_ & _ & He & Hd & _).
  split; [apply He|split; [apply Hd|reflexivity]];
    (cbv; split; [discriminate|reflexivity]).
Defined.
End MoreDecoderExamples.

(** * Decoder: the recurrence, in both modes *)

Section Recurrence.
Context {F : Type} `{Float F} `{Tokens}.
Import GruDecoder DecoderWf.

Lemma lookup_ok_inv (e : Embedding.t F) (i : Z) (v : list F) :
  Embedding.lookup e i = Ok v ->
  valid_id (length (Embedding.data (Embedding.weight e))) i.
Proof.
  unfold Embedding.lookup, valid_id.
  destruct (0 <=? i)%Z eqn:E0; destruct (i <? _)%Z eqn:E1; simpl; try discriminate.
  intros _. apply Z.leb_le in E0. apply Z.ltb_lt in E1. lia.
Qed.

Lemma guard_inv (b : bool) (e : exn) (u : unit) : guard b e = Ok u -> b = true.
Proof. destruct b; simpl; [reflexivity|discriminate]. Qed.

Lemma shape3_batch_unique {A : Type} (n a b c c' : nat) (x : list (list (list A))) :
  1 <= n -> shape3 n a c x -> shape3 n b c' x -> a = b.
Proof.
  intros Hn [Hl Hs] [_ Hs']. destruct x as [|r x]; [simpl in Hl; lia|].
  inversion Hs as [|? ? [Ha _] _]; inversion Hs' as [|? ? [Hb _] _]. congruence.
Qed.

(** A step that returns was given ids of the vocabulary and a hidden state
    of the shape of the recurrent stack. *)
Lemma step_inv (self : GruDecoder.t F) (m : noise F) (t : nat) (inputs : list Z)
  (h : list (list (list F))) (r : list (list F) * list (list (list F))) :
  wf self ->
  step self m t inputs h = Ok r ->
  Forall (valid_id (vocab_size self)) inputs
  /\ shape3 (num_layers self) (length inputs) (hidden_size self) h.
Proof.
  intros W E. unfold step in E.
  apply bind_ok in E as (emb & Ee & E).
  apply bind_ok in E as ([outputs hs] & Eg & _).
  pose proof (wf_table self W) as [Htl _].
  apply mapM_inv in Ee as [Hlen Hrows].
  unfold unsqueeze_last in Hlen, Hrows. rewrite length_map in Hlen.
  split.
  - apply Forall_forall. intros i Hi.
    destruct (In_nth_error _ _ Hi) as [k Hk].
    destruct (Hrows k [i]) as (b & _ & Eb).
    { now rewrite nth_error_map, Hk. }
    simpl in Eb. apply bind_ok in Eb as (v & Ev & _).
    apply lookup_ok_inv in Ev. now rewrite Htl in Ev.
  - unfold GRU.forward in Eg.
    apply bind_ok in Eg as (u & _ & Eg).
    apply bind_ok in Eg as (h0 & Eh & _).
    apply bind_ok in Eh as (u' & Ec & _).
    apply guard_inv, check_hidden_iff in Ec.
    unfold GRU.num_directions in Ec.
    rewrite (wf_unidirectional self W), (wf_num_layers self W), (wf_hidden_size self W),
      Nat.mul_1_l, Hlen in Ec.
    exact Ec.
Qed.

Variables (self : GruDecoder.t F) (m : noise F).
Variables (encoder_output encoder_hidden_state : list (list (list F))).
Variable tgt_seqs : LongTensor2.
Hypothesis W : wf self.

Let s0 : state F := initial self encoder_output encoder_hidden_state.

(** From the second iteration on, the hidden state is one the stack made
    for the batch. *)
Lemma hidden_after (n : nat) (s : state F) :
  loop self m tgt_seqs n s0 = Ok s -> 1 <= n ->
  shape3 (num_layers self) (length encoder_output) (hidden_size self)
         (prev_hidden_state s).
Proof.
  revert s; induction n as [|n IH]; intros s E Hn; [lia|].
  rewrite loop_S in E. apply bind_ok in E as (s' & E' & Eb).
  apply body_inv in Eb as (out & h' & Es & _ & Eh & _).
  destruct (step_inv _ _ _ _ _ _ W Es) as [Hv Hh].
  destruct (step_ok self (sub n m) n _ _ W Hv Hh) as (Es' & _ & S2).
  rewrite Es in Es'. injection Es' as Eo Eh'.
  assert (Hb : length (decoder_input s') = length encoder_output).
  { destruct n as [|n].
    - simpl in E'. injection E' as <-. apply repeat_length.
    - specialize (IH s' E' ltac:(lia)).
      symmetry. eapply shape3_batch_unique; [apply (wf_layers_pos self W)| |]; eauto. }
  rewrite Eh, Eh', <- Hb. exact S2.
Qed.

(** An iteration that succeeds started from a batch of ids of the
    vocabulary, one per sequence, and a hidden state of the right shape. *)
Lemma iteration_inputs (n : nat) (s s' : state F) :
  loop self m tgt_seqs n s0 = Ok s ->
  body self m tgt_seqs n s = Ok s' ->
  length (decoder_input s) = length encoder_output
  /\ Forall (valid_id (vocab_size self)) (decoder_input s)
  /\ shape3 (num_layers self) (length (decoder_input s)) (hidden_size self)
            (prev_hidden_state s).
Proof.
  intros E Eb. apply body_inv in Eb as (out & h' & Es & _).
  destruct (step_inv _ _ _ _ _ _ W Es) as [Hv Hh]. splits; auto.
  destruct n as [|n].
  - simpl in E. injection E as <-. apply repeat_length.
  - pose proof (hidden_after (S n) s E ltac:(lia)) as Hs.
    symmetry. eapply shape3_batch_unique; [apply (wf_layers_pos self W)| |]; eauto.
Qed.

Lemma logits_shape (n : nat) (s : state F) :
  loop self m tgt_seqs n s0 = Ok s ->
  shape3 (max_seq_len self) (length encoder_output) (vocab_size self) (logits s).
Proof.
  revert s; induction n as [|n IH]; intros s E.
  - simpl in E. injection E as <-. apply zeros3_shape.
  - rewrite loop_S in E. apply bind_ok in E as (s' & E' & Eb).
    destruct (iteration_inputs n s' s E' Eb) as (Hb & Hv & Hh).
    destruct (step_ok self (sub n m) n _ _ W Hv Hh) as (Es' & S1 & _).
    apply body_inv in Eb as (out & h' & Es & El & _).
    rewrite Es in Es'. injection Es' as Eo _.
    destruct (IH s' E') as [Gl Gs]. rewrite El. split.
    + now rewrite setitem_length.
    + apply setitem_Forall; auto. rewrite Eo, <- Hb. exact S1.
Qed.
End Recurrence.

Section RecurrenceSteps.
Context {F : Type} `{Float F} `{Tokens}.
Import GruDecoder DecoderWf.

Lemma advance_length (g : GRU.t F) (drop : bool) (m : noise F) (hs : list (list F)) :
  forall l x, length (advance g drop m l x hs) = length hs.
Proof. induction hs as [|h hs IH]; intros l x; simpl; auto. Qed.

Lemma last_as_nth {A : Type} (l : list A) (d d' : A) :
  1 <= length l -> last l d = nth (length l - 1) l d'.
Proof.
  induction l as [|a [|b l] IH]; simpl; intros Hl; try lia; auto.
  simpl in IH. rewrite IH by lia. now rewrite Nat.sub_0_r.
Qed.

Lemma last_cons_nonempty {A : Type} (a : A) (l : list A) (d d' : A) :
  1 <= length l -> last (a :: l) d = last l d'.
Proof.
  destruct l as [|b l]; simpl; intros Hl; [lia|].
  clear Hl. revert b. induction l as [|c l IH]; intros b; simpl; auto.
Qed.

(** A unidirectional stack on a sequence of one step is one [advance]. *)
Lemma layers_single (g : GRU.t F) (drop : bool) (m : noise F) :
  GRU.bidirectional g = false ->
  forall (hs : list (list F)) (l : nat) (x : list F),
    GRU.layers g drop m (length hs) l hs [x]
    = ([last (advance g drop m l x hs) x], advance g drop m l x hs).
Proof.
  intros Hb. assert (HD : GRU.num_directions g = 1)
    by (unfold GRU.num_directions; now rewrite Hb).
  induction hs as [|h hs IH]; intros l x; [reflexivity|].
  set (h' := GRU.cell g l GRU.Forward x h).
  set (x' := if drop && negb (length hs =? 0) then dropout_vec (sub 0 (sub l m)) h' else h').
  change (advance g drop m l x (h :: hs)) with (h' :: advance g drop m (S l) x' hs).
  set (A := advance g drop m (S l) x' hs).
  assert (HA : length A = length hs) by apply advance_length.
  assert (EL : GRU.layer g l [h] [x] = ([h'], [h'])).
  { unfold GRU.layer. rewrite Hb. reflexivity. }
  assert (Eo : (if drop && negb (length hs =? 0) then dropout_seq (sub l m) [h'] else [h'])
               = [x']).
  { subst x'. destruct (drop && negb (length hs =? 0)); reflexivity. }
  assert (Elast : last (h' :: A) x = last A x').
  { destruct hs as [|h2 hs2].
    - destruct A; [|simpl in HA; lia]. subst x'. cbn. now rewrite andb_false_r.
    - apply last_cons_nonempty. rewrite HA. simpl. lia. }
  rewrite Elast.
  change (GRU.layers g drop m (length (h :: hs)) l (h :: hs) [x])
    with (let '(out, fin) := GRU.layer g l (firstn (GRU.num_directions g) (h :: hs)) [x] in
          let out := if drop && negb (length hs =? 0)
                     then dropout_seq (sub l m) out else out in
          let '(o, fs) := GRU.layers g drop m (length hs) (S l)
                            (skipn (GRU.num_directions g) (h :: hs)) out in
          (o, fin ++ fs)).
  rewrite HD. cbn [firstn skipn]. rewrite EL, Eo, (IH (S l) x'). reflexivity.
Qed.

(** What [step_spec] holds for sequence [b]: the new states are those of
    one [advance] from the embedding of the sequence's input id, and the
    row of log-probabilities is the log-softmax of the affine image of the
    top new state. *)
Lemma step_spec_entries (self : GruDecoder.t F) (m : noise F) (inputs : list Z)
  (h : list (list (list F))) (b : nat) :
  wf self ->
  shape3 (num_layers self) (length inputs) (hidden_size self) h ->
  b < length inputs ->
  let e := nth (Z.to_nat (nth b inputs 0%Z))
               (Embedding.data (Embedding.weight (embedding_lookup self))) [] in
  let new := advance (rnn self) (GRU.dropout_active (rnn self) (training self)) (sub b m) 0
               e (map (fun hl => nth b hl []) h) in
  let z := map2 (fun w c => affine w c (nth (num_layers self - 1) new []))
                (Linear.weight (linear_transform self))
                (Linear.bias (linear_transform self)) in
  nth b (fst (step_spec self m inputs h)) [] = map (log_softmax_at z) z
  /\ length z = vocab_size self
  /\ forall k, k < num_layers self ->
       nth b (nth k (snd (step_spec self m inputs h)) []) [] = nth k new [].
Proof.
  intros W [Hl Hs] Hb e new z.
  set (table := Embedding.data (Embedding.weight (embedding_lookup self))) in *.
  set (look := fun i : Z => nth (Z.to_nat i) table []).
  set (input := map (fun v : list F => [v]) (map look inputs)).
  set (g := rnn self) in *.
  set (drop := GRU.dropout_active g (training self)) in *.
  set (f := fun (b : nat) (xs : list (list F)) =>
              GRU.layers g drop (sub b m) (GRU.num_layers g) 0
                (map (fun hl => nth b hl []) h) xs).
  assert (Hin : length input = length inputs) by (subst input; now rewrite !length_map).
  assert (Hnb : nth b input [] = [e]).
  { subst input.
    rewrite (nth_indep _ [] ((fun v : list F => [v]) (look 0%Z))) by now rewrite !length_map.
    rewrite (map_nth (fun v : list F => [v])), (map_nth look). reflexivity. }
  assert (Hlen : length (map (fun hl : list (list F) => nth b hl []) h) = GRU.num_layers g).
  { rewrite length_map, Hl. subst g. now rewrite (wf_num_layers self W). }
  assert (Hf : f b (nth b input []) = ([last new e], new)).
  { subst f. cbv beta. rewrite Hnb, <- Hlen.
    apply layers_single. apply (wf_unidirectional self W). }
  assert (Hlast : last new e = nth (num_layers self - 1) new []).
  { pose proof (wf_layers_pos self W).
    assert (length new = num_layers self)
      by (subst new; now rewrite advance_length, length_map).
    rewrite (last_as_nth new e []) by lia. congruence. }
  assert (HD : GRU.num_directions g = 1)
    by (unfold GRU.num_directions; subst g; now rewrite (wf_unidirectional self W)).
  unfold step_spec. fold table. fold look. fold input. fold g.
  unfold GRU.run_batch. fold drop. fold f. cbn [fst snd].
  splits.
  - set (out := fun o : list (list F) =>
                  log_softmax (Linear.apply (linear_transform self) (nth 0 o []))).
    rewrite (nth_indep _ [] (out (fst (@nil (list F), @nil (list F)))))
      by (rewrite !length_map, imap_length; lia).
    rewrite (map_nth out), (map_nth fst).
    rewrite (imap_nth f input b [] ([], [])) by lia.
    rewrite Hf. subst out. cbv beta. cbn [fst nth]. rewrite Hlast. reflexivity.
  - subst z. rewrite map2_length, (wf_weight self W), (wf_bias self W). apply Nat.min_id.
  - intros k Hk.
    rewrite (nth_indep _ [] (map (fun r : list (list F) * list (list F) =>
                                    nth 0 (snd r) []) (imap f input)))
      by (rewrite length_map, length_seq, HD; subst g;
          rewrite (wf_num_layers self W); lia).
    rewrite (map_nth (fun k => map (fun r : list (list F) * list (list F) =>
                                      nth k (snd r) []) (imap f input))).
    rewrite seq_nth by (rewrite HD; subst g; rewrite (wf_num_layers self W); lia).
    cbn [Nat.add].
    rewrite (nth_indep _ [] ((fun r : list (list F) * list (list F) => nth k (snd r) [])
                               ([], []))) by (rewrite length_map, imap_length; lia).
    rewrite (map_nth (fun r : list (list F) * list (list F) => nth k (snd r) [])).
    rewrite (imap_nth f input b [] ([], [])) by lia.
    now rewrite Hf.
Qed.

(** Every time step of a call of [forward] that gets through the loop: the
    state it starts from, the call of [step] it makes, and where the result
    goes. *)
Lemma recurrence_steps (self : GruDecoder.t F) (m : noise F)
  (encoder_output encoder_hidden_state : list (list (list F)))
  (tgt_seqs : LongTensor2) (sT : state F) (t : nat) :
  wf self ->
  loop self m tgt_seqs (max_seq_len self)
    (initial self encoder_output encoder_hidden_state) = Ok sT ->
  t < max_seq_len self ->
  exists s s1,
    loop self m tgt_seqs t (initial self encoder_output encoder_hidden_state) = Ok s
    /\ loop self m tgt_seqs (S t) (initial self encoder_output encoder_hidden_state) = Ok s1
    /\ length (decoder_input s) = length encoder_output
    /\ shape3 (num_layers self) (length (decoder_input s)) (hidden_size self)
              (prev_hidden_state s)
    /\ step self (sub t m) t (decoder_input s) (prev_hidden_state s)
       = Ok (step_spec self (sub t m) (decoder_input s) (prev_hidden_state s))
    /\ shape2 (length encoder_output) (vocab_size self)
              (fst (step_spec self (sub t m) (decoder_input s) (prev_hidden_state s)))
    /\ prev_hidden_state s1
       = snd (step_spec self (sub t m) (decoder_input s) (prev_hidden_state s))
    /\ forall b, b < length encoder_output ->
         nth t (nth b (transpose01 (length encoder_output) (logits sT)) []) []
         = nth b (fst (step_spec self (sub t m) (decoder_input s) (prev_hidden_state s))) [].
Proof.
  intros W ET Ht.
  destruct (loop_prefix self m tgt_seqs _ _ _ ET (S t) ltac:(lia)) as (s1 & E1).
  pose proof E1 as E1'. rewrite loop_S in E1'. apply bind_ok in E1' as (s & Et & Eb).
  destruct (iteration_inputs self m encoder_output encoder_hidden_state tgt_seqs W
              t s s1 Et Eb) as (Hb & Hv & Hh).
  destruct (step_ok self (sub t m) t _ _ W Hv Hh) as (Es & S1 & _).
  exists s, s1.
  pose proof Eb as Eb'. apply body_inv in Eb' as (out & h' & Es' & El & Eh & _).
  rewrite Es in Es'.
  assert (Esp : step_spec self (sub t m) (decoder_input s) (prev_hidden_state s)
                = (out, h')) by congruence.
  pose proof (logits_shape self m encoder_output encoder_hidden_state tgt_seqs W _ _ ET)
    as GT.
  pose proof (logits_shape self m encoder_output encoder_hidden_state tgt_seqs W _ _ Et)
    as [Gl _].
  splits; auto.
  - rewrite <- Hb. exact S1.
  - now rewrite Eh, Esp.
  - intros b Hlt.
    rewrite (transpose01_entry _ _ _ _ t b GT Ht Hlt).
    destruct (loop_extend self m tgt_seqs (S t) (max_seq_len self) _ s1 sT E1
                ltac:(lia) ET) as (_ & Hsame & _).
    rewrite (Hsame t) by lia. rewrite El, setitem_nth_same by lia. now rewrite Esp.
Qed.
End RecurrenceSteps.

Section RecurrenceClaim.
Context {F : Type} `{Float F} `{Tokens}.
Import GruDecoder DecoderWf.

(** C6.  In a call of [forward] that returns, in training as in inference
    mode: the first step is handed the start-of-sequence sentinel for every
    sequence of the batch and the encoder's hidden state.  At every time
    step [t], for every sequence [b]: the current input id is embedded by
    its row of the table; the recurrent stack advances by one step from the
    hidden state handed to the step, layer by layer through its cells, and
    the new states are the hidden state handed to the next step; the top new
    state is projected by the affine map of the linear layer to [vocab_size]
    entries; and the logits returned for [(b, t)] are the log-softmax of
    those entries, taken along the vocabulary.  The call of [step] itself is
    [step_spec] of its arguments. *)
Theorem decoder_recurrence (self : GruDecoder.t F) (m : noise F)
  (encoder_output encoder_hidden_state : list (list (list F)))
  (tgt_seqs : LongTensor2) (tgt_seq_lengths : list nat)
  (logits : list (list (list F))) (preds : list (list Z)) :
  wf self ->
  forward self m encoder_output encoder_hidden_state tgt_seqs tgt_seq_lengths
  = Ok (logits, preds) ->
  consumed self m encoder_output encoder_hidden_state tgt_seqs 0
  = Ok (repeat SOS_TOKEN_ID (length encoder_output), encoder_hidden_state)
  /\ forall t, t < max_seq_len self ->
       exists inputs h h',
         consumed self m encoder_output encoder_hidden_state tgt_seqs t = Ok (inputs, h)
         /\ length inputs = length encoder_output
         /\ step self (sub t m) t inputs h = Ok (step_spec self (sub t m) inputs h)
         /\ shape2 (length encoder_output) (vocab_size self)
                   (fst (step_spec self (sub t m) inputs h))
         /\ (forall b, b < length encoder_output ->
               nth t (nth b logits []) []
               = nth b (fst (step_spec self (sub t m) inputs h)) [])
         /\ h' = snd (step_spec self (sub t m) inputs h)
         /\ (exists inputs',
               consumed self m encoder_output encoder_hidden_state tgt_seqs (S t)
               = Ok (inputs', h'))
         /\ forall b, b < length encoder_output ->
              let e := nth (Z.to_nat (nth b inputs 0%Z))
                           (Embedding.data (Embedding.weight (embedding_lookup self))) [] in
              let new := advance (rnn self)
                           (GRU.dropout_active (rnn self) (training self))
                           (sub b (sub t m)) 0 e (map (fun hl => nth b hl []) h) in
              let z := map2 (fun w c => affine w c (nth (num_layers self - 1) new []))
                            (Linear.weight (linear_transform self))
                            (Linear.bias (linear_transform self)) in
              (forall k, k < num_layers self -> nth b (nth k h' []) [] = nth k new [])
              /\ length z = vocab_size self
              /\ nth t (nth b logits []) [] = map (log_softmax_at z) z.
Proof.
  intros W E. split; [reflexivity|]. intros t Ht.
  unfold forward in E. apply bind_ok in E as (sT & ET & E). injection E as <- <-.
  destruct (recurrence_steps self m encoder_output encoder_hidden_state tgt_seqs sT t
              W ET Ht) as (s & s1 & Et & E1 & Hb & Hh & Es & S1 & Eh & Hlog).
  exists (decoder_input s), (prev_hidden_state s),
         (snd (step_spec self (sub t m) (decoder_input s) (prev_hidden_state s))).
  splits; auto.
  - unfold consumed. now rewrite Et.
  - exists (decoder_input s1). unfold consumed. rewrite E1. cbn [bind]. now rewrite Eh.
  - intros b Hlt e new z.
    destruct (step_spec_entries self (sub t m) (decoder_input s) (prev_hidden_state s) b
                W Hh ltac:(lia)) as (Z1 & Z2 & Z3).
    splits; auto. rewrite (Hlog b Hlt). exact Z1.
Qed.
End RecurrenceClaim.

Section TrainingLoopClaim.
Context {F : Type} `{Float F} `{Tokens}.
Import GruDecoder DecoderWf.

(** C3, as amended.  In training mode, for every target tensor with at
    least [max_seq_len] columns, [forward] returns: the loop runs its
    [max_seq_len] iterations, none skipped and none added.  At every time
    step [t] below [max_seq_len] the call of [step] is made, on the
    teacher-forcing input of that step, and returns; its output is what the
    returned logits hold at time [t], and its hidden state is the one the
    next iteration starts from.  The logits are read off the state after
    [max_seq_len] iterations; they have shape
    [(batch, max_seq_len, vocab_size)], and the list of predictions is
    empty. *)
Theorem training_logits_length (self : GruDecoder.t F) (m : noise F)
  (encoder_output encoder_hidden_state : list (list (list F)))
  (tgt_seqs : LongTensor2) (tgt_seq_lengths : list nat) :
  wf self ->
  training self = true ->
  shape3 (num_layers self) (length encoder_output) (hidden_size self)
         encoder_hidden_state ->
  valid_target self (length encoder_output) tgt_seqs ->
  max_seq_len self <= size1 tgt_seqs ->
  exists logits,
    forward self m encoder_output encoder_hidden_state tgt_seqs tgt_seq_lengths
    = Ok (logits, [])
    /\ shape3 (length encoder_output) (max_seq_len self) (vocab_size self) logits
    /\ (exists s,
          loop self m tgt_seqs (max_seq_len self)
            (initial self encoder_output encoder_hidden_state) = Ok s
          /\ logits = transpose01 (length encoder_output) (GruDecoder.logits s))
    /\ forall t, t < max_seq_len self ->
         exists h out h',
           consumed self m encoder_output encoder_hidden_state tgt_seqs t
           = Ok (match t with
                 | 0 => repeat SOS_TOKEN_ID (length encoder_output)
                 | S t' => map (fun r => nth t' r 0%Z) (rows tgt_seqs)
                 end, h)
           /\ step self (sub t m) t
                (match t with
                 | 0 => repeat SOS_TOKEN_ID (length encoder_output)
                 | S t' => map (fun r => nth t' r 0%Z) (rows tgt_seqs)
                 end) h = Ok (out, h')
           /\ shape2 (length encoder_output) (vocab_size self) out
           /\ (forall b, b < length encoder_output ->
                 nth t (nth b logits []) [] = nth b out [])
           /\ exists inputs',
                consumed self m encoder_output encoder_hidden_state tgt_seqs (S t)
                = Ok (inputs', h').
Proof.
  intros W Htr Hh Htgt Hs.
  destruct (training_loop self m encoder_output encoder_hidden_state tgt_seqs
              W Htr Hh Htgt (max_seq_len self) ltac:(lia) Hs) as (sT & ET & _ & _ & Eg & Ep).
  exists (transpose01 (length encoder_output) (GruDecoder.logits sT)). splits.
  - unfold forward. rewrite ET. cbn [bind]. now rewrite Ep.
  - now apply transpose01_shape.
  - exists sT. split; auto.
  - intros t Ht.
    destruct (recurrence_steps self m encoder_output encoder_hidden_state tgt_seqs sT t
                W ET Ht) as (s & s1 & Et & E1 & Hb & _ & Es & S1 & Eh & Hlog).
    destruct (training_loop self m encoder_output encoder_hidden_state tgt_seqs
                W Htr Hh Htgt t ltac:(lia) ltac:(lia)) as (s' & Et' & Ei & _).
    assert (s' = s) by congruence. subst s'.
    change (match t with
            | 0 => repeat SOS_TOKEN_ID (length encoder_output)
            | S t' => map (fun r => nth t' r 0%Z) (rows tgt_seqs)
            end) with (teacher_input (length encoder_output) tgt_seqs t).
    rewrite <- Ei.
    exists (prev_hidden_state s),
           (fst (step_spec self (sub t m) (decoder_input s) (prev_hidden_state s))),
           (snd (step_spec self (sub t m) (decoder_input s) (prev_hidden_state s))).
    splits; auto.
    + unfold consumed. now rewrite Et.
    + exists (decoder_input s1). unfold consumed. rewrite E1. cbn [bind]. now rewrite Eh.
Qed.
End TrainingLoopClaim.

Section RecurrenceExample.
Import Example GruDecoder.
#[local] Existing Instance FloatZ.
#[local] Existing Instance tokens.

Lemma decoder_recurrence_witness :
  exists inputs h h',
    consumed decoder no_noise encoder_output encoder_hidden_state (tgt 3) 2
    = Ok (inputs, h)
    /\ step decoder (sub 2 no_noise) 2 inputs h
       = Ok (DecoderWf.step_spec decoder (sub 2 no_noise) inputs h)
    /\ (exists inputs',
          consumed decoder no_noise encoder_output encoder_hidden_state (tgt 3) 3
          = Ok (inputs', h'))
    /\ forall b, b < 2 ->
         let e := nth (Z.to_nat (nth b inputs 0%Z))
                    (Embedding.data (Embedding.weight (embedding_lookup decoder))) [] in
         let new := DecoderWf.advance (rnn decoder) false (sub b (sub 2 no_noise)) 0 e
                      (map (fun hl => nth b hl []) h) in
         nth b (nth 0 h' []) [] = nth 0 new [].
Proof.
  assert (E : exists logits,
             forward decoder no_noise encoder_output encoder_hidden_state (tgt 3) [3; 2]
             = Ok (logits, [])) by (eexists; vm_compute; reflexivity).
  destruct E as (logits & E).
  destruct (decoder_recurrence decoder no_noise encoder_output encoder_hidden_state
              (tgt 3) [3; 2] logits [] decoder_wf E) as (_ & Hrec).
  destruct (Hrec 2 ltac:(simpl; lia)) as (inputs & h & h' & E1 & _ & E2 & _ & _ & _ & E3 & E4).
  exists inputs, h, h'. splits; auto.
  intros b Hb. destruct (E4 b Hb) as (E5 & _). exact (E5 0 ltac:(simpl; lia)).
Defined.

Lemma training_logits_length_witness :
  exists logits,
    forward decoder no_noise encoder_output encoder_hidden_state (tgt 3) [3; 2]
    = Ok (logits, [])
    /\ shape3 2 3 6 logits
    /\ (exists s,
          loop decoder no_noise (tgt 3) 3 (initial decoder encoder_output encoder_hidden_state)
          = Ok s
          /\ logits = transpose01 2 (GruDecoder.logits s))
    /\ forall t, t < 3 ->
         exists h out h',
           consumed decoder no_noise encoder_output encoder_hidden_state (tgt 3) t
           = Ok (match t with
                 | 0 => repeat SOS_TOKEN_ID 2
                 | S t' => map (fun r => nth t' r 0%Z) (rows (tgt 3))
                 end, h)
           /\ step decoder (sub t no_noise) t
                (match t with
                 | 0 => repeat SOS_TOKEN_ID 2
                 | S t' => map (fun r => nth t' r 0%Z) (rows (tgt 3))
                 end) h = Ok (out, h')
           /\ shape2 2 6 out
           /\ (forall b, b < 2 -> nth t (nth b logits []) [] = nth b out [])
           /\ exists inputs',
                consumed decoder no_noise encoder_output encoder_hidden_state (tgt 3) (S t)
                = Ok (inputs', h').
Proof.
  apply (training_logits_length decoder no_noise encoder_output encoder_hidden_state
           (tgt 3) [3; 2] decoder_wf eq_refl encoder_hidden_state_shape
           (tgt_valid 3 ltac:(lia))); simpl; lia.
Defined.
End RecurrenceExample.

(** * Facts about packing and padding *)

Section PackFacts.
Context {F : Type} `{Float F}.
Import Rnn_utils.

Lemma map2_Forall_nth {A B C : Type} (f : A -> B -> C) (P : C -> Prop)
  (l : list A) (l' : list B) (da : A) (db : B) :
  (forall i, i < length l -> i < length l' -> P (f (nth i l da) (nth i l' db))) ->
  Forall P (map2 f l l').
Proof.
  revert l'; induction l as [|a l IH]; intros [|b l'] Hf; simpl; constructor.
  - apply (Hf 0); simpl; lia.
  - apply IH. intros i Hi Hi'. apply (Hf (S i)); simpl; lia.
Qed.

Lemma list_max_ge (l : list nat) (i : nat) : nth i l 0 <= list_max l.
Proof.
  revert i; induction l as [|a l IH]; intros [|i]; simpl; try lia.
  specialize (IH i). lia.
Qed.

Lemma list_max_le (l : list nat) (w : nat) :
  (forall i, i < length l -> nth i l 0 <= w) -> list_max l <= w.
Proof.
  induction l as [|a l IH]; simpl; intros Hl; [lia|].
  pose proof (Hl 0 ltac:(lia)) as H0. simpl in H0.
  assert (list_max l <= w) by (apply IH; intros i Hi; apply (Hl (S i)); lia).
  lia.
Qed.

Lemma pack_ok (input : list (list (list F))) (lengths : list nat) :
  1 <= length input ->
  length lengths = length input ->
  Forall (fun n => 1 <= n) lengths ->
  descending lengths = true ->
  (forall b, b < length input -> nth b lengths 0 <= length (nth b input [])) ->
  Forall (Forall (fun v => 1 <= length v)) input ->
  pack_padded_sequence input lengths
  = Ok {| sequences := map2 (fun n row => firstn n row) lengths input |}.
Proof.
  intros Hb Hl Hp Hd Hw Hv. unfold pack_padded_sequence.
  assert (Hrow : forall b, b < length input -> 1 <= length (nth b input [])).
  { intros b Hlt. specialize (Hw b Hlt). rewrite Forall_forall in Hp.
    specialize (Hp (nth b lengths 0) ltac:(apply nth_In; lia)). lia. }
  rewrite guard_ok; cbn [bind].
  2:{ apply andb_true_iff; split.
      - apply negb_true_iff, Nat.eqb_neq. lia.
      - apply forallb_Forall. apply Forall_forall. intros row Hin.
        destruct (In_nth input row [] Hin) as (b & Hlt & <-).
        apply andb_true_iff; split.
        + apply negb_true_iff, Nat.eqb_neq. specialize (Hrow b Hlt). lia.
        + apply forallb_Forall. rewrite Forall_forall in Hv.
          specialize (Hv _ Hin). eapply Forall_impl; [|exact Hv]. cbv beta.
          intros v Hlen. apply negb_true_iff, Nat.eqb_neq. lia. }
  rewrite guard_ok by now apply Nat.eqb_eq. cbn [bind].
  rewrite guard_ok; cbn [bind].
  2:{ apply forallb_Forall. eapply Forall_impl; [|exact Hp]. cbv beta.
      intros n Hn. apply Nat.ltb_lt. lia. }
  rewrite (guard_ok _ _ Hd). cbn [bind].
  rewrite guard_ok; [reflexivity|].
  apply forallb_Forall. apply (map2_Forall_nth _ _ _ _ 0 []).
  intros i Hi Hi'. apply Nat.leb_le. auto.
Qed.

Lemma padded_row (s : list (list F)) (v : list F) (T t : nat) :
  length s <= t -> t < T -> nth t (s ++ repeat v (T - length s)) [] = v.
Proof.
  intros H1 H2. rewrite app_nth2 by lia.
  apply nth_repeat_lt. lia.
Qed.

Lemma unpadded_row (s : list (list F)) (v : list F) (T t : nat) :
  t < length s -> nth t (s ++ repeat v (T - length s)) [] = nth t s [].
Proof. intros H1. now rewrite app_nth1. Qed.

Lemma hd_concat (l : list (list (list F))) :
  1 <= length l -> 1 <= length (nth 0 l []) ->
  hd [] (concat l) = nth 0 (nth 0 l []) [].
Proof.
  destruct l as [|[|v s] l]; simpl; intros; try lia. reflexivity.
Qed.
End PackFacts.

(** * Facts about the encoder *)

Section EncoderFacts.
Context {F : Type} `{Float F} `{Tokens}.
Import GruEncoder EncoderWf Rnn_utils.

Variables (self : GruEncoder.t F) (m : noise F).
Variables (x : list (list Z)) (seq_lengths : list nat).
Hypothesis W : wf self.
Hypothesis V : valid_batch self x seq_lengths.

Lemma rnn_directions : GRU.num_directions (rnn self) = directions self.
Proof. unfold GRU.num_directions, directions. now rewrite (wf_bidirectional self W). Qed.

(** The padded output before the directions are merged: the states of the
    last layer along each sequence, [directions * hidden_size] wide,
    followed by padding vectors of that width up to the longest length; and
    the stacked final states. *)
Lemma unmerged_ok :
  exists seqs h_n,
    unmerged self m x seq_lengths
    = Ok (map (fun s => s ++ repeat (repeat pad_value (directions self * hidden_size self))
                                    (list_max seq_lengths - length s)) seqs,
          h_n)
    /\ length seqs = length x
    /\ (forall b, b < length x -> length (nth b seqs []) = nth b seq_lengths 0)
    /\ Forall (Forall (fun v => length v = directions self * hidden_size self)) seqs
    /\ shape3 (directions self * num_layers self) (length x) (hidden_size self) h_n
    /\ h_n = snd (GRU.run_batch (rnn self) (training self) m
                    (packed_input self x seq_lengths)
                    (zeros3 (directions self * num_layers self) (length x)
                            (hidden_size self))).
Proof.
  pose proof (wf_table self W) as [Htl Htw].
  set (table := Embedding.data (Embedding.weight (embedding_lookup self))) in *.
  set (look := fun i : Z => nth (Z.to_nat i) table []).
  set (embedding := map (map look) x).
  assert (Hemb : Embedding.forward (embedding_lookup self) x = Ok embedding).
  { apply Embedding_forward_ok. fold table. rewrite Htl. apply (vb_ids _ _ _ V). }
  assert (Hel : length embedding = length x) by (subst embedding; now rewrite length_map).
  assert (Her : forall b, length (nth b embedding []) = length (nth b x [])).
  { intros b. subst embedding.
    change (@nil (list F)) with (map look []). now rewrite map_nth, length_map. }
  assert (Hew : Forall (Forall (fun v => length v = embedding_dim self)) embedding).
  { subst embedding. apply Forall_map. pose proof (vb_ids _ _ _ V) as Hids.
    eapply Forall_impl; [|exact Hids]. cbv beta. intros row Hrow. apply Forall_map.
    eapply Forall_impl; [|exact Hrow]. cbv beta. intros i Hi. subst look. cbv beta.
    eapply table_row_width; eauto. split; auto. }
  set (seqs_in := map2 (fun n (row : list (list F)) => firstn n row) seq_lengths embedding).
  assert (Hpack : pack_padded_sequence embedding seq_lengths
                  = Ok {| sequences := seqs_in |}).
  { apply pack_ok.
    - rewrite Hel. apply (vb_nonempty _ _ _ V).
    - rewrite Hel. apply (vb_count _ _ _ V).
    - apply (vb_positive _ _ _ V).
    - apply (vb_sorted _ _ _ V).
    - intros b Hb. rewrite Her. apply (vb_within _ _ _ V). lia.
    - eapply Forall_impl; [|exact Hew]. cbv beta. intros row Hrow.
      eapply Forall_impl; [|exact Hrow]. cbv beta. intros v ->.
      apply (wf_dim_pos self W). }
  assert (Hsl : length seqs_in = length x).
  { subst seqs_in. rewrite map2_length, Hel, (vb_count _ _ _ V). apply Nat.min_id. }
  assert (Hsn : forall b, b < length x ->
                nth b seqs_in [] = firstn (nth b seq_lengths 0) (nth b embedding [])).
  { intros b Hb. subst seqs_in. apply map2_nth.
    - rewrite (vb_count _ _ _ V). lia.
    - lia. }
  assert (Hci : GRU.check_input (rnn self) seqs_in = true).
  { unfold GRU.check_input. apply forallb_Forall. apply Forall_forall. intros s Hin.
    destruct (In_nth seqs_in s [] Hin) as (b & Hb & <-). rewrite Hsn by lia.
    apply forallb_Forall, Forall_firstn.
    rewrite Forall_forall in Hew.
    specialize (Hew (nth b embedding []) ltac:(apply nth_In; lia)).
    eapply Forall_impl; [|exact Hew]. cbv beta. intros v Hv. apply has_width_iff.
    now rewrite (wf_input_size self W). }
  pose proof (run_batch_spec (rnn self) (training self) m seqs_in
                (zeros3 (GRU.num_directions (rnn self) * GRU.num_layers (rnn self))
                        (length seqs_in) (GRU.hidden_size (rnn self)))
                (wf_cell self W) (zeros3_shape _ _ _)) as (R1 & R2 & R3 & R4).
  set (R := GRU.run_batch (rnn self) (training self) m seqs_in _) in *.
  rewrite rnn_directions, (wf_num_layers self W), (wf_hidden_size self W), Hsl in *.
  specialize (R3 (wf_layers_pos self W)).
  assert (Hlen : forall b, b < length x -> length (nth b (fst R) []) = nth b seq_lengths 0).
  { intros b Hb. rewrite R2, Hsn, length_firstn, Her by lia.
    pose proof (vb_within _ _ _ V b Hb). lia. }
  assert (Hlens : map (@length _) (fst R) = seq_lengths).
  { apply (nth_ext _ _ 0 0).
    - now rewrite length_map, R1, (vb_count _ _ _ V).
    - intros b Hb. rewrite length_map, R1 in Hb.
      change 0 with (length (@nil (list F))) at 1. rewrite map_nth. now apply Hlen. }
  assert (Hwidth : length (hd [] (concat (fst R))) = directions self * hidden_size self).
  { pose proof (vb_nonempty _ _ _ V) as Hb.
    pose proof (vb_positive _ _ _ V) as Hp. rewrite Forall_forall in Hp.
    specialize (Hp (nth 0 seq_lengths 0)
                   ltac:(apply nth_In; rewrite (vb_count _ _ _ V); lia)).
    rewrite hd_concat by (rewrite ?Hlen, ?R1; lia).
    rewrite Forall_forall in R3.
    specialize (R3 (nth 0 (fst R) []) ltac:(apply nth_In; lia)).
    apply nth_width; auto. rewrite Hlen; lia. }
  exists (fst R), (snd R). splits; auto.
  - unfold unmerged. rewrite Hemb. cbn [bind]. rewrite Hpack. cbn [bind].
    unfold gru_packed. cbn [sequences].
    rewrite (GRU_forward_none _ _ _ _ Hci). cbn [bind]. fold R.
    rewrite (surjective_pairing R) at 1. cbn [bind].
    unfold pad_packed_sequence. cbn [sequences].
    now rewrite Hlens, Hwidth.
  - subst R. rewrite rnn_directions, (wf_num_layers self W), (wf_hidden_size self W), Hsl.
    reflexivity.
Qed.
End EncoderFacts.

Section MergeFacts.
Context {F : Type} `{Float F} `{Tokens}.
Import GruEncoder EncoderWf.

Lemma forward_unmerged (self : GruEncoder.t F) (m : noise F) (x : list (list Z))
  (seq_lengths : list nat) :
  forward self m x seq_lengths
  = bind (unmerged self m x seq_lengths)
         (fun r => if bidirectional self
                   then Ok (merge_output self (fst r), merge_hidden self (snd r))
                   else Ok r).
Proof.
  unfold forward, unmerged.
  destruct (Embedding.forward (embedding_lookup self) x) as [e|]; cbn [bind]; auto.
  destruct (Rnn_utils.pack_padded_sequence e seq_lengths) as [p|]; cbn [bind]; auto.
  destruct (Rnn_utils.gru_packed (rnn self) (training self) m p) as [[o h]|];
    cbn [bind]; auto.
Qed.

(** The two halves of a vector of width [2 * n], added entry by entry. *)
Lemma halves_sum (n : nat) (v : list F) (d : F) :
  length v = 2 * n ->
  length (add1 (firstn n v) (skipn n v)) = n
  /\ forall j, j < n ->
       nth j (add1 (firstn n v) (skipn n v)) d = fadd (nth j v d) (nth (n + j) v d).
Proof.
  intros Hv. unfold add1. split.
  - rewrite map2_length, length_firstn, length_skipn. lia.
  - intros j Hj. rewrite (map2_nth fadd _ _ j d d d).
    + now rewrite nth_firstn, nth_skipn, (proj2 (Nat.ltb_lt j n) Hj).
    + rewrite length_firstn. lia.
    + rewrite length_skipn. lia.
Qed.

Lemma map2_repeat {A B C : Type} (f : A -> B -> C) (a : A) (b : B) (n : nat) :
  map2 f (repeat a n) (repeat b n) = repeat (f a b) n.
Proof. induction n; simpl; congruence. Qed.

Lemma halves_sum_repeat (n : nat) (p : F) :
  add1 (firstn n (repeat p (2 * n))) (skipn n (repeat p (2 * n))) = repeat (fadd p p) n.
Proof.
  replace (2 * n) with (n + n) by lia. rewrite repeat_app.
  rewrite firstn_app, skipn_app, repeat_length, Nat.sub_diag.
  rewrite firstn_all2, skipn_all2 by (rewrite repeat_length; lia).
  simpl. rewrite app_nil_r. apply map2_repeat.
Qed.

Lemma add2_shape (n k : nat) (a b : list (list F)) :
  shape2 n k a -> shape2 n k b -> shape2 n k (add2 a b).
Proof.
  intros [Ha Hwa] [Hb Hwb]. unfold add2. split.
  - rewrite map2_length. lia.
  - apply map2_Forall. intros u v Hu Hv. unfold add1. rewrite map2_length.
    rewrite Forall_forall in Hwa, Hwb. rewrite (Hwa u Hu), (Hwb v Hv). apply Nat.min_id.
Qed.

(** [hidden_state[:n] + hidden_state[n:]] on [2 * n] stacked states: entry
    [l] of the sum is entry [l] plus entry [n + l] of the stack. *)
Lemma merge_hidden_spec (self : GruEncoder.t F) (B : nat) (h : list (list (list F))) :
  shape3 (2 * num_layers self) B (hidden_size self) h ->
  shape3 (num_layers self) B (hidden_size self) (merge_hidden self h)
  /\ forall l, l < num_layers self ->
       nth l (merge_hidden self h) [] = add2 (nth l h []) (nth (num_layers self + l) h []).
Proof.
  intros [Hl Hs]. unfold merge_hidden, add3. split; [split|].
  - rewrite map2_length, length_firstn, length_skipn. lia.
  - apply map2_Forall. intros a b Ha Hb.
    pose proof (Forall_firstn _ (num_layers self) _ Hs) as Hf.
    pose proof (Forall_skipn _ (num_layers self) _ Hs) as Hk.
    rewrite Forall_forall in Hf, Hk. apply add2_shape; auto.
  - intros l Hlt. rewrite (map2_nth add2 _ _ l [] [] []).
    + now rewrite nth_firstn, nth_skipn, (proj2 (Nat.ltb_lt l _) Hlt).
    + rewrite length_firstn. lia.
    + rewrite length_skipn. lia.
Qed.
End MergeFacts.

Section EncoderPadding.
Context {F : Type} `{Float F} `{Tokens}.
Import GruEncoder EncoderWf.

Variables (self : GruEncoder.t F) (m : noise F).
Variables (x : list (list Z)) (seq_lengths : list nat).
Hypothesis W : wf self.
Hypothesis V : valid_batch self x seq_lengths.

(** The unmerged output is a full tensor, and past the length of a sequence
    it holds the padding value in every feature. *)
Lemma unmerged_padded :
  exists raw_out raw_hid,
    unmerged self m x seq_lengths = Ok (raw_out, raw_hid)
    /\ shape3 (length x) (list_max seq_lengths) (directions self * hidden_size self) raw_out
    /\ shape3 (directions self * num_layers self) (length x) (hidden_size self) raw_hid
    /\ forall b t, b < length x -> nth b seq_lengths 0 <= t -> t < list_max seq_lengths ->
         nth t (nth b raw_out []) []
         = repeat pad_value (directions self * hidden_size self).
Proof.
  destruct (unmerged_ok self m x seq_lengths W V)
    as (seqs & h_n & E & Hl & Hn & Hw & Hh & _).
  set (padf := fun s : list (list F) =>
                 s ++ repeat (repeat pad_value (directions self * hidden_size self))
                             (list_max seq_lengths - length s)) in *.
  exists (map padf seqs), h_n. splits; auto.
  - split; [now rewrite length_map|].
    apply Forall_map, Forall_forall. intros s Hin.
    destruct (In_nth seqs s [] Hin) as (b & Hb & <-). subst padf. cbv beta. split.
    + rewrite length_app, repeat_length, Hn by lia.
      pose proof (list_max_ge seq_lengths b). lia.
    + apply Forall_app. split.
      * rewrite Forall_forall in Hw. apply Hw, nth_In, Hb.
      * apply Forall_forall. intros v Hv. apply repeat_spec in Hv. subst v.
        apply repeat_length.
  - intros b t Hb Ht1 Ht2.
    rewrite (nth_indep _ [] (padf [])) by (rewrite length_map; lia).
    rewrite map_nth. subst padf. cbv beta. apply padded_row; auto. rewrite Hn; lia.
Qed.
End EncoderPadding.

(** * Encoder: merging the directions *)

Section EncoderClaims.
Context {F : Type} `{Float F} `{Tokens}.
Import GruEncoder EncoderWf.

Lemma merge_output_entry (self : GruEncoder.t F) (n0 n1 : nat)
  (raw : list (list (list F))) (b t : nat) :
  shape3 n0 n1 (2 * hidden_size self) raw -> b < n0 -> t < n1 ->
  nth t (nth b (merge_output self raw) []) []
  = add1 (firstn (hidden_size self) (nth t (nth b raw []) []))
         (skipn (hidden_size self) (nth t (nth b raw []) [])).
Proof.
  intros [Hl Hs] Hb Ht. unfold merge_output.
  set (f := fun v : list F => add1 (firstn (hidden_size self) v) (skipn (hidden_size self) v)).
  replace (nth b (map (map f) raw) []) with (map f (nth b raw []))
    by (symmetry; apply (map_nth (map f) raw [] b)).
  rewrite (nth_indep _ [] (f [])); [now rewrite map_nth|].
  rewrite length_map. rewrite Forall_forall in Hs.
  destruct (Hs (nth b raw []) ltac:(apply nth_In; lia)) as [-> _]. exact Ht.
Qed.

Lemma merge_output_shape (self : GruEncoder.t F) (n0 n1 : nat)
  (raw : list (list (list F))) :
  shape3 n0 n1 (2 * hidden_size self) raw ->
  shape3 n0 n1 (hidden_size self) (merge_output self raw).
Proof.
  intros [Hl Hs]. unfold merge_output. split; [now rewrite length_map|].
  apply Forall_map. eapply Forall_impl; [|exact Hs]. cbv beta.
  intros row [Hr Hw]. split; [now rewrite length_map|].
  apply Forall_map. eapply Forall_impl; [|exact Hw]. cbv beta.
  intros v Hv. apply (halves_sum (hidden_size self) v fzero Hv).
Qed.

(** C5, as amended.  On a well-formed encoder and batch, [forward] returns
    an output of shape [(batch, T, hidden_size)], [T] being the longest true
    length of the batch, which is never more than the padded width of the
    input, and a hidden state of shape [(num_layers, batch, hidden_size)],
    whether the encoder is bidirectional or not; and when it is, every
    output entry is the sum of the entry of the forward half and the entry
    of the backward half of the unmerged output at the same feature. *)
Theorem encoder_shapes_and_sum (self : GruEncoder.t F) (m : noise F)
  (x : list (list Z)) (seq_lengths : list nat) :
  wf self ->
  valid_batch self x seq_lengths ->
  exists out hid raw_out raw_hid,
    forward self m x seq_lengths = Ok (out, hid)
    /\ unmerged self m x seq_lengths = Ok (raw_out, raw_hid)
    /\ shape3 (length x) (list_max seq_lengths) (hidden_size self) out
    /\ shape3 (num_layers self) (length x) (hidden_size self) hid
    /\ (bidirectional self = true ->
        shape3 (length x) (list_max seq_lengths) (2 * hidden_size self) raw_out
        /\ forall b t j,
             b < length x -> t < list_max seq_lengths -> j < hidden_size self ->
             nth j (nth t (nth b out []) []) fzero
             = fadd (nth j (nth t (nth b raw_out []) []) fzero)
                    (nth (hidden_size self + j) (nth t (nth b raw_out []) []) fzero))
    /\ (forall max_len, Forall (fun row => length row = max_len) x ->
          list_max seq_lengths <= max_len).
Proof.
  intros W V.
  assert (Hmax : forall max_len, Forall (fun row => length row = max_len) x ->
                   list_max seq_lengths <= max_len).
  { intros w Hw. apply list_max_le. intros i Hi. rewrite (vb_count _ _ _ V) in Hi.
    pose proof (vb_within _ _ _ V i Hi) as Hin. rewrite Forall_forall in Hw.
    rewrite (Hw (nth i x [])) in Hin by (apply nth_In; lia). exact Hin. }
  destruct (unmerged_padded self m x seq_lengths W V) as (raw_out & raw_hid & E & So & Sh & _).
  rewrite forward_unmerged, E. cbn [bind fst snd]. unfold directions in *.
  destruct (bidirectional self) eqn:Eb.
  - exists (merge_output self raw_out), (merge_hidden self raw_hid), raw_out, raw_hid.
    splits; auto.
    + now apply merge_output_shape.
    + now apply merge_hidden_spec.
    + intros _. split; [exact So|]. intros b t j Hb Ht Hj.
      rewrite (merge_output_entry self _ _ raw_out b t So Hb Ht).
      apply halves_sum; auto.
      destruct So as [Sl Ss]. rewrite Forall_forall in Ss.
      destruct (Ss (nth b raw_out []) ltac:(apply nth_In; lia)) as [Hr Hw].
      rewrite Forall_forall in Hw. apply Hw, nth_In. lia.
  - rewrite !Nat.mul_1_l in *. exists raw_out, raw_hid, raw_out, raw_hid.
    splits; auto. discriminate.
Qed.

(** C9, as amended.  On a bidirectional encoder, every output position past
    the true length of its sequence holds, in each of its [hidden_size]
    features, the padding value added to itself: the fill of the forward
    half plus the fill of the backward half.  It is the padding value itself
    exactly when adding the padding value to itself gives the padding value
    back, and something else otherwise. *)
Theorem bidirectional_padding_doubled (self : GruEncoder.t F) (m : noise F)
  (x : list (list Z)) (seq_lengths : list nat) :
  wf self ->
  valid_batch self x seq_lengths ->
  bidirectional self = true ->
  exists out hid,
    forward self m x seq_lengths = Ok (out, hid)
    /\ forall b t,
         b < length x -> nth b seq_lengths 0 <= t -> t < list_max seq_lengths ->
         nth t (nth b out []) [] = repeat (fadd pad_value pad_value) (hidden_size self)
         /\ (1 <= hidden_size self ->
             (nth t (nth b out []) [] = repeat pad_value (hidden_size self)
              <-> fadd pad_value pad_value = pad_value)).
Proof.
  intros W V Eb.
  destruct (unmerged_padded self m x seq_lengths W V) as (raw_out & raw_hid & E & So & _ & Hp).
  rewrite forward_unmerged, E. cbn [bind fst snd]. unfold directions in *.
  rewrite Eb in *.
  exists (merge_output self raw_out), (merge_hidden self raw_hid). split; auto.
  intros b t Hb Ht1 Ht2.
  rewrite (merge_output_entry self _ _ raw_out b t So Hb Ht2).
  rewrite (Hp b t Hb Ht1 Ht2), halves_sum_repeat.
  split; [reflexivity|]. intros HH. split.
  - destruct (hidden_size self) as [|n]; [lia|]. simpl. intros Heq. now injection Heq.
  - now intros ->.
Qed.
End EncoderClaims.

(** * The layout of the stacked final states *)

Section Layout.
Context {F : Type} `{Float F}.
Import EncoderWf.

Lemma firstn_repeat_mul {A : Type} (z : A) (d n : nat) :
  firstn d (repeat z (d * S n)) = repeat z d.
Proof.
  replace (d * S n) with (d + d * n) by lia. rewrite repeat_app, firstn_app.
  rewrite repeat_length, Nat.sub_diag, firstn_all2 by (rewrite repeat_length; lia).
  simpl. apply app_nil_r.
Qed.

Lemma skipn_repeat_mul {A : Type} (z : A) (d n : nat) :
  skipn d (repeat z (d * S n)) = repeat z (d * n).
Proof.
  replace (d * S n) with (d + d * n) by lia. rewrite repeat_app, skipn_app.
  rewrite repeat_length, Nat.sub_diag, skipn_all2 by (rewrite repeat_length; lia).
  reflexivity.
Qed.

(** The final states of one layer, in the order the layer returns them. *)
Lemma layer_finals (g : GRU.t F) (l k : nat) (z : list F) (xs : list (list F)) :
  k < GRU.num_directions g ->
  nth k (snd (GRU.layer g l (repeat z (GRU.num_directions g)) xs)) []
  = GRU.final g l (direction_at k) z xs.
Proof.
  unfold GRU.layer, GRU.num_directions. destruct (GRU.bidirectional g); intros Hk.
  - destruct k as [|[|k]]; try lia; reflexivity.
  - destruct k as [|k]; try lia; reflexivity.
Qed.

Lemma layer_finals_length (g : GRU.t F) (l : nat) (h0 : list (list F)) (xs : list (list F)) :
  length (snd (GRU.layer g l h0 xs)) = GRU.num_directions g.
Proof. unfold GRU.layer, GRU.num_directions. now destruct (GRU.bidirectional g). Qed.

(** The stack returns the final states layer by layer, and within a layer
    direction by direction. *)
Lemma layers_finals (g : GRU.t F) (drop : bool) (m : noise F) (xs : list (list F)) (n : nat) :
  forall l0 j k, j < n -> k < GRU.num_directions g ->
    nth (GRU.num_directions g * j + k)
        (snd (GRU.layers g drop m n l0
                (repeat (zeros1 (GRU.hidden_size g)) (GRU.num_directions g * n))
                (GRU.layer_input g drop m l0 xs))) []
    = GRU.final g (l0 + j) (direction_at k) (zeros1 (GRU.hidden_size g))
        (GRU.layer_input g drop m (l0 + j) xs).
Proof.
  induction n as [|n IH]; intros l0 j k Hj Hk; [lia|].
  cbn [GRU.layers]. rewrite firstn_repeat_mul, skipn_repeat_mul.
  pose proof (layer_finals g l0 k (zeros1 (GRU.hidden_size g))
                (GRU.layer_input g drop m l0 xs) Hk) as Hfin.
  pose proof (layer_finals_length g l0 (repeat (zeros1 (GRU.hidden_size g))
                                               (GRU.num_directions g))
                (GRU.layer_input g drop m l0 xs)) as Hlen.
  destruct (GRU.layer g l0 (repeat (zeros1 (GRU.hidden_size g)) (GRU.num_directions g))
              (GRU.layer_input g drop m l0 xs)) as [out fin] eqn:EL.
  cbn [fst snd] in *.
  destruct j as [|j].
  - destruct (GRU.layers g drop m n (S l0) _ _) as [o fs]. cbn [snd].
    rewrite Nat.mul_0_r, Nat.add_0_l, Nat.add_0_r. rewrite app_nth1 by lia. exact Hfin.
  - assert (Hn : (n =? 0) = false) by (apply Nat.eqb_neq; lia).
    rewrite Hn, andb_true_r.
    assert (Hin : (if drop then dropout_seq (sub l0 m) out else out)
                  = GRU.layer_input g drop m (S l0) xs).
    { cbn [GRU.layer_input]. now rewrite EL. }
    rewrite Hin. specialize (IH (S l0) j k ltac:(lia) Hk).
    destruct (GRU.layers g drop m n (S l0) _ _) as [o fs]. cbn [snd] in *.
    rewrite app_nth2 by nia.
    replace (GRU.num_directions g * S j + k - length fin)
      with (GRU.num_directions g * j + k) by nia.
    rewrite IH. now replace (S l0 + j) with (l0 + S j) by lia.
Qed.

Lemma map_imap {A B C : Type} (g : B -> C) (f : nat -> A -> B) (l : list A) :
  map g (imap f l) = imap (fun b a => g (f b a)) l.
Proof.
  unfold imap. generalize 0. induction l as [|a l IH]; intros i; simpl; auto.
  now rewrite IH.
Qed.

Lemma imap_from_ext_lt {A B : Type} (f g : nat -> A -> B) (l : list A) (i : nat) :
  (forall k a, i <= k -> k < i + length l -> f k a = g k a) ->
  imap_from i f l = imap_from i g l.
Proof.
  revert i; induction l as [|a l IH]; intros i E; simpl; auto.
  rewrite E by (simpl; lia). f_equal. apply IH. intros k a' H1 H2. apply E; simpl; lia.
Qed.

Lemma zeros3_column (n B w b : nat) :
  b < B ->
  map (fun hl : list (list F) => nth b hl []) (zeros3 n B w) = repeat (zeros1 w) n.
Proof.
  intros Hb. unfold zeros3. rewrite map_repeat. f_equal.
  unfold zeros2. now apply nth_repeat_lt.
Qed.

(** Entry [directions * l + k] of [h_n] is the final state of layer [l] in
    direction [k]. *)
Lemma run_batch_finals (g : GRU.t F) (training : bool) (m : noise F)
  (input : list (list (list F))) (l k : nat) :
  l < GRU.num_layers g -> k < GRU.num_directions g ->
  nth (GRU.num_directions g * l + k)
      (snd (GRU.run_batch g training m input
              (zeros3 (GRU.num_directions g * GRU.num_layers g) (length input)
                      (GRU.hidden_size g)))) []
  = GRU.final_state g training m input l (direction_at k).
Proof.
  intros Hl Hk. unfold GRU.run_batch. cbn [snd].
  set (per_seq := imap _ input).
  rewrite (nth_indep _ [] (map (fun r => nth 0 (snd r) []) per_seq))
    by (rewrite length_map, length_seq; nia).
  rewrite (map_nth (fun k => map (fun r => nth k (snd r) []) per_seq)).
  rewrite seq_nth by nia. cbn [Nat.add].
  subst per_seq. rewrite map_imap. unfold GRU.final_state, imap.
  apply imap_from_ext_lt. intros b xs _ Hb. cbn [Nat.add] in Hb.
  rewrite zeros3_column by exact Hb.
  apply (layers_finals g _ (sub b m) xs (GRU.num_layers g) 0 l k Hl Hk).
Qed.
End Layout.

Section HiddenMerge.
Context {F : Type} `{Float F} `{Tokens}.
Import GruEncoder EncoderWf.

Lemma packed_input_length (self : GruEncoder.t F) (x : list (list Z))
  (seq_lengths : list nat) :
  length seq_lengths = length x -> length (packed_input self x seq_lengths) = length x.
Proof.
  intros E. unfold packed_input. rewrite map2_length, length_map, E. apply Nat.min_id.
Qed.

(** What [forward] returns as hidden state on a bidirectional encoder:
    entry [l] is entry [l] plus entry [num_layers + l] of the stacked final
    states, each read through the layout of [h_n]. *)
Lemma merged_hidden_layout (self : GruEncoder.t F) (m : noise F)
  (x : list (list Z)) (seq_lengths : list nat) :
  wf self ->
  valid_batch self x seq_lengths ->
  bidirectional self = true ->
  exists out hid,
    forward self m x seq_lengths = Ok (out, hid)
    /\ length hid = num_layers self
    /\ forall l, l < num_layers self ->
         nth l hid []
         = add2 (stacked_final self m x seq_lengths l)
                (stacked_final self m x seq_lengths (num_layers self + l)).
Proof.
  intros W V Eb.
  destruct (unmerged_ok self m x seq_lengths W V) as (seqs & h_n & E & _ & _ & _ & Sh & Eh).
  rewrite forward_unmerged, E. cbn [bind fst snd]. rewrite Eb.
  exists (merge_output self
            (map (fun s => s ++ repeat (repeat pad_value (directions self * hidden_size self))
                                       (list_max seq_lengths - length s)) seqs)),
         (merge_hidden self h_n).
  assert (HD : directions self = 2) by (unfold directions; now rewrite Eb).
  rewrite HD in Sh.
  destruct (merge_hidden_spec self (length x) h_n Sh) as ([Hl _] & Hn).
  splits; auto. intros l Hlt. rewrite (Hn l Hlt).
  assert (Hst : forall k, k < 2 * num_layers self ->
                  nth k h_n [] = stacked_final self m x seq_lengths k).
  { intros k Hk. rewrite Eh, HD. unfold stacked_final.
    pose proof (run_batch_finals (rnn self) (training self) m
                  (packed_input self x seq_lengths) (k / 2) (k mod 2)) as Hf.
    rewrite (rnn_directions self W), HD, (wf_num_layers self W), (wf_hidden_size self W),
      (packed_input_length self x seq_lengths (vb_count _ _ _ V)) in Hf.
    rewrite <- (Nat.div_mod_eq k 2) in Hf. apply Hf.
    - apply Nat.Div0.div_lt_upper_bound. lia.
    - apply Nat.mod_upper_bound. lia. }
  rewrite !Hst by lia. reflexivity.
Qed.

(** With a single layer the merged hidden state is what C2 says: the
    forward final state plus the backward final state of the layer. *)
Lemma one_layer_hidden_merge (self : GruEncoder.t F) (m : noise F)
  (x : list (list Z)) (seq_lengths : list nat) :
  wf self ->
  valid_batch self x seq_lengths ->
  bidirectional self = true ->
  num_layers self = 1 ->
  exists out,
    forward self m x seq_lengths = Ok (out, layerwise_sum self m x seq_lengths).
Proof.
  intros W V Eb EL.
  destruct (merged_hidden_layout self m x seq_lengths W V Eb) as (out & hid & E & Hl & Hn).
  exists out. rewrite E. do 2 f_equal.
  rewrite EL in *. specialize (Hn 0 ltac:(lia)).
  destruct hid as [|h0 [|h1 hid]]; simpl in Hl; try lia.
  simpl in Hn. unfold layerwise_sum. rewrite EL. simpl. now rewrite Hn.
Qed.
End HiddenMerge.

Section EncoderExamples.
Import Example GruEncoder EncoderWf.
#[local] Existing Instance FloatZ.
#[local] Existing Instance tokens.

Lemma encoder_wf (bidirectional : bool) (num_layers : nat) :
  1 <= num_layers -> wf (encoder bidirectional num_layers).
Proof.
  intros Hl. constructor; try reflexivity; try (cbn; lia).
  - now apply toy_cell_ok.
  - split; [reflexivity|]. repeat constructor.
Qed.

Lemma batch_valid (bidirectional : bool) (num_layers : nat) :
  valid_batch (encoder bidirectional num_layers) x seq_lengths.
Proof.
  constructor; try reflexivity; try (cbn; lia).
  - repeat constructor; cbv; try discriminate; reflexivity.
  - repeat constructor.
  - intros [|[|b]]; cbn; lia.
Qed.

Lemma encoder_shapes_and_sum_witness :
  exists out hid raw_out raw_hid,
    forward (encoder true 2) no_noise x seq_lengths = Ok (out, hid)
    /\ unmerged (encoder true 2) no_noise x seq_lengths = Ok (raw_out, raw_hid)
    /\ shape3 2 3 2 out
    /\ shape3 2 2 2 hid
    /\ (true = true ->
        shape3 2 3 4 raw_out
        /\ forall b t j, b < 2 -> t < 3 -> j < 2 ->
             nth j (nth t (nth b out []) []) 0%Z
             = (nth j (nth t (nth b raw_out []) []) 0
                + nth (2 + j) (nth t (nth b raw_out []) []) 0)%Z)
    /\ (forall max_len, Forall (fun row => length row = max_len) x -> 3 <= max_len).
Proof.
  apply (encoder_shapes_and_sum (encoder true 2) no_noise x seq_lengths
           (encoder_wf true 2 ltac:(lia)) (batch_valid true 2)).
Defined.

Lemma wide_batch_valid (bidirectional : bool) (num_layers : nat) :
  valid_batch (encoder bidirectional num_layers) x_wide seq_lengths.
Proof.
  constructor; try reflexivity; try (cbn; lia).
  - repeat constructor; cbv; try discriminate; reflexivity.
  - repeat constructor.
  - intros [|[|b]]; cbn; lia.
Qed.

(** C5 as stated fails when [max_len] is the padded width of the input: on
    a batch padded to width 5 whose longest sequence has length 3, the
    output has 3 time steps, bidirectional or not. *)
Lemma padded_width_not_kept :
  Forall (fun row => length row = 5) x_wide
  /\ (exists out hid,
        forward (encoder true 1) no_noise x_wide seq_lengths = Ok (out, hid)
        /\ shape3 2 3 2 out /\ ~ shape3 2 5 2 out)
  /\ (exists out hid,
        forward (encoder false 1) no_noise x_wide seq_lengths = Ok (out, hid)
        /\ shape3 2 3 2 out /\ ~ shape3 2 5 2 out).
Proof.
  split; [repeat constructor|].
  split; do 2 eexists; (split; [vm_compute; reflexivity|]);
    (split; [split; [reflexivity|repeat constructor]|]);
    intros [_ Hs]; inversion Hs as [|? ? [Hl _] _]; discriminate.
Qed.

Lemma bidirectional_padding_doubled_witness :
  exists out hid,
    forward (encoder true 2) no_noise x seq_lengths = Ok (out, hid)
    /\ forall b t, b < 2 -> nth b seq_lengths 0 <= t -> t < 3 ->
         nth t (nth b out []) [] = repeat (0 + 0)%Z 2
         /\ (1 <= 2 -> (nth t (nth b out []) [] = repeat 0%Z 2 <-> (0 + 0 = 0)%Z)).
Proof.
  apply (bidirectional_padding_doubled (encoder true 2) no_noise x seq_lengths
           (encoder_wf true 2 ltac:(lia)) (batch_valid true 2) eq_refl).
Defined.

(** C9 as stated fails where the padding id is zero: the position past the
    end of the second sequence holds the padding value itself. *)
Lemma padding_position_holds_padding_value :
  PAD_TOKEN_ID = 0%Z
  /\ nth 1 seq_lengths 0 = 2
  /\ exists out hid,
       forward (encoder true 1) no_noise x seq_lengths = Ok (out, hid)
       /\ nth 2 (nth 1 out []) [] = repeat pad_value (hidden_size (encoder true 1)).
Proof.
  split; [reflexivity|]. split; [reflexivity|].
  do 2 eexists. split; [vm_compute; reflexivity|]. reflexivity.
Qed.

(** With the padding id 3 the same position holds 6, in each feature, on the
    bidirectional encoder and 3 on the other. *)
Lemma padding_position_doubled_example :
  @PAD_TOKEN_ID other_tokens = 3%Z
  /\ (exists enc out hid,
        @GruEncoder.init Z FloatZ other_tokens (encoder_params true 1) table toy_cell
        = Ok enc
        /\ @forward Z FloatZ other_tokens enc no_noise x seq_lengths = Ok (out, hid)
        /\ nth 2 (nth 1 out []) [] = [6; 6]%Z)
  /\ (exists enc out hid,
        @GruEncoder.init Z FloatZ other_tokens (encoder_params false 1) table toy_cell
        = Ok enc
        /\ @forward Z FloatZ other_tokens enc no_noise x seq_lengths = Ok (out, hid)
        /\ nth 2 (nth 1 out []) [] = [3; 3]%Z).
Proof.
  split; [reflexivity|].
  split; do 3 eexists; (split; [vm_compute; reflexivity|]);
    (split; [vm_compute; reflexivity|]); reflexivity.
Qed.

(** C2 on a bidirectional encoder of two layers: the hidden state returned
    pairs the two forward states with each other and the two backward
    states with each other, which is not the sum, layer by layer, of the
    layer's forward and backward final states. *)
Theorem two_layer_hidden_merge :
  let enc := encoder true 2 in
  let final := GRU.final_state (rnn enc) (training enc) no_noise
                 (packed_input enc x seq_lengths) in
  exists out hid,
    forward enc no_noise x seq_lengths = Ok (out, hid)
    /\ hid = [add2 (final 0 GRU.Forward) (final 1 GRU.Forward);
              add2 (final 0 GRU.Backward) (final 1 GRU.Backward)]
    /\ layerwise_sum enc no_noise x seq_lengths
       = [add2 (final 0 GRU.Forward) (final 0 GRU.Backward);
          add2 (final 1 GRU.Forward) (final 1 GRU.Backward)]
    /\ hid = [[[395; 395]; [94; 94]]; [[364; 364]; [95; 95]]]%Z
    /\ layerwise_sum enc no_noise x seq_lengths
       = [[[44; 44]; [18; 18]]; [[715; 715]; [171; 171]]]%Z
    /\ hid <> layerwise_sum enc no_noise x seq_lengths.
Proof.
  intros enc final. do 2 eexists. split; [vm_compute; reflexivity|].
  splits; try (vm_compute; reflexivity).
  vm_compute. discriminate.
Qed.
End EncoderExamples.

(** * Further properties: the encoder *)

Section EncoderStages.
Context {F : Type} `{Float F} `{Tokens}.
Import GruEncoder EncoderWf Rnn_utils.

(** Embedding and packing, for a table whose rows are [w] wide. *)
Lemma packed_stage (self : GruEncoder.t F) (x : list (list Z)) (seq_lengths : list nat)
  (w : nat) :
  let table := Embedding.data (Embedding.weight (embedding_lookup self)) in
  Forall (Forall (valid_id (length table))) x ->
  Forall (fun r => length r = w) table ->
  1 <= w ->
  1 <= length x ->
  length seq_lengths = length x ->
  Forall (fun n => 1 <= n) seq_lengths ->
  descending seq_lengths = true ->
  (forall b, b < length x -> nth b seq_lengths 0 <= length (nth b x [])) ->
  (exists embedding,
     Embedding.forward (embedding_lookup self) x = Ok embedding
     /\ pack_padded_sequence embedding seq_lengths
        = Ok {| sequences := packed_input self x seq_lengths |})
  /\ Forall (Forall (fun v => length v = w)) (packed_input self x seq_lengths)
  /\ length (packed_input self x seq_lengths) = length x
  /\ forall b, b < length x ->
       length (nth b (packed_input self x seq_lengths) []) = nth b seq_lengths 0.
Proof.
  intros table Hids Hw Hw1 Hb Hc Hp Hd Hin.
  set (look := fun i : Z => nth (Z.to_nat i) table []).
  set (embedding := map (map look) x).
  assert (Her : forall b, length (nth b embedding []) = length (nth b x [])).
  { intros b. subst embedding.
    change (@nil (list F)) with (map look []). now rewrite map_nth, length_map. }
  assert (Hel : length embedding = length x) by (subst embedding; now rewrite length_map).
  assert (Hew : Forall (Forall (fun v => length v = w)) embedding).
  { subst embedding. apply Forall_map. eapply Forall_impl; [|exact Hids]. cbv beta.
    intros row Hrow. apply Forall_map. eapply Forall_impl; [|exact Hrow]. cbv beta.
    intros i [Hi0 Hi1]. subst look. cbv beta. apply nth_width; auto. lia. }
  assert (Hn : forall b, b < length x ->
               nth b (packed_input self x seq_lengths) []
               = firstn (nth b seq_lengths 0) (nth b embedding [])).
  { intros b Hlt. unfold packed_input. fold table. fold look. fold embedding.
    apply map2_nth; lia. }
  assert (Hl : length (packed_input self x seq_lengths) = length x).
  { unfold packed_input. rewrite map2_length, length_map, Hc. apply Nat.min_id. }
  splits; auto.
  - exists embedding. split.
    + apply Embedding_forward_ok. exact Hids.
    + apply (pack_ok embedding seq_lengths).
      * now rewrite Hel.
      * now rewrite Hel.
      * exact Hp.
      * exact Hd.
      * intros b Hlt. rewrite Her. apply Hin. lia.
      * eapply Forall_impl; [|exact Hew]. cbv beta. intros row Hrow.
        eapply Forall_impl; [|exact Hrow]. cbv beta. intros v ->. exact Hw1.
  - apply Forall_forall. intros s Hs.
    destruct (In_nth _ s [] Hs) as (b & Hlt & <-). rewrite Hl in Hlt. rewrite Hn by lia.
    apply Forall_firstn. rewrite Forall_forall in Hew. apply Hew, nth_In. lia.
  - intros b Hlt. rewrite Hn, length_firstn, Her by lia. specialize (Hin b Hlt). lia.
Qed.

Lemma check_input_iff (g : GRU.t F) (input : list (list (list F))) :
  GRU.check_input g input = true
  <-> Forall (Forall (fun v => length v = GRU.input_size g)) input.
Proof.
  unfold GRU.check_input. rewrite forallb_Forall. split; intros Hf;
    (eapply Forall_impl; [|exact Hf]); cbv beta; intros s.
  - rewrite forallb_Forall. intros Hs. eapply Forall_impl; [|exact Hs].
    intros v; apply has_width_iff.
  - intros Hs. rewrite forallb_Forall. eapply Forall_impl; [|exact Hs].
    intros v; apply has_width_iff.
Qed.

(** On a well-formed encoder and batch, the unmerged result as a function
    of the packed input alone. *)
Lemma unmerged_of_packed (self : GruEncoder.t F) (m : noise F) (x : list (list Z))
  (seq_lengths : list nat) :
  wf self -> valid_batch self x seq_lengths ->
  unmerged self m x seq_lengths
  = Ok (fst (pad_packed_sequence
               {| sequences :=
                    fst (GRU.run_batch (rnn self) (training self) m
                           (packed_input self x seq_lengths)
                           (zeros3 (directions self * num_layers self) (length x)
                                   (hidden_size self))) |}
               pad_value),
        snd (GRU.run_batch (rnn self) (training self) m
               (packed_input self x seq_lengths)
               (zeros3 (directions self * num_layers self) (length x)
                       (hidden_size self)))).
Proof.
  intros W V. pose proof (wf_table self W) as [Htl Htw].
  destruct (packed_stage self x seq_lengths (embedding_dim self)) as ((e & He & Hp) & Hw & Hl & _).
  - rewrite Htl. apply (vb_ids _ _ _ V).
  - exact Htw.
  - apply (wf_dim_pos self W).
  - apply (vb_nonempty _ _ _ V).
  - apply (vb_count _ _ _ V).
  - apply (vb_positive _ _ _ V).
  - apply (vb_sorted _ _ _ V).
  - apply (vb_within _ _ _ V).
  - unfold unmerged. rewrite He. cbn [bind]. rewrite Hp. cbn [bind].
    unfold gru_packed. cbn [sequences]. rewrite GRU_forward_none.
    + cbn [bind]. rewrite (rnn_directions self W), (wf_num_layers self W),
        (wf_hidden_size self W), Hl.
      destruct (GRU.run_batch _ _ _ _ _) as [o h]. reflexivity.
    + apply check_input_iff. now rewrite (wf_input_size self W).
Qed.

(** Shapes of the result of [forward], merged or not. *)
Lemma encoder_forward_shapes (self : GruEncoder.t F) (m : noise F) (x : list (list Z))
  (seq_lengths : list nat) :
  wf self -> valid_batch self x seq_lengths ->
  exists out hid,
    forward self m x seq_lengths = Ok (out, hid)
    /\ shape3 (length x) (list_max seq_lengths) (hidden_size self) out
    /\ shape3 (num_layers self) (length x) (hidden_size self) hid.
Proof.
  intros W V.
  destruct (unmerged_padded self m x seq_lengths W V) as (raw_out & raw_hid & E & So & Sh & _).
  rewrite forward_unmerged, E. cbn [bind fst snd]. unfold directions in *.
  destruct (bidirectional self).
  - exists (merge_output self raw_out), (merge_hidden self raw_hid). splits; auto.
    + now apply merge_output_shape.
    + now apply merge_hidden_spec.
  - rewrite !Nat.mul_1_l in *. exists raw_out, raw_hid. splits; auto.
Qed.
End EncoderStages.

Section EncoderErrors.
Context {F : Type} `{Float F} `{Tokens}.
Import GruEncoder EncoderWf Rnn_utils.

(** X4.  [init_embedding_weight] takes a matrix of any width without
    complaint; when the rows are not [embedding_dim] wide, the mistake
    surfaces at the next [forward], where the recurrent module rejects its
    input. *)
Theorem wrong_width_table_raises (self : GruEncoder.t F) (m : noise F)
  (weight : list (list F)) (w : nat) (x : list (list Z)) (seq_lengths : list nat) :
  valid_batch self x seq_lengths ->
  GRU.input_size (rnn self) = embedding_dim self ->
  length weight = vocab_size self ->
  Forall (fun r => length r = w) weight ->
  1 <= w ->
  w <> embedding_dim self ->
  forward (init_embedding_weight self weight) m x seq_lengths = Raise RuntimeError.
Proof.
  intros V Hi Hl Hw Hw1 Hne.
  destruct (packed_stage (init_embedding_weight self weight) x seq_lengths w)
    as ((e & He & Hp) & Hpw & Hpl & Hpn); auto.
  - cbn. rewrite Hl. apply (vb_ids _ _ _ V).
  - apply (vb_nonempty _ _ _ V).
  - apply (vb_count _ _ _ V).
  - apply (vb_positive _ _ _ V).
  - apply (vb_sorted _ _ _ V).
  - apply (vb_within _ _ _ V).
  - unfold forward. rewrite He. cbn [bind]. rewrite Hp. cbn [bind].
    unfold gru_packed, GRU.forward. cbn [sequences].
    destruct (GRU.check_input _ _) eqn:Ec; [exfalso|reflexivity].
    apply check_input_iff in Ec. cbn [rnn init_embedding_weight] in Ec.
    pose proof (vb_nonempty _ _ _ V) as Hb.
    pose proof (vb_positive _ _ _ V) as Hpos. rewrite Forall_forall in Hpos.
    specialize (Hpos (nth 0 seq_lengths 0)
                     ltac:(apply nth_In; rewrite (vb_count _ _ _ V); lia)).
    specialize (Hpn 0 ltac:(lia)).
    set (s := nth 0 (packed_input (init_embedding_weight self weight) x seq_lengths) [])
      in *.
    assert (Hs : In s (packed_input (init_embedding_weight self weight) x seq_lengths))
      by (apply nth_In; lia).
    rewrite Forall_forall in Ec, Hpw.
    specialize (Ec s Hs). specialize (Hpw s Hs). rewrite Forall_forall in Ec, Hpw.
    assert (Hv : In (nth 0 s []) s) by (apply nth_In; lia).
    specialize (Ec _ Hv). specialize (Hpw _ Hv). lia.
Qed.

Lemma nonempty_guard (input : list (list (list F))) :
  1 <= length input ->
  Forall (fun row => 1 <= length row /\ Forall (fun v => 1 <= length v) row) input ->
  negb (length input =? 0)
  && forallb (fun row => negb (length row =? 0)
                         && forallb (fun v => negb (length v =? 0)) row) input = true.
Proof.
  intros Hb Hf. apply andb_true_iff; split.
  - apply negb_true_iff, Nat.eqb_neq. lia.
  - apply forallb_Forall. eapply Forall_impl; [|exact Hf]. cbv beta.
    intros row [Hr Hv]. apply andb_true_iff; split.
    + apply negb_true_iff, Nat.eqb_neq. lia.
    + apply forallb_Forall. eapply Forall_impl; [|exact Hv]. cbv beta.
      intros v Hlen. apply negb_true_iff, Nat.eqb_neq. lia.
Qed.

(** X5.  [forward] does not accept lengths that are out of order or zero:
    on a batch of vocabulary ids with one length per row, lengths that are
    not in decreasing order, or that hold a zero, make it raise. *)
Theorem unsorted_lengths_raise (self : GruEncoder.t F) (m : noise F)
  (x : list (list Z)) (seq_lengths : list nat) :
  wf self ->
  1 <= length x ->
  Forall (fun row => 1 <= length row) x ->
  Forall (Forall (valid_id (vocab_size self))) x ->
  length seq_lengths = length x ->
  descending seq_lengths = false \/ In 0 seq_lengths ->
  forward self m x seq_lengths = Raise RuntimeError.
Proof.
  intros W Hb Hr Hids Hc Hbad. pose proof (wf_table self W) as [Htl Htw].
  unfold forward. rewrite Embedding_forward_ok by (rewrite Htl; exact Hids).
  cbn [bind]. unfold pack_padded_sequence.
  rewrite nonempty_guard; cbn [guard bind].
  - rewrite length_map, Hc, Nat.eqb_refl. cbn [guard bind].
    destruct (forallb (fun n => 0 <? n) seq_lengths) eqn:E0; cbn [guard bind]; auto.
    destruct (descending seq_lengths) eqn:Ed; cbn [guard bind]; auto.
    exfalso. destruct Hbad as [Hd|Hz]; [discriminate|].
    rewrite forallb_forall in E0. specialize (E0 0 Hz). discriminate.
  - now rewrite length_map.
  - apply Forall_map. rewrite Forall_forall in *. intros row Hin.
    rewrite length_map. split; [auto|]. apply Forall_map.
    specialize (Hids row Hin). eapply Forall_impl; [|exact Hids]. cbv beta.
    intros i Hi. rewrite (table_row_width _ _ _ i (wf_table self W) Hi).
    apply (wf_dim_pos self W).
Qed.
End EncoderErrors.

Section EncoderPaddingIds.
Context {F : Type} `{Float F} `{Tokens}.
Import GruEncoder EncoderWf Rnn_utils.

Lemma mapM_raise {A B : Type} (f : A -> result B) (e : exn) (l : list A) :
  Forall (fun a => f a = Raise e \/ exists b, f a = Ok b) l ->
  Exists (fun a => f a = Raise e) l ->
  mapM f l = Raise e.
Proof.
  induction 1 as [|a l Ha Hl IH]; intros Hex; [inversion Hex|].
  simpl. destruct Ha as [->|[b Hb]]; [reflexivity|].
  rewrite Hb. cbn [bind]. inversion Hex as [? ? Hr|? ? Ht]; subst.
  - congruence.
  - now rewrite (IH Ht).
Qed.

Lemma mapM_ok_or_raise {A B : Type} (f : A -> result B) (e : exn) (l : list A) :
  Forall (fun a => f a = Raise e \/ exists b, f a = Ok b) l ->
  mapM f l = Raise e \/ exists bs, mapM f l = Ok bs.
Proof.
  induction 1 as [|a l Ha Hl IH]; simpl; [right; eauto|].
  destruct Ha as [->|[b ->]]; [now left|]. cbn [bind].
  destruct IH as [->|[bs ->]]; [now left|right]. cbn [bind]. eauto.
Qed.

Lemma lookup_cases (e : Embedding.t F) (i : Z) :
  Embedding.lookup e i = Raise IndexError \/ exists v, Embedding.lookup e i = Ok v.
Proof.
  unfold Embedding.lookup. destruct (_ && _)%bool; [right; eauto|now left].
Qed.

(** X6.  Every position of the batch is looked up, padding included: an id
    outside the table anywhere in [x] makes [forward] raise [IndexError],
    whatever the lengths say. *)
Theorem invalid_id_raises (self : GruEncoder.t F) (m : noise F)
  (x : list (list Z)) (seq_lengths : list nat) :
  Exists (Exists (fun i =>
            ~ valid_id (length (Embedding.data (Embedding.weight (embedding_lookup self)))) i))
         x ->
  forward self m x seq_lengths = Raise IndexError.
Proof.
  intros Hex. unfold forward.
  assert (E : Embedding.forward (embedding_lookup self) x = Raise IndexError).
  { unfold Embedding.forward. apply mapM_raise.
    - apply Forall_forall. intros row _. apply mapM_ok_or_raise.
      apply Forall_forall. intros i _. apply lookup_cases.
    - eapply Exists_impl; [|exact Hex]. cbv beta. intros row Hrow.
      apply mapM_raise.
      + apply Forall_forall. intros i _. apply lookup_cases.
      + eapply Exists_impl; [|exact Hrow]. intros i. apply lookup_invalid. }
  now rewrite E.
Qed.

Lemma packed_input_prefix (self : GruEncoder.t F) (x x' : list (list Z))
  (seq_lengths : list nat) :
  length x = length x' ->
  length seq_lengths = length x ->
  (forall b, b < length x ->
     firstn (nth b seq_lengths 0) (nth b x []) = firstn (nth b seq_lengths 0) (nth b x' [])) ->
  packed_input self x seq_lengths = packed_input self x' seq_lengths.
Proof.
  intros Hl Hc Hp. unfold packed_input.
  set (look := fun i : Z => nth (Z.to_nat i) _ []).
  apply (nth_ext _ _ [] []).
  - rewrite !map2_length, !length_map. lia.
  - intros b Hb. rewrite map2_length, length_map, Hc, Nat.min_id in Hb.
    rewrite !(map2_nth _ _ _ b 0 [] []) by (rewrite ?length_map; lia).
    change (@nil (list F)) with (map look []). rewrite !map_nth.
    rewrite !firstn_map. now rewrite Hp.
Qed.

(** X7.  What a row holds past its true length does not reach the result:
    two valid batches that agree on every row up to its true length give
    the same output and hidden state. *)
Theorem padding_ids_irrelevant (self : GruEncoder.t F) (m : noise F)
  (x x' : list (list Z)) (seq_lengths : list nat) :
  wf self ->
  valid_batch self x seq_lengths ->
  valid_batch self x' seq_lengths ->
  (forall b, b < length x ->
     firstn (nth b seq_lengths 0) (nth b x []) = firstn (nth b seq_lengths 0) (nth b x' [])) ->
  forward self m x seq_lengths = forward self m x' seq_lengths.
Proof.
  intros W V V' Hp.
  assert (Hl : length x = length x')
    by (rewrite <- (vb_count _ _ _ V), <- (vb_count _ _ _ V'); reflexivity).
  rewrite !forward_unmerged, !unmerged_of_packed by assumption.
  rewrite (packed_input_prefix self x x' seq_lengths Hl (vb_count _ _ _ V) Hp).
  now rewrite Hl.
Qed.

(** X8.  On an encoder that is not bidirectional, every output position
    past the true length of its sequence holds the padding value in each of
    its [hidden_size] features. *)
Theorem unidirectional_padding_value (self : GruEncoder.t F) (m : noise F)
  (x : list (list Z)) (seq_lengths : list nat) :
  wf self ->
  valid_batch self x seq_lengths ->
  bidirectional self = false ->
  exists out hid,
    forward self m x seq_lengths = Ok (out, hid)
    /\ forall b t,
         b < length x -> nth b seq_lengths 0 <= t -> t < list_max seq_lengths ->
         nth t (nth b out []) [] = repeat pad_value (hidden_size self).
Proof.
  intros W V Eb.
  destruct (unmerged_padded self m x seq_lengths W V) as (raw_out & raw_hid & E & _ & _ & Hp).
  rewrite forward_unmerged, E. cbn [bind fst snd]. unfold directions in *.
  rewrite Eb in *. exists raw_out, raw_hid. split; auto.
  intros b t Hb Ht1 Ht2. rewrite (Hp b t Hb Ht1 Ht2). now rewrite Nat.mul_1_l.
Qed.
End EncoderPaddingIds.

(** * Further properties: the decoder *)

Section DecoderInputs.
Context {F : Type} `{Float F} `{Tokens}.
Import GruDecoder DecoderWf.

Lemma loop_raise (self : GruDecoder.t F) (m : noise F) (tgt_seqs : LongTensor2)
  (s0 : state F) (e : exn) (k n : nat) :
  loop self m tgt_seqs k s0 = Raise e -> k <= n -> loop self m tgt_seqs n s0 = Raise e.
Proof.
  intros Ek Hk. induction n as [|n IH].
  - now replace k with 0 in Ek by lia.
  - destruct (Nat.eq_dec k (S n)) as [<-|Hne]; [exact Ek|].
    rewrite loop_S, IH by lia. reflexivity.
Qed.

(** X9.  In inference mode the target arguments are not read: [forward]
    returns the same logits and predictions whatever [tgt_seqs] and
    [tgt_seq_lengths] are. *)
Theorem inference_ignores_target (self : GruDecoder.t F) (m : noise F)
  (encoder_output encoder_hidden_state : list (list (list F)))
  (tgt_seqs tgt_seqs' : LongTensor2) (tgt_seq_lengths tgt_seq_lengths' : list nat) :
  training self = false ->
  forward self m encoder_output encoder_hidden_state tgt_seqs tgt_seq_lengths
  = forward self m encoder_output encoder_hidden_state tgt_seqs' tgt_seq_lengths'.
Proof.
  intros Hev. unfold forward.
  assert (E : forall n s0, loop self m tgt_seqs n s0 = loop self m tgt_seqs' n s0).
  { intros n s0. induction n as [|n IH]; [reflexivity|].
    rewrite !loop_S, IH. destruct (loop self m tgt_seqs' n s0) as [s|e]; cbn [bind]; auto.
    unfold body. rewrite Hev. reflexivity. }
  now rewrite E.
Qed.

(** X10.  In training mode [forward] reads [max_seq_len] columns of the
    target but feeds only the first [max_seq_len - 1] of them to the
    decoder: two targets with at least [max_seq_len] columns that agree on
    those give the same result; [tgt_seq_lengths] is not read at all. *)
Theorem training_target_prefix (self : GruDecoder.t F) (m : noise F)
  (encoder_output encoder_hidden_state : list (list (list F)))
  (tgt_seqs tgt_seqs' : LongTensor2) (tgt_seq_lengths tgt_seq_lengths' : list nat) :
  training self = true ->
  max_seq_len self <= size1 tgt_seqs ->
  max_seq_len self <= size1 tgt_seqs' ->
  (forall t, S t < max_seq_len self ->
     map (fun r => nth t r 0%Z) (rows tgt_seqs) = map (fun r => nth t r 0%Z) (rows tgt_seqs')) ->
  forward self m encoder_output encoder_hidden_state tgt_seqs tgt_seq_lengths
  = forward self m encoder_output encoder_hidden_state tgt_seqs' tgt_seq_lengths'.
Proof.
  intros Htr Hs Hs' Hcol. unfold forward.
  set (s0 := initial self encoder_output encoder_hidden_state).
  destruct (max_seq_len self) as [|n] eqn:ET; [reflexivity|].
  assert (E : forall k, k <= n -> loop self m tgt_seqs k s0 = loop self m tgt_seqs' k s0).
  { induction k as [|k IH]; intros Hk; [reflexivity|].
    rewrite !loop_S, IH by lia.
    destruct (loop self m tgt_seqs' k s0) as [s|e]; cbn [bind]; auto.
    unfold body, select_column.
    replace (k <? size1 tgt_seqs) with true by (symmetry; apply Nat.ltb_lt; lia).
    replace (k <? size1 tgt_seqs') with true by (symmetry; apply Nat.ltb_lt; lia).
    now rewrite (Hcol k) by lia. }
  rewrite !loop_S, E by lia.
  destruct (loop self m tgt_seqs' n s0) as [s|e]; cbn [bind]; auto.
  unfold body, select_column.
  replace (n <? size1 tgt_seqs) with true by (symmetry; apply Nat.ltb_lt; lia).
  replace (n <? size1 tgt_seqs') with true by (symmetry; apply Nat.ltb_lt; lia).
  destruct (step self (sub n m) n (decoder_input s) (prev_hidden_state s)) as [[o h]|e];
    cbn [bind]; auto.
  rewrite Htr. reflexivity.
Qed.

(** X11.  The decoder checks the hidden state it is handed at the first
    step: when [encoder_hidden_state] is not of shape
    [(num_layers, batch, hidden_size)], with the batch size of
    [encoder_output], and [max_seq_len] is at least one, [forward] raises. *)
Theorem hidden_mismatch_raises (self : GruDecoder.t F) (m : noise F)
  (encoder_output encoder_hidden_state : list (list (list F)))
  (tgt_seqs : LongTensor2) (tgt_seq_lengths : list nat) :
  wf self ->
  1 <= max_seq_len self ->
  ~ shape3 (num_layers self) (length encoder_output) (hidden_size self)
           encoder_hidden_state ->
  forward self m encoder_output encoder_hidden_state tgt_seqs tgt_seq_lengths
  = Raise RuntimeError.
Proof.
  intros W HT Hbad. unfold forward.
  set (s0 := initial self encoder_output encoder_hidden_state).
  assert (E1 : loop self m tgt_seqs 1 s0 = Raise RuntimeError).
  { cbn [loop bind]. unfold body, step. subst s0. cbn [decoder_input prev_hidden_state initial].
    pose proof (wf_table self W) as [Htl Htw].
    rewrite Embedding_forward_ok.
    2:{ unfold unsqueeze_last. apply Forall_map, Forall_forall. intros i Hi.
        apply repeat_spec in Hi. subst i. constructor; auto. rewrite Htl.
        apply (wf_sos self W). }
    cbn [bind]. unfold GRU.forward.
    rewrite guard_ok; cbn [bind].
    2:{ apply check_input_iff. unfold unsqueeze_last. rewrite map_map.
        apply Forall_map, Forall_forall. intros i Hi. apply repeat_spec in Hi. subst i.
        constructor; auto. rewrite (wf_input_size self W).
        eapply table_row_width; [split; eauto|]. apply (wf_sos self W). }
    destruct (GRU.check_hidden _ _ _) eqn:Ec; [exfalso|reflexivity].
    apply check_hidden_iff in Ec. apply Hbad.
    unfold GRU.num_directions, unsqueeze_last in Ec.
    rewrite (wf_unidirectional self W), (wf_num_layers self W), (wf_hidden_size self W),
      Nat.mul_1_l, !length_map, repeat_length in Ec.
    exact Ec. }
  now rewrite (loop_raise self m tgt_seqs s0 RuntimeError 1 (max_seq_len self) E1 HT).
Qed.

(** X12.  Greedy search never leaves the vocabulary: in inference mode
    every predicted id lies in [0, vocab_size). *)
Theorem greedy_predictions_in_vocabulary (self : GruDecoder.t F) (m : noise F)
  (encoder_output encoder_hidden_state : list (list (list F)))
  (tgt_seqs : LongTensor2) (tgt_seq_lengths : list nat) :
  wf self ->
  training self = false ->
  shape3 (num_layers self) (length encoder_output) (hidden_size self)
         encoder_hidden_state ->
  exists logits preds,
    forward self m encoder_output encoder_hidden_state tgt_seqs tgt_seq_lengths
    = Ok (logits, preds)
    /\ Forall (Forall (valid_id (vocab_size self))) preds.
Proof.
  intros W Hev Hh.
  destruct (greedy_loop self m encoder_output encoder_hidden_state tgt_seqs
              W Hev Hh (max_seq_len self) ltac:(lia))
    as (s & El & _ & _ & _ & _ & Eg & Ep & Ea).
  exists (transpose01 (length encoder_output) (logits s)), (predictions s). split.
  - unfold forward. now rewrite El.
  - apply Forall_forall. intros p Hp.
    destruct (In_nth _ p [] Hp) as (k & Hk & <-). rewrite Ea by lia.
    destruct Eg as [Gl Gs]. rewrite Forall_forall in Gs.
    destruct (Gs (nth k (logits s) []) ltac:(apply nth_In; lia)) as [_ Hw].
    eapply (proj2 (proj2 (topk_rows self W _ _ (conj eq_refl Hw)))).
Qed.
End DecoderInputs.

(** * Further properties: dropout and composition *)

Section DropoutReach.
Context {F : Type} `{Float F} `{Tokens}.

Lemma layers_one (g : GRU.t F) (drop : bool) (m m' : noise F) (l : nat)
  (h0 xs : list (list F)) :
  GRU.layers g drop m 1 l h0 xs = GRU.layers g drop m' 1 l h0 xs.
Proof.
  cbn [GRU.layers Nat.eqb negb]. rewrite andb_false_r. reflexivity.
Qed.

(** The noise reaches the stack only in training mode and only between
    layers. *)
Lemma run_batch_noise (g : GRU.t F) (training : bool) (m m' : noise F)
  (input h0 : list (list (list F))) :
  training = false \/ GRU.num_layers g = 1 ->
  GRU.run_batch g training m input h0 = GRU.run_batch g training m' input h0.
Proof.
  intros [->|E1]; [apply run_batch_eval|].
  unfold GRU.run_batch, imap. rewrite E1.
  rewrite (imap_from_ext _
             (fun b xs => GRU.layers g (GRU.dropout_active g training) (sub b m') 1 0
                            (map (fun hl => nth b hl []) h0) xs)); auto.
  intros k a. apply layers_one.
Qed.

Lemma GRU_forward_noise (g : GRU.t F) (training : bool) (m m' : noise F)
  (input : list (list (list F))) (hx : option (list (list (list F)))) :
  training = false \/ GRU.num_layers g = 1 ->
  GRU.forward g training m input hx = GRU.forward g training m' input hx.
Proof.
  intros Hc. unfold GRU.forward.
  destruct (guard (GRU.check_input g input) RuntimeError); cbn [bind]; auto.
  destruct hx as [h|]; cbn [bind];
    [destruct (guard (GRU.check_hidden g (length input) h) RuntimeError); cbn [bind]; auto|];
    now rewrite (run_batch_noise g training m m' _ _ Hc).
Qed.

(** X14.  Dropout does not reach the encoder in inference mode, nor on an
    encoder with a single layer in any mode: [forward] then returns the
    same result whatever the dropout factors drawn. *)
Theorem encoder_dropout_reach (self : GruEncoder.t F) (m m' : noise F)
  (x : list (list Z)) (seq_lengths : list nat) :
  GruEncoder.training self = false \/ GRU.num_layers (GruEncoder.rnn self) = 1 ->
  GruEncoder.forward self m x seq_lengths = GruEncoder.forward self m' x seq_lengths.
Proof.
  intros Hc. unfold GruEncoder.forward.
  destruct (Embedding.forward (GruEncoder.embedding_lookup self) x) as [e|];
    cbn [bind]; auto.
  destruct (Rnn_utils.pack_padded_sequence e seq_lengths) as [p|]; cbn [bind]; auto.
  unfold Rnn_utils.gru_packed.
  now rewrite (GRU_forward_noise _ _ m m' _ _ Hc).
Qed.

(** X15.  Nor does it reach a decoder with a single layer, in training mode
    included: teacher forcing on such a decoder returns the same logits
    whatever the dropout factors drawn. *)
Theorem decoder_single_layer_dropout (self : GruDecoder.t F) (m m' : noise F)
  (encoder_output encoder_hidden_state : list (list (list F)))
  (tgt_seqs : LongTensor2) (tgt_seq_lengths : list nat) :
  GRU.num_layers (GruDecoder.rnn self) = 1 ->
  GruDecoder.forward self m encoder_output encoder_hidden_state tgt_seqs tgt_seq_lengths
  = GruDecoder.forward self m' encoder_output encoder_hidden_state tgt_seqs tgt_seq_lengths.
Proof.
  intros E1. unfold GruDecoder.forward.
  assert (E : forall n s0, GruDecoder.loop self m tgt_seqs n s0
                           = GruDecoder.loop self m' tgt_seqs n s0).
  { intros n s0. induction n as [|n IH]; [reflexivity|].
    rewrite !loop_S, IH.
    destruct (GruDecoder.loop self m' tgt_seqs n s0) as [s|e]; cbn [bind]; auto.
    unfold GruDecoder.body, GruDecoder.step.
    destruct (Embedding.forward _ _) as [emb|]; cbn [bind]; auto.
    now rewrite (GRU_forward_noise _ _ (sub n m) (sub n m') _ _ (or_intror E1)). }
  now rewrite E.
Qed.
End DropoutReach.

Section Composition.
Context {F : Type} `{Float F} `{Tokens}.

(** X13.  The encoder's result is what the decoder takes: for a well-formed
    encoder, bidirectional or not, and a well-formed decoder with the same
    number of layers and hidden size, greedy decoding from the encoder's
    output and hidden state on a valid batch returns logits of shape
    [(batch, max_seq_len, vocab_size)] and [max_seq_len] predictions of one
    id per sequence. *)
Theorem encoder_decoder_compose (enc : GruEncoder.t F) (dec : GruDecoder.t F)
  (m m' : noise F) (x : list (list Z)) (seq_lengths : list nat)
  (tgt_seqs : LongTensor2) (tgt_seq_lengths : list nat) :
  EncoderWf.wf enc ->
  EncoderWf.valid_batch enc x seq_lengths ->
  DecoderWf.wf dec ->
  GruDecoder.training dec = false ->
  GruDecoder.num_layers dec = GruEncoder.num_layers enc ->
  GruDecoder.hidden_size dec = GruEncoder.hidden_size enc ->
  exists out hid logits preds,
    GruEncoder.forward enc m x seq_lengths = Ok (out, hid)
    /\ GruDecoder.forward dec m' out hid tgt_seqs tgt_seq_lengths = Ok (logits, preds)
    /\ shape3 (length x) (GruDecoder.max_seq_len dec) (GruDecoder.vocab_size dec) logits
    /\ shape2 (GruDecoder.max_seq_len dec) (length x) preds.
Proof.
  intros We V Wd Hev EL EH.
  destruct (encoder_forward_shapes enc m x seq_lengths We V) as (out & hid & E & So & Sh).
  assert (Hb : length out = length x) by apply So.
  rewrite <- EL, <- EH, <- Hb in Sh.
  destruct (greedy_loop dec m' out hid tgt_seqs Wd Hev Sh (GruDecoder.max_seq_len dec)
              ltac:(lia)) as (s & El & _ & _ & _ & _ & Eg & Ep & Ea).
  exists out, hid, (transpose01 (length out) (GruDecoder.logits s)),
         (GruDecoder.predictions s).
  splits; auto.
  - unfold GruDecoder.forward. now rewrite El.
  - rewrite <- Hb. now apply transpose01_shape.
  - split; [exact Ep|]. apply Forall_length_nth. intros t Ht.
    rewrite Ea, length_map by lia. rewrite <- Hb.
    destruct Eg as [Gl Gs]. rewrite Forall_forall in Gs.
    apply (Gs (nth t (GruDecoder.logits s) [])). apply nth_In. lia.
Qed.
End Composition.

Section LastOutput.
Context {F : Type} `{Float F} `{Tokens}.
Import GruEncoder EncoderWf Rnn_utils.

Lemma nth_pred_last {A : Type} (l : list A) (d d' : A) :
  1 <= length l -> nth (length l - 1) l d = last l d'.
Proof.
  induction l as [|a [|b l] IH]; simpl; intros Hl; try lia; auto.
  simpl in IH. rewrite <- IH by lia. now rewrite Nat.sub_0_r.
Qed.

(** The outputs of a stack are the outputs of its last layer. *)
Lemma layers_outputs (g : GRU.t F) (drop : bool) (m : noise F) (xs : list (list F))
  (n : nat) :
  forall l0,
    fst (GRU.layers g drop m (S n) l0
           (repeat (zeros1 (GRU.hidden_size g)) (GRU.num_directions g * S n))
           (GRU.layer_input g drop m l0 xs))
    = fst (GRU.layer g (l0 + n)
             (repeat (zeros1 (GRU.hidden_size g)) (GRU.num_directions g))
             (GRU.layer_input g drop m (l0 + n) xs)).
Proof.
  induction n as [|n IH]; intros l0.
  - cbn [GRU.layers Nat.eqb negb]. rewrite firstn_repeat_mul, andb_false_r, Nat.add_0_r.
    destruct (GRU.layer g l0 _ _) as [out fin]. reflexivity.
  - remember (S n) as k eqn:Ek. cbn [GRU.layers].
    rewrite firstn_repeat_mul, skipn_repeat_mul.
    destruct (GRU.layer g l0 (repeat (zeros1 (GRU.hidden_size g)) (GRU.num_directions g))
                (GRU.layer_input g drop m l0 xs)) as [out fin] eqn:EL.
    assert (Hk : (k =? 0) = false) by (apply Nat.eqb_neq; lia).
    rewrite Hk, andb_true_r.
    assert (Hin : (if drop then dropout_seq (sub l0 m) out else out)
                  = GRU.layer_input g drop m (S l0) xs).
    { cbn [GRU.layer_input]. now rewrite EL. }
    rewrite Hin. subst k. specialize (IH (S l0)).
    destruct (GRU.layers g drop m (S n) (S l0) _ _) as [o fs]. cbn [fst] in *.
    rewrite IH. now replace (S l0 + n) with (l0 + S n) by lia.
Qed.

(** X16.  Packing makes the final state the state at the true end of each
    sequence: on an encoder that is not bidirectional, the hidden state
    returned for the last layer is, for every sequence, the output at the
    sequence's last true position. *)
Theorem final_state_at_true_length (self : GruEncoder.t F) (m : noise F)
  (x : list (list Z)) (seq_lengths : list nat) :
  wf self ->
  valid_batch self x seq_lengths ->
  bidirectional self = false ->
  exists out hid,
    forward self m x seq_lengths = Ok (out, hid)
    /\ forall b, b < length x ->
         nth (nth b seq_lengths 0 - 1) (nth b out []) []
         = nth b (nth (num_layers self - 1) hid []) [].
Proof.
  intros W V Eb.
  rewrite forward_unmerged, (unmerged_of_packed self m x seq_lengths W V).
  cbn [bind fst snd]. rewrite Eb. do 2 eexists. split; [reflexivity|].
  intros b Hb.
  pose proof (wf_layers_pos self W) as HL.
  pose proof (wf_table self W) as [Htl Htw].
  destruct (packed_stage self x seq_lengths (embedding_dim self)) as (_ & _ & Hl & Hn);
    try (rewrite ?Htl; apply V); auto; try apply (wf_dim_pos self W).
  assert (HD : GRU.num_directions (rnn self) = 1)
    by (rewrite (rnn_directions self W); unfold directions; now rewrite Eb).
  assert (Hdir : directions self = 1) by (unfold directions; now rewrite Eb).
  rewrite Hdir, Nat.mul_1_l.
  set (g := rnn self). set (input := packed_input self x seq_lengths) in *.
  set (z := zeros1 (GRU.hidden_size g)).
  set (drop := GRU.dropout_active g (training self)).
  set (ys := GRU.layer_input g drop (sub b m) (num_layers self - 1) (nth b input [])).
  (* the hidden state *)
  pose proof (run_batch_finals g (training self) m input (num_layers self - 1) 0) as Hf.
  subst g. rewrite HD, (wf_num_layers self W), (wf_hidden_size self W), Hl in Hf.
  rewrite !Nat.mul_1_l, Nat.add_0_r in Hf. rewrite Hf by lia.
  unfold GRU.final_state. rewrite (imap_nth _ _ b [] []) by lia. cbn [direction_at].
  fold input. fold drop. fold ys. rewrite (wf_hidden_size self W).
  (* the output *)
  unfold pad_packed_sequence. cbn [sequences fst].
  set (outs := fst (GRU.run_batch (rnn self) (training self) m input _)).
  set (padf := fun s : list (list F) => s ++ repeat _ (_ - length s)).
  assert (Ho : nth b outs [] = GRU.run (rnn self) (num_layers self - 1) GRU.Forward
                                 (zeros1 (hidden_size self)) ys).
  { subst outs. unfold GRU.run_batch. cbn [fst].
    change (@nil (list F)) with (fst (@nil (list F), @nil (list F))) at 1.
    rewrite map_nth. rewrite (imap_nth _ _ b [] ([], [])) by lia.
    rewrite zeros3_column by exact Hb.
    pose proof (layers_outputs (rnn self) drop (sub b m) (nth b input [])
                  (num_layers self - 1) 0) as Hlo.
    rewrite HD, (wf_hidden_size self W), Nat.mul_1_l in Hlo. cbn [Nat.add] in Hlo.
    replace (S (num_layers self - 1)) with (num_layers self) in Hlo by lia.
    cbn [GRU.layer_input] in Hlo. fold input in Hlo. fold drop.
    rewrite (wf_num_layers self W), Hlo.
    unfold GRU.layer. rewrite (wf_bidirectional self W), Eb. reflexivity. }
  assert (Hys : length ys = nth b seq_lengths 0).
  { subst ys. clear Ho Hf. generalize (num_layers self - 1). intros k.
    induction k as [|k IH]; cbn [GRU.layer_input]; [now apply Hn|].
    destruct drop; rewrite ?dropout_seq_length;
      unfold GRU.layer; rewrite (wf_bidirectional self W), Eb; cbn [fst];
      now rewrite run_length. }
  pose proof (vb_positive _ _ _ V) as Hpos. rewrite Forall_forall in Hpos.
  specialize (Hpos (nth b seq_lengths 0)
                   ltac:(apply nth_In; rewrite (vb_count _ _ _ V); lia)).
  assert (Hlo : length outs = length x).
  { subst outs. unfold GRU.run_batch. cbn [fst]. now rewrite length_map, imap_length. }
  rewrite (nth_indep _ [] (padf [])) by (rewrite length_map; lia).
  rewrite map_nth. subst padf. cbv beta.
  rewrite app_nth1 by (rewrite Ho, run_length; lia).
  rewrite Ho. cbn [GRU.run GRU.final].
  rewrite <- Hys, <- (scan_length (GRU.cell (rnn self) (num_layers self - 1) GRU.Forward)
                        (zeros1 (hidden_size self)) ys).
  apply nth_pred_last. rewrite scan_length. lia.
Qed.
End LastOutput.

Section TargetIds.
Context {F : Type} `{Float F} `{Tokens}.
Import GruDecoder DecoderWf.

Variables (self : GruDecoder.t F) (m : noise F).
Variables (encoder_output encoder_hidden_state : list (list (list F))).
Variable tgt_seqs : LongTensor2.

Hypothesis W : wf self.
Hypothesis Htrain : training self = true.
Hypothesis Hhidden :
  shape3 (num_layers self) (length encoder_output) (hidden_size self) encoder_hidden_state.
Hypothesis Hrows : length (rows tgt_seqs) = length encoder_output.

(** Teacher forcing as far as the target columns read so far hold ids of
    the vocabulary. *)
Lemma training_loop_columns (n : nat) :
  n <= max_seq_len self -> n <= size1 tgt_seqs ->
  (forall t, S t < n ->
     Forall (valid_id (vocab_size self)) (map (fun r => nth t r 0%Z) (rows tgt_seqs))) ->
  exists s,
    loop self m tgt_seqs n (initial self encoder_output encoder_hidden_state) = Ok s
    /\ decoder_input s = teacher_input (length encoder_output) tgt_seqs n
    /\ shape3 (num_layers self) (length encoder_output) (hidden_size self)
              (prev_hidden_state s).
Proof.
  induction n as [|n IH]; intros Hn Hs Hcols.
  - eexists; split; [reflexivity|]. split; auto.
  - destruct IH as (s & El & Ei & Eh); try lia.
    { intros t Ht. apply Hcols. lia. }
    assert (Tl : length (decoder_input s) = length encoder_output).
    { rewrite Ei. destruct n; cbn [teacher_input];
        [apply repeat_length|now rewrite length_map]. }
    assert (Tv : Forall (valid_id (vocab_size self)) (decoder_input s)).
    { rewrite Ei. destruct n as [|n]; cbn [teacher_input].
      - apply Forall_forall. intros i Hi. apply repeat_spec in Hi. subst i.
        apply (wf_sos self W).
      - apply Hcols. lia. }
    rewrite <- Tl in Eh.
    destruct (step_ok self (sub n m) n (decoder_input s) (prev_hidden_state s) W Tv Eh)
      as (Es & _ & S2).
    rewrite Tl in S2.
    rewrite loop_S, El. cbn [bind]. unfold body. rewrite Es. cbn [bind].
    rewrite (surjective_pairing (step_spec _ _ _ _)). rewrite Htrain.
    unfold select_column. replace (n <? size1 tgt_seqs) with true
      by (symmetry; apply Nat.ltb_lt; lia).
    cbn [bind]. eexists; split; [reflexivity|]. cbn. split; auto.
Qed.
End TargetIds.

Section TargetIdsClaims.
Context {F : Type} `{Float F} `{Tokens}.
Import GruDecoder DecoderWf.

(** X17.  Teacher forcing looks up the target ids it feeds: when the first
    target column to hold an id outside the vocabulary is one of the first
    [max_seq_len - 1], [forward] raises [IndexError]. *)
Theorem invalid_target_id_raises (self : GruDecoder.t F) (m : noise F)
  (encoder_output encoder_hidden_state : list (list (list F)))
  (tgt_seqs : LongTensor2) (tgt_seq_lengths : list nat) (t0 : nat) :
  wf self ->
  training self = true ->
  shape3 (num_layers self) (length encoder_output) (hidden_size self)
         encoder_hidden_state ->
  length (rows tgt_seqs) = length encoder_output ->
  S t0 < max_seq_len self ->
  t0 < size1 tgt_seqs ->
  (forall t, t < t0 ->
     Forall (valid_id (vocab_size self)) (map (fun r => nth t r 0%Z) (rows tgt_seqs))) ->
  Exists (fun i => ~ valid_id (vocab_size self) i)
         (map (fun r => nth t0 r 0%Z) (rows tgt_seqs)) ->
  forward self m encoder_output encoder_hidden_state tgt_seqs tgt_seq_lengths
  = Raise IndexError.
Proof.
  intros W Htr Hh Hr HT Hs Hcols Hbad.
  destruct (training_loop_columns self m encoder_output encoder_hidden_state tgt_seqs
              W Htr Hh Hr (S t0) ltac:(lia) ltac:(lia)) as (s & El & Ei & _).
  { intros t Ht. apply Hcols. lia. }
  assert (E : loop self m tgt_seqs (S (S t0))
                (initial self encoder_output encoder_hidden_state) = Raise IndexError).
  { rewrite loop_S, El. cbn [bind]. unfold body, step. rewrite Ei. cbn [teacher_input].
    pose proof (wf_table self W) as [Htl _].
    replace (Embedding.forward _ _) with (@Raise (list (list (list F))) IndexError);
      [reflexivity|].
    symmetry. unfold Embedding.forward, unsqueeze_last. apply mapM_raise.
    - apply Forall_forall. intros row _. apply mapM_ok_or_raise.
      apply Forall_forall. intros i _. apply lookup_cases.
    - apply Exists_exists. apply Exists_exists in Hbad as (i & Hi & Hn).
      exists [i]. split; [exact (in_map (fun a : Z => [a]) _ i Hi)|].
      cbn [mapM]. rewrite lookup_invalid; [reflexivity|]. now rewrite Htl. }
  unfold forward.
  now rewrite (loop_raise self m tgt_seqs _ IndexError (S (S t0)) (max_seq_len self) E
                 ltac:(lia)).
Qed.

(** X18.  The decoder uses the encoder's per-step output for its batch size
    and nothing else: two encoder outputs with the same number of sequences
    give the same logits and predictions. *)
Theorem encoder_output_only_batch_size (self : GruDecoder.t F) (m : noise F)
  (encoder_output encoder_output' encoder_hidden_state : list (list (list F)))
  (tgt_seqs : LongTensor2) (tgt_seq_lengths : list nat) :
  length encoder_output = length encoder_output' ->
  forward self m encoder_output encoder_hidden_state tgt_seqs tgt_seq_lengths
  = forward self m encoder_output' encoder_hidden_state tgt_seqs tgt_seq_lengths.
Proof.
  intros E. unfold forward, initial. now rewrite E.
Qed.
End TargetIdsClaims.

(** * The further properties on the example instance *)

Section ExtraExamples.
Import Example.
#[local] Existing Instance FloatZ.
#[local] Existing Instance tokens.

Lemma other_batch_valid (bidirectional : bool) (num_layers : nat) :
  EncoderWf.valid_batch (encoder bidirectional num_layers) x_other seq_lengths.
Proof.
  constructor; try reflexivity; try (cbn; lia).
  - repeat constructor; cbv; try discriminate; reflexivity.
  - repeat constructor.
  - intros [|[|b]]; cbn; lia.
Qed.

Lemma wrong_width_table_raises_witness :
  GruEncoder.forward (GruEncoder.init_embedding_weight (encoder false 1) narrow_table)
    no_noise x seq_lengths = Raise RuntimeError.
Proof.
  apply (wrong_width_table_raises (encoder false 1) no_noise narrow_table 1 x seq_lengths
           (batch_valid false 1)); try reflexivity; try (cbn; lia).
  repeat constructor.
Defined.

Lemma unsorted_lengths_raise_witness :
  GruEncoder.forward (encoder false 1) no_noise x unsorted_lengths = Raise RuntimeError.
Proof.
  apply (unsorted_lengths_raise (encoder false 1) no_noise x unsorted_lengths
           (encoder_wf false 1 ltac:(lia)) ltac:(cbn; lia) ltac:(repeat constructor)
           ltac:(repeat constructor; cbv; try discriminate; reflexivity)
           eq_refl (or_introl eq_refl)).
Defined.

Lemma invalid_id_raises_witness :
  GruEncoder.forward (encoder false 1) no_noise x_outside seq_lengths = Raise IndexError.
Proof.
  apply (invalid_id_raises (encoder false 1) no_noise x_outside seq_lengths).
  apply Exists_cons_tl, Exists_cons_hd.
  apply Exists_cons_tl, Exists_cons_tl, Exists_cons_hd.
  cbv. intros [_ Hlt]. discriminate.
Defined.

Lemma padding_ids_irrelevant_witness :
  GruEncoder.forward (encoder true 2) no_noise x seq_lengths
  = GruEncoder.forward (encoder true 2) no_noise x_other seq_lengths.
Proof.
  apply (padding_ids_irrelevant (encoder true 2) no_noise x x_other seq_lengths
           (encoder_wf true 2 ltac:(lia)) (batch_valid true 2) (other_batch_valid true 2)).
  intros [|[|b]] Hb; reflexivity.
Defined.

Lemma unidirectional_padding_value_witness :
  exists out hid,
    GruEncoder.forward (encoder false 2) no_noise x seq_lengths = Ok (out, hid)
    /\ forall b t, b < 2 -> nth b seq_lengths 0 <= t -> t < 3 ->
         nth t (nth b out []) [] = repeat 0%Z 2.
Proof.
  apply (unidirectional_padding_value (encoder false 2) no_noise x seq_lengths
           (encoder_wf false 2 ltac:(lia)) (batch_valid false 2) eq_refl).
Defined.

Lemma inference_ignores_target_witness :
  GruDecoder.forward (GruDecoder.train false decoder) no_noise encoder_output
    encoder_hidden_state (tgt 0) []
  = GruDecoder.forward (GruDecoder.train false decoder) no_noise encoder_output
      encoder_hidden_state tgt_outside [3; 2].
Proof.
  apply (inference_ignores_target (GruDecoder.train false decoder) no_noise encoder_output
           encoder_hidden_state (tgt 0) tgt_outside [] [3; 2] eq_refl).
Defined.

Lemma training_target_prefix_witness :
  GruDecoder.forward decoder no_noise encoder_output encoder_hidden_state (tgt 3) [3; 2]
  = GruDecoder.forward decoder no_noise encoder_output encoder_hidden_state tgt_other [].
Proof.
  apply (training_target_prefix decoder no_noise encoder_output encoder_hidden_state
           (tgt 3) tgt_other [3; 2] [] eq_refl); try (cbn; lia).
  intros [|[|t]] Ht; try reflexivity. cbn in Ht. lia.
Defined.

Lemma hidden_mismatch_raises_witness :
  GruDecoder.forward decoder no_noise encoder_output short_hidden_state (tgt 3) [3; 2]
  = Raise RuntimeError.
Proof.
  apply (hidden_mismatch_raises decoder no_noise encoder_output short_hidden_state
           (tgt 3) [3; 2] decoder_wf); [cbn; lia|].
  intros [_ Hs]. inversion Hs as [|? ? [Hl _] _]. discriminate.
Defined.

Lemma greedy_predictions_in_vocabulary_witness :
  exists logits preds,
    GruDecoder.forward (GruDecoder.train false decoder) no_noise encoder_output
      encoder_hidden_state (tgt 0) [] = Ok (logits, preds)
    /\ Forall (Forall (valid_id 6)) preds.
Proof.
  apply (greedy_predictions_in_vocabulary (GruDecoder.train false decoder) no_noise
           encoder_output encoder_hidden_state (tgt 0) [] eval_decoder_wf eq_refl
           encoder_hidden_state_shape).
Defined.

Lemma encoder_decoder_compose_witness :
  exists out hid logits preds,
    GruEncoder.forward (encoder true 1) no_noise x seq_lengths = Ok (out, hid)
    /\ GruDecoder.forward (GruDecoder.train false decoder) no_noise out hid (tgt 0) []
       = Ok (logits, preds)
    /\ shape3 2 3 6 logits
    /\ shape2 3 2 preds.
Proof.
  apply (encoder_decoder_compose (encoder true 1) (GruDecoder.train false decoder)
           no_noise no_noise x seq_lengths (tgt 0) []
           (encoder_wf true 1 ltac:(lia)) (batch_valid true 1) eval_decoder_wf
           eq_refl eq_refl eq_refl).
Defined.

Lemma encoder_dropout_reach_witness :
  GruEncoder.forward (encoder true 1) no_noise x seq_lengths
  = GruEncoder.forward (encoder true 1) (fun _ => 0%Z) x seq_lengths.
Proof.
  apply (encoder_dropout_reach (encoder true 1) no_noise (fun _ => 0%Z) x seq_lengths).
  right. reflexivity.
Defined.

Lemma decoder_single_layer_dropout_witness :
  GruDecoder.forward decoder no_noise encoder_output encoder_hidden_state (tgt 3) [3; 2]
  = GruDecoder.forward decoder (fun _ => 0%Z) encoder_output encoder_hidden_state
      (tgt 3) [3; 2].
Proof.
  apply (decoder_single_layer_dropout decoder no_noise (fun _ => 0%Z) encoder_output
           encoder_hidden_state (tgt 3) [3; 2] eq_refl).
Defined.

Lemma final_state_at_true_length_witness :
  exists out hid,
    GruEncoder.forward (encoder false 2) no_noise x seq_lengths = Ok (out, hid)
    /\ forall b, b < 2 ->
         nth (nth b seq_lengths 0 - 1) (nth b out []) [] = nth b (nth (2 - 1) hid []) [].
Proof.
  apply (final_state_at_true_length (encoder false 2) no_noise x seq_lengths
           (encoder_wf false 2 ltac:(lia)) (batch_valid false 2) eq_refl).
Defined.

Lemma invalid_target_id_raises_witness :
  GruDecoder.forward decoder no_noise encoder_output encoder_hidden_state tgt_outside [3; 2]
  = Raise IndexError.
Proof.
  apply (invalid_target_id_raises decoder no_noise encoder_output encoder_hidden_state
           tgt_outside [3; 2] 1 decoder_wf eq_refl encoder_hidden_state_shape eq_refl);
    try (cbn; lia).
  - intros [|t] Ht; [|lia]. repeat constructor; cbv; try discriminate; reflexivity.
  - apply Exists_cons_hd. cbv. intros [_ Hlt]. discriminate.
Defined.

Lemma encoder_output_only_batch_size_witness :
  GruDecoder.forward decoder no_noise encoder_output encoder_hidden_state (tgt 3) [3; 2]
  = GruDecoder.forward decoder no_noise [[[7; 7]; [8; 8]]; [[9; 9]]]%Z
      encoder_hidden_state (tgt 3) [3; 2].
Proof.
  apply (encoder_output_only_batch_size decoder no_noise encoder_output
           [[[7; 7]; [8; 8]]; [[9; 9]]]%Z encoder_hidden_state (tgt 3) [3; 2] eq_refl).
Defined.
End ExtraExamples.

Section DropoutExample.
Import Example.
#[local] Existing Instance FloatZ.
#[local] Existing Instance tokens.

(** Between two layers, in training mode, the factors drawn do reach the
    result: the model of dropout is not idle. *)
Lemma dropout_reaches_two_layers :
  GruEncoder.forward dropout_encoder no_noise x seq_lengths
  <> GruEncoder.forward dropout_encoder (fun _ => 0%Z) x seq_lengths.
Proof. vm_compute. discriminate. Qed.
End DropoutExample.
